(** * Smart To-Do List: the SQLite initializer (src/database/init_db.py)

    A shallow embedding of [init_db.py].  The script talks to three things
    that live outside of it: the SQLite engine (through the statements it
    sends), Python's [sqlite3] connection object (which decides where
    transactions begin and end) and the file system.  Each of them is
    modelled here to the extent the script uses it:

    - the rows of [categories] and [tasks], with the constraints that the
      two [CREATE TABLE] statements declare, and the engine's table of
      schema objects ([sqlite_master]) and of AUTOINCREMENT counters
      ([sqlite_sequence]); a column holds values of its declared type
      (an integer or a text) or NULL;
    - a connection with its own view of the database, the committed
      content of the file, and the implicit transaction that [sqlite3]
      opens, under its default transaction control, before an INSERT
      (and not before a CREATE);
    - the two descriptor files, as a finite map from paths to contents.

    The script itself ([_connect], [_create_schema], [_seed_data],
    [_write_connection_files], [main]) is written in a small state and
    exception monad over that world. *)

From stdpp Require Import base strings list gmap pretty.
From Stdlib Require Import ZArith Ascii String Lia.

Local Open Scope string_scope.
Local Open Scope Z_scope.

(** ** Text comparison of the engine *)

(** NOCASE folds the 26 upper case letters of ASCII and nothing else. *)
Definition to_lower (c : ascii) : ascii :=
  let n := N_of_ascii c in
  if ((65 <=? n) && (n <=? 90))%N then ascii_of_N (n + 32) else c.

Fixpoint nocase_eq (a b : string) : bool :=
  match a, b with
  | EmptyString, EmptyString => true
  | String x a', String y b' =>
      Ascii.eqb (to_lower x) (to_lower y) && nocase_eq a' b'
  | _, _ => false
  end.

(** [s LIKE p]: a percent sign matches any run of characters, an underscore
    exactly one, any other character itself up to ASCII case. *)
Fixpoint like (p s : string) : bool :=
  match p with
  | EmptyString => match s with EmptyString => true | _ => false end
  | String "%" p' =>
      (fix skip (s : string) : bool :=
         like p' s || match s with
                      | EmptyString => false
                      | String _ s' => skip s'
                      end) s
  | String "_" p' =>
      match s with EmptyString => false | String _ s' => like p' s' end
  | String c p' =>
      match s with
      | EmptyString => false
      | String d s' => Ascii.eqb (to_lower c) (to_lower d) && like p' s'
      end
  end.

(** ** Rows *)

Record category := mk_category {
  cat_id : Z;
  cat_name : string;
  cat_color : option string;
  cat_sort_order : Z;
  cat_created_at : Z;
  cat_updated_at : Z
}.

Record task := mk_task {
  task_id : Z;
  title : string;
  description : option string;
  due_at : option Z;
  is_completed : Z;
  completed_at : option Z;
  category_id : option Z;
  priority : Z;
  task_created_at : Z;
  task_updated_at : Z
}.

(** The content of one database file.  A table that does not exist is
    [None]; [objects] holds the remaining rows of [sqlite_master] as
    (type, name): the indexes the script creates and whatever else an older
    file contains (the doc string of the script mentions the sample tables
    [users] and [app_info]).  A table called [categories] or [tasks] is
    always one made by the statements of [_create_schema]. *)
Record database := mk_database {
  categories : option (list category);
  tasks : option (list task);
  sqlite_sequence : option (gmap string Z);
  objects : list (string * string)
}.

Definition empty_database : database :=
  {| categories := None; tasks := None; sqlite_sequence := None; objects := [] |}.

Definition present {A : Type} (o : option A) : bool :=
  match o with Some _ => true | None => false end.

Definition sqlite_master (db : database) : list (string * string) :=
  (if present (categories db)
   then [("table", "categories"); ("index", "sqlite_autoindex_categories_1")]
   else [])
  ++ (if present (sqlite_sequence db) then [("table", "sqlite_sequence")] else [])
  ++ (if present (tasks db) then [("table", "tasks")] else [])
  ++ objects db.

Definition has_object (ty name : string) (db : database) : bool :=
  existsb (fun o => String.eqb (fst o) ty && nocase_eq (snd o) name)
          (sqlite_master db).

(** ** Exceptions *)

Inductive exn :=
| OperationalError (msg : string)
| IntegrityError (msg : string)
| ProgrammingError (msg : string)
| OSError (msg : string).

Inductive result (A : Type) :=
| Ok (a : A)
| Raise (e : exn).
Arguments Ok {A} a.
Arguments Raise {A} e.

(** ** The engine: statements against the schema of [_create_schema] *)

Definition MAX_ROWID : Z := 9223372036854775807.

Definition seq_of (tbl : string) (db : database) : Z :=
  default 0 (default ∅ (sqlite_sequence db) !! tbl).

Definition set_seq (tbl : string) (v : Z) (db : database) : database :=
  if seq_of tbl db <? v
  then {| categories := categories db; tasks := tasks db;
          sqlite_sequence := Some (<[tbl := v]> (default ∅ (sqlite_sequence db)));
          objects := objects db |}
  else db.

Definition max_rowid (ids : list Z) : option Z :=
  match ids with
  | [] => None
  | i :: rest => Some (fold_left Z.max rest i)
  end.

(** The rowid an AUTOINCREMENT table gives to a row inserted without one:
    one more than the largest rowid the table holds and than the largest it
    ever held; when either is the largest 64-bit integer the engine gives
    up with SQLITE_FULL.  This happens before any constraint is looked at. *)
Definition new_rowid (tbl : string) (ids : list Z) (db : database) : result Z :=
  let seq := seq_of tbl db in
  match max_rowid ids with
  | Some last =>
      if (MAX_ROWID <=? last) || (seq =? MAX_ROWID)
      then Raise (OperationalError "database or disk is full")
      else Ok (Z.max (last + 1) (seq + 1))
  | None =>
      if seq =? MAX_ROWID
      then Raise (OperationalError "database or disk is full")
      else Ok (Z.max 1 (seq + 1))
  end.

Definition choose_rowid (tbl : string) (given : option Z) (ids : list Z)
    (db : database) : result Z :=
  match given with
  | Some i => Ok i
  | None => new_rowid tbl ids db
  end.

(** Columns given to an INSERT or UPDATE.  [None] stands for a column left
    out, which then takes its DEFAULT (NULL where none is declared). *)
Record category_values := mk_category_values {
  cv_id : option Z;
  cv_name : option string;
  cv_color : option string;
  cv_sort_order : option Z;
  cv_created_at : option Z;
  cv_updated_at : option Z
}.

Record task_values := mk_task_values {
  tv_id : option Z;
  tv_title : option string;
  tv_description : option string;
  tv_due_at : option Z;
  tv_is_completed : option Z;
  tv_completed_at : option Z;
  tv_category_id : option Z;
  tv_priority : option Z;
  tv_created_at : option Z;
  tv_updated_at : option Z
}.

(** DEFAULT (strftime('%s','now')*1000), [now] being the engine's clock in
    seconds. *)
Definition default_timestamp (now : Z) : Z := now * 1000.

Definition with_categories (cs : list category) (db : database) : database :=
  {| categories := Some cs; tasks := tasks db;
     sqlite_sequence := sqlite_sequence db; objects := objects db |}.

Definition with_tasks (ts : list task) (db : database) : database :=
  {| categories := categories db; tasks := Some ts;
     sqlite_sequence := sqlite_sequence db; objects := objects db |}.

(** UNIQUE(name) under COLLATE NOCASE, and the primary key. *)
Definition category_conflict (i : Z) (name : string) (cs : list category) : bool :=
  existsb (fun c => (cat_id c =? i) || nocase_eq (cat_name c) name) cs.

(** INSERT [OR IGNORE] INTO categories.  With OR IGNORE a row that breaks
    NOT NULL or a uniqueness constraint is skipped without an error; the
    AUTOINCREMENT counter has moved by then and stays moved. *)
Definition insert_category (or_ignore : bool) (now : Z) (v : category_values)
    (db : database) : result database :=
  match categories db with
  | None => Raise (OperationalError "no such table: categories")
  | Some cs =>
      match choose_rowid "categories" (cv_id v) (cat_id <$> cs) db with
      | Raise e => Raise e
      | Ok i =>
          let skipped := set_seq "categories" i db in
          match cv_name v with
          | None =>
              if or_ignore then Ok skipped
              else Raise (IntegrityError "NOT NULL constraint failed: categories.name")
          | Some name =>
              if category_conflict i name cs
              then if or_ignore then Ok skipped
                   else Raise (IntegrityError "UNIQUE constraint failed")
              else
                let row :=
                  {| cat_id := i; cat_name := name; cat_color := cv_color v;
                     cat_sort_order := default 0 (cv_sort_order v);
                     cat_created_at := default (default_timestamp now) (cv_created_at v);
                     cat_updated_at := default (default_timestamp now) (cv_updated_at v) |} in
                Ok (with_categories (cs ++ [row]) skipped)
          end
      end
  end.

(** The three CHECK constraints of [tasks]. *)
Definition check_is_completed (t : task) : bool :=
  (is_completed t =? 0) || (is_completed t =? 1).

Definition check_completed_at (t : task) : bool :=
  match completed_at t with
  | None => true
  | Some _ => is_completed t =? 1
  end.

Definition check_due_at (t : task) : bool :=
  match due_at t with
  | None => true
  | Some d => 0 <=? d
  end.

Definition tasks_check (t : task) : bool :=
  check_is_completed t && check_completed_at t && check_due_at t.

(** FOREIGN KEY(category_id) REFERENCES categories(id), looked at only by a
    connection that has turned foreign keys on. *)
Definition fk_ok (foreign_keys : bool) (ref : option Z) (db : database) : bool :=
  match ref with
  | None => true
  | Some k =>
      negb foreign_keys
      || existsb (fun c => cat_id c =? k) (default [] (categories db))
  end.

Definition task_of_values (i : Z) (ttl : string) (now : Z) (v : task_values) : task :=
  {| task_id := i; title := ttl; description := tv_description v;
     due_at := tv_due_at v;
     is_completed := default 0 (tv_is_completed v);
     completed_at := tv_completed_at v;
     category_id := tv_category_id v;
     priority := default 0 (tv_priority v);
     task_created_at := default (default_timestamp now) (tv_created_at v);
     task_updated_at := default (default_timestamp now) (tv_updated_at v) |}.

(** INSERT INTO tasks. *)
Definition insert_task (foreign_keys : bool) (now : Z) (v : task_values)
    (db : database) : result database :=
  match tasks db with
  | None => Raise (OperationalError "no such table: tasks")
  | Some ts =>
      match choose_rowid "tasks" (tv_id v) (task_id <$> ts) db with
      | Raise e => Raise e
      | Ok i =>
          match tv_title v with
          | None => Raise (IntegrityError "NOT NULL constraint failed: tasks.title")
          | Some ttl =>
              let row := task_of_values i ttl now v in
              if negb (tasks_check row)
              then Raise (IntegrityError "CHECK constraint failed")
              else if existsb (fun t => task_id t =? i) ts
              then Raise (IntegrityError "UNIQUE constraint failed: tasks.id")
              else if negb (fk_ok foreign_keys (category_id row) db)
              then Raise (IntegrityError "FOREIGN KEY constraint failed")
              else Ok (with_tasks (ts ++ [row]) (set_seq "tasks" i db))
          end
      end
  end.

(** (SELECT id FROM categories WHERE name = ?): the comparison uses the
    collation of the column. *)
Definition select_category_id (name : string) (db : database) : option Z :=
  cat_id <$> find (fun c => nocase_eq (cat_name c) name) (default [] (categories db)).

(** DELETE FROM categories WHERE id = ?: ON DELETE SET NULL clears the
    reference of the tasks that point to the row. *)
Definition clear_reference (i : Z) (t : task) : task :=
  match category_id t with
  | Some k =>
      if k =? i
      then {| task_id := task_id t; title := title t; description := description t;
              due_at := due_at t; is_completed := is_completed t;
              completed_at := completed_at t; category_id := None;
              priority := priority t; task_created_at := task_created_at t;
              task_updated_at := task_updated_at t |}
      else t
  | None => t
  end.

Definition delete_category (foreign_keys : bool) (i : Z) (db : database)
    : result database :=
  match categories db with
  | None => Raise (OperationalError "no such table: categories")
  | Some cs =>
      let db' := with_categories (List.filter (fun c => negb (cat_id c =? i)) cs) db in
      match tasks db with
      | Some ts =>
          if foreign_keys && existsb (fun c => cat_id c =? i) cs
          then Ok (with_tasks (clear_reference i <$> ts) db')
          else Ok db'
      | None => Ok db'
      end
  end.

(** UPDATE categories SET id = ? WHERE id = ?: ON UPDATE CASCADE moves the
    reference of the tasks that point to the row. *)
Definition move_reference (old new : Z) (t : task) : task :=
  match category_id t with
  | Some k =>
      if k =? old
      then {| task_id := task_id t; title := title t; description := description t;
              due_at := due_at t; is_completed := is_completed t;
              completed_at := completed_at t; category_id := Some new;
              priority := priority t; task_created_at := task_created_at t;
              task_updated_at := task_updated_at t |}
      else t
  | None => t
  end.

Definition renumber (old new : Z) (c : category) : category :=
  if cat_id c =? old
  then {| cat_id := new; cat_name := cat_name c; cat_color := cat_color c;
          cat_sort_order := cat_sort_order c; cat_created_at := cat_created_at c;
          cat_updated_at := cat_updated_at c |}
  else c.

Definition update_category_id (foreign_keys : bool) (old new : Z) (db : database)
    : result database :=
  match categories db with
  | None => Raise (OperationalError "no such table: categories")
  | Some cs =>
      if negb (existsb (fun c => cat_id c =? old) cs) then Ok db
      else if negb (old =? new) && existsb (fun c => cat_id c =? new) cs
      then Raise (IntegrityError "UNIQUE constraint failed: categories.id")
      else
        let db' := with_categories (renumber old new <$> cs) db in
        match tasks db with
        | Some ts =>
            if foreign_keys
            then Ok (with_tasks (move_reference old new <$> ts) db')
            else Ok db'
        | None => Ok db'
        end
  end.

(** DELETE FROM tasks WHERE id = ?. *)
Definition delete_task (i : Z) (db : database) : result database :=
  match tasks db with
  | None => Raise (OperationalError "no such table: tasks")
  | Some ts => Ok (with_tasks (List.filter (fun t => negb (task_id t =? i)) ts) db)
  end.

(** UPDATE tasks SET (every column but id) WHERE id = ?: the new row goes
    through the same NOT NULL, CHECK and FOREIGN KEY constraints as an
    inserted one. *)
Definition update_task (foreign_keys : bool) (now : Z) (i : Z) (v : task_values)
    (db : database) : result database :=
  match tasks db with
  | None => Raise (OperationalError "no such table: tasks")
  | Some ts =>
      if negb (existsb (fun t => task_id t =? i) ts) then Ok db
      else
        match tv_title v with
        | None => Raise (IntegrityError "NOT NULL constraint failed: tasks.title")
        | Some ttl =>
            let row := task_of_values i ttl now v in
            if negb (tasks_check row)
            then Raise (IntegrityError "CHECK constraint failed")
            else if negb (fk_ok foreign_keys (category_id row) db)
            then Raise (IntegrityError "FOREIGN KEY constraint failed")
            else Ok (with_tasks
                       ((fun t => if task_id t =? i then row else t) <$> ts) db)
        end
  end.

(** CREATE TABLE IF NOT EXISTS: nothing happens when a table or a view of
    that name exists, an index of that name is an error.  Creating the
    first AUTOINCREMENT table creates [sqlite_sequence] with it. *)
Definition create_table_guard (name : string) (db : database)
    (create : database) : result database :=
  if has_object "table" name db || has_object "view" name db then Ok db
  else if has_object "index" name db
  then Raise (OperationalError ("there is already an index named " ++ name))
  else Ok create.

Definition create_table_categories (db : database) : result database :=
  create_table_guard "categories" db
    {| categories := Some []; tasks := tasks db;
       sqlite_sequence := Some (default ∅ (sqlite_sequence db));
       objects := objects db |}.

Definition create_table_tasks (db : database) : result database :=
  create_table_guard "tasks" db
    {| categories := categories db; tasks := Some [];
       sqlite_sequence := Some (default ∅ (sqlite_sequence db));
       objects := objects db |}.

(** CREATE INDEX IF NOT EXISTS name ON tbl(...). *)
Definition create_index (name tbl : string) (db : database) : result database :=
  if negb (has_object "table" tbl db)
  then Raise (OperationalError ("no such table: main." ++ tbl))
  else if has_object "table" name db || has_object "view" name db
  then Raise (OperationalError ("there is already a table named " ++ name))
  else if has_object "index" name db then Ok db
  else Ok {| categories := categories db; tasks := tasks db;
             sqlite_sequence := sqlite_sequence db;
             objects := objects db ++ [("index", name)] |}.

(** The statements the script sends, one constructor per SQL text. *)
Inductive statement :=
| PRAGMA_foreign_keys_ON
| CREATE_TABLE_categories
| CREATE_TABLE_tasks
| CREATE_INDEX (name tbl : string)
| INSERT_OR_IGNORE_category (name color : string) (sort_order : Z)
| INSERT_task (ttl descr category_name : string) (prio : Z)
| SELECT_COUNT_tasks
| SELECT_COUNT_categories
| SELECT_COUNT_user_tables.

(** INSERT, UPDATE, DELETE and REPLACE are the statements before which the
    [sqlite3] module opens a transaction when none is open. *)
Definition is_dml (s : statement) : bool :=
  match s with
  | INSERT_OR_IGNORE_category _ _ _ | INSERT_task _ _ _ _ => true
  | _ => false
  end.

Definition count_rows {A : Type} (tbl : string) (rows : option (list A))
    : result (option Z) :=
  match rows with
  | Some l => Ok (Some (Z.of_nat (List.length l)))
  | None => Raise (OperationalError ("no such table: " ++ tbl))
  end.

(** type='table' AND name NOT LIKE 'sqlite_%' *)
Definition user_table (o : string * string) : bool :=
  String.eqb (fst o) "table" && negb (like "sqlite_%" (snd o)).

Definition with_db {A : Type} (r : result database) (a : A) : result (database * A) :=
  match r with
  | Ok db => Ok (db, a)
  | Raise e => Raise e
  end.

Definition run_statement (foreign_keys : bool) (now : Z) (s : statement)
    (db : database) : result (database * option Z) :=
  match s with
  | PRAGMA_foreign_keys_ON => Ok (db, None)
  | CREATE_TABLE_categories => with_db (create_table_categories db) None
  | CREATE_TABLE_tasks => with_db (create_table_tasks db) None
  | CREATE_INDEX name tbl => with_db (create_index name tbl db) None
  | INSERT_OR_IGNORE_category name color sort_order =>
      with_db (insert_category true now
                 {| cv_id := None; cv_name := Some name; cv_color := Some color;
                    cv_sort_order := Some sort_order;
                    cv_created_at := None; cv_updated_at := None |} db) None
  | INSERT_task ttl descr category_name prio =>
      with_db (insert_task foreign_keys now
                 {| tv_id := None; tv_title := Some ttl; tv_description := Some descr;
                    tv_due_at := None; tv_is_completed := Some 0;
                    tv_completed_at := None;
                    tv_category_id := select_category_id category_name db;
                    tv_priority := Some prio;
                    tv_created_at := None; tv_updated_at := None |} db) None
  | SELECT_COUNT_tasks =>
      match count_rows "tasks" (tasks db) with
      | Ok n => Ok (db, n) | Raise e => Raise e end
  | SELECT_COUNT_categories =>
      match count_rows "categories" (categories db) with
      | Ok n => Ok (db, n) | Raise e => Raise e end
  | SELECT_COUNT_user_tables =>
      Ok (db, Some (Z.of_nat (List.length (List.filter user_table (sqlite_master db)))))
  end.

(** ** Paths (posixpath) *)

Fixpoint split (sep : ascii) (s : string) : list string :=
  match s with
  | EmptyString => [EmptyString]
  | String c s' =>
      if Ascii.eqb c sep then EmptyString :: split sep s'
      else match split sep s' with
           | [] => [String c EmptyString]
           | x :: xs => String c x :: xs
           end
  end.

Fixpoint join_with (sep : string) (l : list string) : string :=
  match l with
  | [] => ""
  | [x] => x
  | x :: rest => x ++ sep ++ join_with sep rest
  end.

Fixpoint endswith_slash (s : string) : bool :=
  match s with
  | EmptyString => false
  | String c EmptyString => Ascii.eqb c "/"
  | String _ s' => endswith_slash s'
  end.

Definition isabs (p : string) : bool := String.prefix "/" p.

Definition join (a b : string) : string :=
  if String.prefix "/" b then b
  else if String.eqb a "" || endswith_slash a then a ++ b
  else a ++ "/" ++ b.

Definition norm_step (initial_slashes : nat) (new_comps : list string)
    (comp : string) : list string :=
  if String.eqb comp "" || String.eqb comp "." then new_comps
  else if negb (String.eqb comp "..")
          || (Nat.eqb initial_slashes 0 && Nat.eqb (List.length new_comps) 0)
          || String.eqb (List.last new_comps "") ".."
  then new_comps ++ [comp]
  else List.removelast new_comps.

Definition normpath (path : string) : string :=
  if String.eqb path "" then "."
  else
    let initial_slashes : nat :=
      if String.prefix "/" path
      then if String.prefix "//" path && negb (String.prefix "///" path)
           then 2%nat else 1%nat
      else 0%nat in
    let comps := fold_left (norm_step initial_slashes) (split "/" path) [] in
    let body := join_with "/" comps in
    let res := match initial_slashes with
               | O => body
               | S O => "/" ++ body
               | _ => "//" ++ body
               end in
    if String.eqb res "" then "." else res.

Definition abspath (cwd path : string) : string :=
  normpath (if isabs path then path else join cwd path).

Definition dirname (p : string) : string :=
  join_with "/" (List.removelast (split "/" p)).

(** ** The world of one run *)

(** A connection of the [sqlite3] module: what it sees of the database
    (its own uncommitted changes included), whether it has a transaction
    open, and its foreign key setting, which is off until asked for. *)
Record connection := mk_connection {
  view : database;
  in_transaction : bool;
  foreign_keys : bool
}.

Inductive event :=
| Connected
| Executed (s : statement)
| Committed
| Closed
| Opened (path : string)
| Wrote (path : string)
| MadeDir (path : string).

(** [db_file] is the committed content of myapp.db (the empty database
    while the file does not exist), [files] and [dirs] the rest of the
    working directory, [calls] the number of calls made to the engine so
    far, and [log] what happened, latest first. *)
Record world := mk_world {
  db_exists : bool;
  db_file : database;
  conn : option connection;
  files : gmap string string;
  dirs : gset string;
  stdout : list string;
  calls : nat;
  log : list event
}.

(** What a run finds around it: a call to the engine that fails for a
    reason of its own (an I/O error, a full disk: [fault_at] numbers the
    call, [None] when there is none), the engine's clock at each call, and
    the working directory. *)
Record env := mk_env {
  fault_at : option nat;
  clock : nat -> Z;
  getcwd : string
}.

Definition with_conn (c : option connection) (w : world) : world :=
  {| db_exists := db_exists w; db_file := db_file w; conn := c;
     files := files w; dirs := dirs w; stdout := stdout w;
     calls := calls w; log := log w |}.

Definition with_db_file (d : database) (w : world) : world :=
  {| db_exists := db_exists w; db_file := d; conn := conn w;
     files := files w; dirs := dirs w; stdout := stdout w;
     calls := calls w; log := log w |}.

Definition with_files (f : gmap string string) (w : world) : world :=
  {| db_exists := db_exists w; db_file := db_file w; conn := conn w;
     files := f; dirs := dirs w; stdout := stdout w;
     calls := calls w; log := log w |}.

Definition with_dirs (d : gset string) (w : world) : world :=
  {| db_exists := db_exists w; db_file := db_file w; conn := conn w;
     files := files w; dirs := d; stdout := stdout w;
     calls := calls w; log := log w |}.

Definition logged (e : event) (w : world) : world :=
  {| db_exists := db_exists w; db_file := db_file w; conn := conn w;
     files := files w; dirs := dirs w; stdout := stdout w;
     calls := calls w; log := e :: log w |}.

(** The world a process starts in: no connection, nothing printed. *)
Definition boot (exists_ : bool) (d : database) (f : gmap string string)
    (ds : gset string) : world :=
  {| db_exists := exists_; db_file := d; conn := None; files := f; dirs := ds;
     stdout := []; calls := 0%nat; log := [] |}.

(** ** The monad of the script: state and exceptions *)

Definition M (A : Type) : Type := world -> result A * world.

Definition ret {A : Type} (a : A) : M A := fun w => (Ok a, w).

Definition bind {A B : Type} (m : M A) (k : A -> M B) : M B :=
  fun w =>
    match m w with
    | (Ok a, w') => k a w'
    | (Raise e, w') => (Raise e, w')
    end.

Definition raise {A : Type} (e : exn) : M A := fun w => (Raise e, w).

(** try: body finally: cleanup *)
Definition try_finally {A : Type} (body : M A) (cleanup : M unit) : M A :=
  fun w =>
    match body w with
    | (r, w') =>
        match cleanup w' with
        | (Ok _, w'') => (r, w'')
        | (Raise e, w'') => (Raise e, w'')
        end
    end.

Notation "'let!' x ':=' m 'in' k" := (bind m (fun x => k))
  (at level 10, x name, m at level 100, k at level 200, only parsing).
Notation "'let!' ' pat ':=' m 'in' k" :=
  (bind m (fun x => match x with pat => k end))
  (at level 10, pat pattern, m at level 100, k at level 200, only parsing).
Notation "m >> k" := (bind m (fun _ => k))
  (at level 90, right associativity, only parsing).

(** ** Python's side of the engine: the [sqlite3] module *)

(** One call to the engine: it is counted, and it is the one the
    environment fails when [fault_at] says so. *)
Definition engine_call (e : env) : M nat :=
  fun w =>
    let n := calls w in
    let w' := {| db_exists := db_exists w; db_file := db_file w; conn := conn w;
                 files := files w; dirs := dirs w; stdout := stdout w;
                 calls := S n; log := log w |} in
    if decide (fault_at e = Some n)
    then (Raise (OperationalError "disk I/O error"), w')
    else (Ok n, w').

(** sqlite3.connect(path): the file is created when missing.  The world
    holds the one database file that the script names, [DB_NAME]. *)
Definition sqlite3_connect (e : env) (db_path : string) : M unit :=
  let! _ := engine_call e in
  fun w =>
    (Ok (),
     logged Connected
       {| db_exists := true; db_file := db_file w;
          conn := Some {| view := db_file w; in_transaction := false;
                          foreign_keys := false |};
          files := files w; dirs := dirs w; stdout := stdout w;
          calls := calls w; log := log w |}).

(** conn.execute(sql) and cursor.execute(sql), with the first column of
    the first row of the answer.  A transaction is opened before an INSERT
    when none is open; any other statement is sent as it is, and outside
    of a transaction the engine commits it by itself.  A statement that
    fails changes nothing.  (When it is full the engine even rolls the
    whole transaction back; the script closes the connection on any
    exception, which drops the transaction either way.) *)
Definition execute (e : env) (s : statement) : M (option Z) :=
  fun w =>
    match conn w with
    | None => (Raise (ProgrammingError "Cannot operate on a closed database."), w)
    | Some c =>
        match engine_call e w with
        | (Raise x, w1) => (Raise x, w1)
        | (Ok n, w1) =>
            let tx := in_transaction c || is_dml s in
            let c1 := {| view := view c; in_transaction := tx;
                         foreign_keys := foreign_keys c |} in
            match run_statement (foreign_keys c) (clock e n) s (view c) with
            | Raise x => (Raise x, with_conn (Some c1) w1)
            | Ok (v, r) =>
                let fk := match s with
                          | PRAGMA_foreign_keys_ON =>
                              if tx then foreign_keys c else true
                          | _ => foreign_keys c
                          end in
                let c2 := {| view := v; in_transaction := tx; foreign_keys := fk |} in
                let w2 := with_conn (Some c2) w1 in
                (Ok r, logged (Executed s)
                         (if tx then w2 else with_db_file v w2))
            end
        end
    end.

(** cursor.fetchone()[0] *)
Definition fetchone_0 (r : option Z) : M Z :=
  match r with
  | Some n => ret n
  | None => raise (ProgrammingError "'NoneType' object is not subscriptable")
  end.

(** conn.commit() *)
Definition commit (e : env) : M unit :=
  fun w =>
    match conn w with
    | None => (Raise (ProgrammingError "Cannot operate on a closed database."), w)
    | Some c =>
        match engine_call e w with
        | (Raise x, w1) => (Raise x, w1)
        | (Ok _, w1) =>
            if in_transaction c
            then (Ok (),
                  logged Committed
                    (with_db_file (view c)
                       (with_conn (Some {| view := view c; in_transaction := false;
                                           foreign_keys := foreign_keys c |}) w1)))
            else (Ok (), logged Committed w1)
        end
    end.

(** conn.close(): what was not committed is gone. *)
Definition close : M unit :=
  fun w => (Ok (), logged Closed (with_conn None w)).

(** ** Python's side of the file system *)

Definition print (line : string) : M unit :=
  fun w =>
    (Ok (),
     {| db_exists := db_exists w; db_file := db_file w; conn := conn w;
        files := files w; dirs := dirs w; stdout := stdout w ++ [line];
        calls := calls w; log := log w |}).

(** open(path, "w") *)
Definition open_w (path : string) : M unit :=
  fun w =>
    if decide (path ∈ dirs w)
    then (Raise (OSError ("Is a directory: " ++ path)), w)
    else if negb (String.eqb (dirname path) "") && negb (bool_decide (dirname path ∈ dirs w))
    then (Raise (OSError ("No such file or directory: " ++ path)), w)
    else (Ok (), logged (Opened path) (with_files (<[path := ""]> (files w)) w)).

(** f.write(text) *)
Definition write (path text : string) : M unit :=
  fun w =>
    (Ok (),
     logged (Wrote path)
       (with_files (<[path := default "" (files w !! path) ++ text]> (files w)) w)).

(** os.makedirs(name, exist_ok=True) *)
Definition makedirs (name : string) : M unit :=
  fun w =>
    if decide (name ∈ dirs w) then (Ok (), w)
    else if decide (is_Some (files w !! name))
    then (Raise (OSError ("File exists: " ++ name)), w)
    else (Ok (), logged (MadeDir name) (with_dirs ({[name]} ∪ dirs w) w)).

(** os.path.exists(DB_NAME) *)
Definition path_exists_db : M bool := fun w => (Ok (db_exists w), w).

(** ** The script *)

Definition DB_NAME : string := "myapp.db".

(** The line feed and the double quote of the texts below. *)
Definition nl : string := String (ascii_of_N 10) "".
Definition dquote : string := String (ascii_of_N 34) "".

Fixpoint for_each {A : Type} (l : list A) (body : A -> M unit) : M unit :=
  match l with
  | [] => ret ()
  | x :: rest => body x >> for_each rest body
  end.

Definition _connect (e : env) (db_path : string) : M unit :=
  sqlite3_connect e db_path >>
  execute e PRAGMA_foreign_keys_ON >>
  ret ().

Definition _create_schema (e : env) : M unit :=
  execute e CREATE_TABLE_categories >>
  execute e CREATE_TABLE_tasks >>
  execute e (CREATE_INDEX "idx_tasks_category_id" "tasks") >>
  execute e (CREATE_INDEX "idx_tasks_due_at" "tasks") >>
  execute e (CREATE_INDEX "idx_tasks_is_completed" "tasks") >>
  execute e (CREATE_INDEX "idx_tasks_completed_at" "tasks") >>
  execute e (CREATE_INDEX "idx_tasks_created_at" "tasks") >>
  execute e (CREATE_INDEX "idx_categories_sort_order" "categories") >>
  ret ().

Definition seed_categories : list (string * string * Z) :=
  [ ("Personal", "#10B981", 0);
    ("Work", "#374151", 1);
    ("Shopping", "#9CA3AF", 2);
    ("Health", "#EF4444", 3) ].

(** The three starter tasks: title, description, the name of the
    category the subselect looks up, priority. *)
Definition welcome_task : statement :=
  INSERT_task "Welcome to Smart To-Do"
    "Tap a task to edit it. Use the + button to add more." "Personal" 0.

Definition planning_task : statement :=
  INSERT_task "Plan your week" "Add a few work tasks and set due dates." "Work" 1.

Definition shopping_task : statement :=
  INSERT_task "Buy groceries" "Milk, eggs, bread, fruit." "Shopping" 0.

Definition _seed_data (e : env) : M unit :=
  for_each seed_categories
    (fun '(name, color, sort_order) =>
       execute e (INSERT_OR_IGNORE_category name color sort_order) >> ret ()) >>
  let! r := execute e SELECT_COUNT_tasks in
  let! task_count := fetchone_0 r in
  if task_count =? 0 then
    execute e welcome_task >>
    execute e planning_task >>
    execute e shopping_task >>
    ret ()
  else ret ().

Definition connection_string (current_dir : string) : string :=
  "sqlite:///" ++ current_dir ++ "/" ++ DB_NAME.

Definition _write_connection_files (e : env) (db_path : string) : M unit :=
  let current_dir := getcwd e in
  open_w "db_connection.txt" >>
  write "db_connection.txt" ("# SQLite connection methods:" ++ nl) >>
  write "db_connection.txt" ("# Python: sqlite3.connect('" ++ DB_NAME ++ "')" ++ nl) >>
  write "db_connection.txt"
    ("# Connection string: " ++ connection_string current_dir ++ nl) >>
  write "db_connection.txt" ("# File path: " ++ current_dir ++ "/" ++ DB_NAME ++ nl) >>
  makedirs "db_visualizer" >>
  open_w "db_visualizer/sqlite.env" >>
  write "db_visualizer/sqlite.env"
    ("export SQLITE_DB=" ++ dquote ++ abspath current_dir db_path
       ++ dquote ++ nl).

(** The try block of [main]: schema, seed, commit, then the three counts. *)
Definition main_body (e : env) : M (Z * Z * Z) :=
  _create_schema e >>
  _seed_data e >>
  commit e >>
  let! r := execute e SELECT_COUNT_user_tables in
  let! table_count := fetchone_0 r in
  let! r := execute e SELECT_COUNT_categories in
  let! categories_count := fetchone_0 r in
  let! r := execute e SELECT_COUNT_tasks in
  let! tasks_count := fetchone_0 r in
  ret (table_count, categories_count, tasks_count).

Definition main (e : env) : M unit :=
  print "Starting SQLite setup..." >>
  let! db_exists := path_exists_db in
  (if db_exists : bool
   then print ("SQLite database already exists at " ++ DB_NAME)
   else print "Creating new SQLite database...") >>
  _connect e DB_NAME >>
  let! '(table_count, categories_count, tasks_count) :=
    try_finally (main_body e) close in
  _write_connection_files e DB_NAME >>
  print (nl ++ "SQLite setup complete!") >>
  print ("Database: " ++ DB_NAME) >>
  print ("Location: " ++ getcwd e ++ "/" ++ DB_NAME) >>
  print "" >>
  print "To use with Node.js viewer, run: source db_visualizer/sqlite.env" >>
  print (nl ++ "To connect to the database, use one of the following methods:") >>
  print ("1. Python: sqlite3.connect('" ++ DB_NAME ++ "')") >>
  print ("2. Connection string: sqlite:///" ++ getcwd e ++ "/" ++ DB_NAME) >>
  print ("3. Direct file access: " ++ getcwd e ++ "/" ++ DB_NAME) >>
  print "" >>
  print "Database statistics:" >>
  print ("  Tables: " ++ pretty table_count) >>
  print ("  Categories: " ++ pretty categories_count) >>
  print ("  Tasks: " ++ pretty tasks_count) >>
  print (nl ++ "Script completed successfully.").

(** * The vocabulary of the properties

    The predicates that the lemmas and theorems below are stated with. *)

(** ** Triples, frames and logs

    A triple has a normal and an exceptional postcondition; [keeps] and
    [logs] say what a computation leaves alone and what it adds to the log. *)

Definition triple {A : Type} (P : world -> Prop) (m : M A)
    (Q : A -> world -> Prop) (E : world -> Prop) : Prop :=
  forall w, P w ->
    match m w with
    | (Ok a, w') => Q a w'
    | (Raise _, w') => E w'
    end.

Definition keeps {A X : Type} (proj : world -> X) (m : M A) : Prop :=
  forall w r w', m w = (r, w') -> proj w' = proj w.

(** [logs P m]: what [m] adds to the log are events in [P]. *)
Definition logs {A : Type} (P : event -> Prop) (m : M A) : Prop :=
  forall w r w', m w = (r, w') ->
    exists evs, log w' = (evs ++ log w)%list /\ Forall P evs.

Definition anything (w : world) : Prop := True.

(** ** The statements of the script and what they make of a database *)

(** The statements of the script, by the function that sends them. *)
Definition schema_statements : list statement :=
  [ CREATE_TABLE_categories; CREATE_TABLE_tasks;
    CREATE_INDEX "idx_tasks_category_id" "tasks";
    CREATE_INDEX "idx_tasks_due_at" "tasks";
    CREATE_INDEX "idx_tasks_is_completed" "tasks";
    CREATE_INDEX "idx_tasks_completed_at" "tasks";
    CREATE_INDEX "idx_tasks_created_at" "tasks";
    CREATE_INDEX "idx_categories_sort_order" "categories" ].

Definition category_statements : list statement :=
  (fun '(name, color, sort_order) => INSERT_OR_IGNORE_category name color sort_order)
    <$> seed_categories.

Definition task_statements : list statement :=
  [ welcome_task; planning_task; shopping_task ].

(** The rows of a database: those of the two tables, a missing table
    having none, and the AUTOINCREMENT counters. *)
Definition rows_of (db : database)
    : list category * list task * gmap string Z :=
  (default [] (categories db), default [] (tasks db),
   default ∅ (sqlite_sequence db)).

Definition category_row (i : Z) (name : string) (now : Z) (v : category_values)
    : category :=
  {| cat_id := i; cat_name := name; cat_color := cv_color v;
     cat_sort_order := default 0 (cv_sort_order v);
     cat_created_at := default (default_timestamp now) (cv_created_at v);
     cat_updated_at := default (default_timestamp now) (cv_updated_at v) |}.

(** [step s d d']: statement [s] takes the database from [d] to [d'], at
    some time and under some foreign key setting. *)
Definition step (s : statement) (d d' : database) : Prop :=
  exists fk now r, run_statement fk now s d = Ok (d', r).

Fixpoint runs (l : list statement) (d d' : database) : Prop :=
  match l with
  | [] => d' = d
  | s :: l' => exists d1, step s d d1 /\ runs l' d1 d'
  end.

(** What [_seed_data] does to a database when all of it succeeds. *)
Definition seeded (d d' : database) : Prop :=
  exists d2,
    runs category_statements d d2 /\
    ((tasks d2 = Some [] /\ runs task_statements d2 d') \/
     (exists t ts, tasks d2 = Some (t :: ts) /\ d' = d2)).

(** What the try block of [main] has made of the database when it
    returns: the schema statements, then the seeding, all committed. *)
Definition initialized (d d' : database) : Prop :=
  exists d1, runs schema_statements d d1 /\ seeded d1 d'.

Definition name_taken (name : string) (cs : list category) : bool :=
  existsb (fun c => nocase_eq (cat_name c) name) cs.

Definition seeds_taken (cs : list category) : Prop :=
  forall name color sort_order,
    In (name, color, sort_order) seed_categories -> name_taken name cs = true.

(** [seed_rows seeds cs cs']: going through [seeds] in order, each name
    that is not taken yet gets a row at the end of the table. *)
Fixpoint seed_rows (seeds : list (string * string * Z)) (cs cs' : list category)
    : Prop :=
  match seeds with
  | [] => cs' = cs
  | (name, color, sort_order) :: rest =>
      exists cs1,
        ((name_taken name cs = true /\ cs1 = cs) \/
         (name_taken name cs = false /\
          exists i created updated,
            cs1 = (cs ++ [ {| cat_id := i; cat_name := name;
                              cat_color := Some color;
                              cat_sort_order := sort_order;
                              cat_created_at := created;
                              cat_updated_at := updated |} ])%list)) /\
        seed_rows rest cs1 cs'
  end.

(** The three starter tasks, as they stand in a table that was empty. *)
Definition starter_tasks (d : database) (ts : list task) : Prop :=
  exists i1 c1 u1 i2 c2 u2 i3 c3 u3,
    ts = [ {| task_id := i1; title := "Welcome to Smart To-Do";
              description := Some "Tap a task to edit it. Use the + button to add more.";
              due_at := None; is_completed := 0; completed_at := None;
              category_id := select_category_id "Personal" d; priority := 0;
              task_created_at := c1; task_updated_at := u1 |};
           {| task_id := i2; title := "Plan your week";
              description := Some "Add a few work tasks and set due dates.";
              due_at := None; is_completed := 0; completed_at := None;
              category_id := select_category_id "Work" d; priority := 1;
              task_created_at := c2; task_updated_at := u2 |};
           {| task_id := i3; title := "Buy groceries";
              description := Some "Milk, eggs, bread, fruit.";
              due_at := None; is_completed := 0; completed_at := None;
              category_id := select_category_id "Shopping" d; priority := 0;
              task_created_at := c3; task_updated_at := u3 |} ].

Fixpoint lower (s : string) : string :=
  match s with
  | EmptyString => EmptyString
  | String c s' => String (to_lower c) (lower s')
  end.

Definition named (name : string) (c : category) : bool :=
  nocase_eq (cat_name c) name.

(** ** Predicates on the world *)

(** [both I]: the committed file satisfies [I], and so does what an open
    connection sees. *)
Definition both (I : database -> Prop) (w : world) : Prop :=
  I (db_file w) /\ forall c, conn w = Some c -> I (view c).

Definition stmt_keeps (I : database -> Prop) (s : statement) : Prop :=
  forall fk now db db' r,
    I db -> run_statement fk now s db = Ok (db', r) -> I db'.

(** The rows of the two tables are exactly [cs] and [ts]. *)
Definition rows_are (cs : list category) (ts : list task) (db : database) : Prop :=
  categories db = Some cs /\ tasks db = Some ts.

Definition tasks_are (ts : list task) (db : database) : Prop := tasks db = Some ts.

(** The connection is open and sees a database in [R]; unless a
    transaction is open the file holds the same database. *)
Definition at_view (R : database -> Prop) (w : world) : Prop :=
  exists c, conn w = Some c /\ R (view c) /\
            (in_transaction c = false -> db_file w = view c).

(** [then_runs R l]: what [l] makes of a database in [R]. *)
Definition then_runs (R : database -> Prop) (l : list statement)
    : database -> Prop :=
  fun v' => exists v, R v /\ runs l v v'.

(** After the commit: the file holds what the connection sees. *)
Definition settled (R : database -> Prop) (w : world) : Prop :=
  exists c, conn w = Some c /\ R (view c) /\ db_file w = view c /\
            in_transaction c = false.

(** As long as nothing was committed, the file holds the rows it held at
    the start, and a connection outside of a transaction sees the file. *)
Definition uncommitted (d0 : database) (w : world) : Prop :=
  ~ In Committed (log w) ->
  rows_of (db_file w) = rows_of d0 /\
  forall c, conn w = Some c -> in_transaction c = false -> view c = db_file w.

(** ** Predicates on the log *)

Definition db_event (ev : event) : Prop :=
  match ev with
  | Connected | Executed _ | Committed => True
  | _ => False
  end.

Definition file_event (ev : event) : bool :=
  match ev with
  | Opened _ | Wrote _ | MadeDir _ => true
  | _ => false
  end.

Definition any_event (ev : event) : Prop := True.

(** In a log, latest first: every event of the file system has a [Closed]
    before it in time. *)
Fixpoint orderly (lg : list event) : Prop :=
  match lg with
  | [] => True
  | ev :: earlier => (file_event ev = true -> In Closed earlier) /\ orderly earlier
  end.

(** The handle is closed and the log says so. *)
Definition closed_orderly (w : world) : Prop :=
  conn w = None /\ In Closed (log w) /\ orderly (log w).

(** No handle was ever handed to [main]: [_connect] did not return. *)
Definition never_connected (w : world) : Prop :=
  Forall db_event (log w) /\ ~ In (Executed PRAGMA_foreign_keys_ON) (log w).

Definition at_exit (w : world) : Prop := closed_orderly w \/ never_connected w.

(** ** The application's side *)

(** What the application does to the database between two runs of the
    script: single statements against the two tables, each committed. *)
Inductive app_op :=
| AppInsertCategory (or_ignore : bool) (v : category_values)
| AppInsertTask (v : task_values)
| AppUpdateTask (i : Z) (v : task_values)
| AppDeleteTask (i : Z)
| AppDeleteCategory (i : Z)
| AppUpdateCategoryId (old new : Z).

Definition apply_op (foreign_keys : bool) (now : Z) (o : app_op) (db : database)
    : result database :=
  match o with
  | AppInsertCategory or_ignore v => insert_category or_ignore now v db
  | AppInsertTask v => insert_task foreign_keys now v db
  | AppUpdateTask i v => update_task foreign_keys now i v db
  | AppDeleteTask i => delete_task i db
  | AppDeleteCategory i => delete_category foreign_keys i db
  | AppUpdateCategoryId old new => update_category_id foreign_keys old new db
  end.

(** The database files that can come about: from no file at all, by runs
    of the script (however they end) and statements of the application. *)
Inductive reachable : database -> Prop :=
| reach_empty : reachable empty_database
| reach_main e ex d f ds r w' :
    reachable d -> main e (boot ex d f ds) = (r, w') -> reachable (db_file w')
| reach_app fk now o d d' :
    reachable d -> apply_op fk now o d = Ok d' -> reachable d'.

(** Every row of [tasks] passes the CHECK constraints of the table. *)
Definition checked (db : database) : Prop :=
  Forall (fun t => tasks_check t = true) (default [] (tasks db)).

(** ** The descriptor files *)

Definition unlines (ls : list string) : string :=
  fold_right (fun l acc => l ++ nl ++ acc)%string "" ls.

Definition text_lines (cwd : string) : list string :=
  [ "# SQLite connection methods:";
    "# Python: sqlite3.connect('myapp.db')";
    "# Connection string: sqlite:///" ++ cwd ++ "/myapp.db";
    "# File path: " ++ cwd ++ "/myapp.db" ]%string.

Definition env_line (cwd : string) : string :=
  ("export SQLITE_DB=" ++ dquote ++ abspath cwd "myapp.db" ++ dquote)%string.

Fixpoint has_char (c : ascii) (s : string) : bool :=
  match s with
  | EmptyString => false
  | String x s' => Ascii.eqb x c || has_char c s'
  end.

(** ** The schema, the log and the report of a run *)

(** Every object that [_create_schema] asks for is there. *)
Definition schema_complete (d : database) : Prop :=
  has_object "table" "categories" d = true /\
  has_object "table" "tasks" d = true /\
  forall name tbl,
    In (CREATE_INDEX name tbl) schema_statements ->
    has_object "index" name d = true.

(** No commit has taken place so far. *)
Definition nothing_committed (w : world) : Prop := ~ In Committed (log w).

Definition not_commit (ev : event) : Prop := ev <> Committed.

(** [throws C m]: the exceptions that [m] raises are in [C]. *)
Definition throws {A : Type} (C : exn -> Prop) (m : M A) : Prop :=
  forall w x w', m w = (Raise x, w') -> C x.

(** The exceptions of the [sqlite3] module, and those of the file system. *)
Definition engine_error (x : exn) : Prop :=
  match x with OSError _ => False | _ => True end.

Definition os_error (x : exn) : Prop :=
  match x with OSError _ => True | _ => False end.

(** The three numbers of the statistics, counted in a database. *)
Definition counts_of (db : database) : Z * Z * Z :=
  (Z.of_nat (List.length (List.filter user_table (sqlite_master db))),
   Z.of_nat (List.length (default [] (categories db))),
   Z.of_nat (List.length (default [] (tasks db)))).

(** The world after the lines [ls] have been printed. *)
Definition printed (ls : list string) (w : world) : world :=
  fold_left (fun w l => snd (print l w)) ls w.

(** What [main] prints before it connects, and what it prints once the
    descriptors are written. *)
Definition report_head (ex : bool) : list string :=
  [ "Starting SQLite setup...";
    if ex then "SQLite database already exists at " ++ DB_NAME
    else "Creating new SQLite database..." ]%string.

Definition report_tail (cwd : string) (n : Z * Z * Z) : list string :=
  let '(table_count, categories_count, tasks_count) := n in
  [ nl ++ "SQLite setup complete!";
    "Database: " ++ DB_NAME;
    "Location: " ++ cwd ++ "/" ++ DB_NAME;
    "";
    "To use with Node.js viewer, run: source db_visualizer/sqlite.env";
    nl ++ "To connect to the database, use one of the following methods:";
    "1. Python: sqlite3.connect('" ++ DB_NAME ++ "')";
    "2. Connection string: sqlite:///" ++ cwd ++ "/" ++ DB_NAME;
    "3. Direct file access: " ++ cwd ++ "/" ++ DB_NAME;
    "";
    "Database statistics:";
    "  Tables: " ++ pretty table_count;
    "  Categories: " ++ pretty categories_count;
    "  Tasks: " ++ pretty tasks_count;
    nl ++ "Script completed successfully." ]%string.

(** ** Keys and references *)

(** The primary keys of the two tables are unique, and so are the names
    of the categories once case is folded. *)
Definition keyed (db : database) : Prop :=
  List.NoDup (cat_id <$> default [] (categories db)) /\
  List.NoDup ((fun c => lower (cat_name c)) <$> default [] (categories db)) /\
  List.NoDup (task_id <$> default [] (tasks db)).

(** Every task that names a category names one that is there. *)
Definition referenced (db : database) : Prop :=
  forall t k,
    In t (default [] (tasks db)) -> category_id t = Some k ->
    In k (cat_id <$> default [] (categories db)).

(** ** What stays, and the counter of [categories] *)

(** [extends d0 d]: every schema object of [d0] is in [d], and the rows of
    the two tables of [d0] are the first rows of the tables of [d]. *)
Definition extends (d0 d : database) : Prop :=
  (forall o, In o (sqlite_master d0) -> In o (sqlite_master d)) /\
  (forall cs, categories d0 = Some cs ->
     exists extra, categories d = Some (cs ++ extra)%list) /\
  (forall ts, tasks d0 = Some ts ->
     exists extra, tasks d = Some (ts ++ extra)%list).

(** The largest id that [categories] holds or ever gave out. *)
Definition high_water (db : database) : Z :=
  match max_rowid (cat_id <$> default [] (categories db)) with
  | Some last => Z.max last (seq_of "categories" db)
  | None => Z.max 0 (seq_of "categories" db)
  end.

(** ** Time stamps *)

(** A row whose two time stamps were both left to their DEFAULT: they are
    equal, and a whole number of seconds counted in milliseconds. *)
Definition stamped_category (c : category) : Prop :=
  cat_created_at c = cat_updated_at c /\
  exists now, cat_created_at c = default_timestamp now.

Definition stamped_task (t : task) : Prop :=
  task_created_at t = task_updated_at t /\
  exists now, task_created_at t = default_timestamp now.

(** [stamps d0 d]: the rows that [d] has beyond those of [d0] are stamped. *)
Definition stamps (d0 d : database) : Prop :=
  (exists extra,
      default [] (categories d) = (default [] (categories d0) ++ extra)%list /\
      Forall stamped_category extra) /\
  (exists extra,
      default [] (tasks d) = (default [] (tasks d0) ++ extra)%list /\
      Forall stamped_task extra).

(** ** Sample environments and databases *)

(** An environment in which nothing fails. *)
Definition quiet (clk : nat -> Z) (cwd : string) : env :=
  {| fault_at := None; clock := clk; getcwd := cwd |}.

Definition sample_env : env :=
  quiet (fun n => 1700000000 + Z.of_nat n) "/app/database".

(** An empty directory: no database file, no descriptor files. *)
Definition fresh : world := boot false empty_database ∅ ∅.

(** The world in which the next process starts. *)
Definition next (w : world) : world := boot true (db_file w) (files w) (dirs w).

(** The engine fails while the second seed category is inserted. *)
Definition failing_env : env :=
  {| fault_at := Some 11%nat; clock := fun n => 1700000000 + Z.of_nat n;
     getcwd := "/app/database" |}.

Definition database_or (r : result database) (d : database) : database :=
  match r with Ok d' => d' | Raise _ => d end.

Definition seeded_once : database := db_file (snd (main sample_env fresh)).

(** A task the application marks as done without a completion time. *)
Definition done_without_time : task_values :=
  {| tv_id := None; tv_title := Some "Pay rent"; tv_description := None;
     tv_due_at := None; tv_is_completed := Some 1; tv_completed_at := None;
     tv_category_id := None; tv_priority := None;
     tv_created_at := None; tv_updated_at := None |}.

Definition with_done_task : database :=
  database_or (insert_task true 1700000100 done_without_time seeded_once)
              seeded_once.

(** A fourth task, inserted by hand between two runs. *)
Definition fourth_task : task_values :=
  {| tv_id := None; tv_title := Some "Call the plumber"; tv_description := None;
     tv_due_at := Some 1700003600000; tv_is_completed := None;
     tv_completed_at := None; tv_category_id := Some 1; tv_priority := Some 2;
     tv_created_at := None; tv_updated_at := None |}.

Definition with_fourth_task : database :=
  database_or (insert_task true 1700000200 fourth_task seeded_once) seeded_once.

(** A database in which the application has its own category
    "personal", in lower case, and no task yet. *)
Definition with_lower_case_category : database :=
  {| categories :=
       Some [ {| cat_id := 7; cat_name := "personal"; cat_color := None;
                 cat_sort_order := 5; cat_created_at := 1690000000000;
                 cat_updated_at := 1690000000000 |} ];
     tasks := Some [];
     sqlite_sequence := Some {[ "categories" := 7 ]};
     objects := [] |}.

(** A database whose AUTOINCREMENT counter for [categories] is used up,
    and which has no table [tasks] yet. *)
Definition full_counter : database :=
  {| categories :=
       Some [ {| cat_id := MAX_ROWID; cat_name := "Inbox"; cat_color := None;
                 cat_sort_order := 0; cat_created_at := 1690000000000;
                 cat_updated_at := 1690000000000 |} ];
     tasks := None;
     sqlite_sequence := Some {[ "categories" := MAX_ROWID ]};
     objects := [] |}.

(** A directory without a database, in which db_visualizer is a regular
    file. *)
Definition blocked : world :=
  boot false empty_database {[ "db_visualizer" := "not a directory" ]} ∅.

(** The first category deleted over a connection that has not turned
    foreign keys on. *)
Definition orphaned : database :=
  database_or (delete_category false 1 seeded_once) seeded_once.

(** The engine fails at its second call, the PRAGMA of [_connect]. *)
Definition pragma_fault_env : env :=
  {| fault_at := Some 1%nat; clock := fun n => 1700000000 + Z.of_nat n;
     getcwd := "/app/database" |}.

(** A database file from before the script: the two sample tables that
    the doc string of the script speaks of. *)
Definition legacy : database :=
  {| categories := None; tasks := None; sqlite_sequence := None;
     objects := [ ("table", "users"); ("table", "app_info") ] |}.

(** * Reasoning about the script *)

Ltac wsimpl :=
  unfold logged, with_conn, with_db_file, with_files, with_dirs in *; simpl in *.

(** ** The rules of the triples *)

Section Rules.
Context {A B : Type}.

Lemma triple_ret (P : world -> Prop) (a : A) Q E :
  (forall w, P w -> Q a w) -> triple P (ret a) Q E.
Proof. intros H w Hw. simpl. auto. Qed.

Lemma triple_raise (P : world -> Prop) (x : exn) (Q : A -> world -> Prop) E :
  (forall w, P w -> E w) -> triple P (raise x) Q E.
Proof. intros H w Hw. simpl. auto. Qed.

Lemma triple_bind (P : world -> Prop) (m : M A) (k : A -> M B) Q R E :
  triple P m Q E -> (forall a, triple (Q a) (k a) R E) ->
  triple P (bind m k) R E.
Proof.
  intros Hm Hk w Hw. unfold bind. specialize (Hm w Hw).
  destruct (m w) as [[a|x] w']; [|exact Hm].
  exact (Hk a w' Hm).
Qed.

Lemma triple_conseq (P P' : world -> Prop) (m : M A) (Q Q' : A -> world -> Prop)
    (E E' : world -> Prop) :
  triple P m Q E -> (forall w, P' w -> P w) ->
  (forall a w, Q a w -> Q' a w) -> (forall w, E w -> E' w) ->
  triple P' m Q' E'.
Proof.
  intros Hm HP HQ HE w Hw. specialize (Hm w (HP w Hw)).
  destruct (m w) as [[a|x] w']; auto.
Qed.

Lemma triple_finally (P : world -> Prop) (m : M A) (c : M unit)
    (Q Q' : A -> world -> Prop) (E E' : world -> Prop) :
  triple P m Q E ->
  (forall a, triple (Q a) c (fun _ => Q' a) E') ->
  triple E c (fun _ => E') E' ->
  triple P (try_finally m c) Q' E'.
Proof.
  intros Hm Hq He w Hw. unfold try_finally. specialize (Hm w Hw).
  destruct (m w) as [[a|x] w'].
  - specialize (Hq a w' Hm). destruct (c w') as [[[]|y] w'']; exact Hq.
  - specialize (He w' Hm). destruct (c w') as [[[]|y] w'']; exact He.
Qed.
End Rules.

Lemma triple_for_each {A : Type} (I : world -> Prop) (l : list A)
    (body : A -> M unit) :
  (forall x, In x l -> triple I (body x) (fun _ => I) I) ->
  triple I (for_each l body) (fun _ => I) I.
Proof.
  induction l as [|x l' IH]; intros H; simpl.
  - apply triple_ret; auto.
  - eapply triple_bind; [apply H; left; reflexivity|].
    intros u. apply IH. intros y Hy. apply H. right. exact Hy.
Qed.

(** A triple read backwards: what a run that ended tells about its start. *)
Lemma triple_run {A : Type} (P : world -> Prop) (m : M A) Q E w r w' :
  triple P m Q E -> P w -> m w = (r, w') ->
  match r with Ok a => Q a w' | Raise _ => E w' end.
Proof. intros H Hw Hm. specialize (H w Hw). rewrite Hm in H. exact H. Qed.

(** ** What one call does *)

Lemma engine_call_inv (e : env) (w : world) r w' :
  engine_call e w = (r, w') ->
  db_exists w' = db_exists w /\ db_file w' = db_file w /\ conn w' = conn w /\
  files w' = files w /\ dirs w' = dirs w /\ stdout w' = stdout w /\
  log w' = log w /\
  match r with
  | Ok n => n = calls w /\ fault_at e <> Some n
  | Raise _ => fault_at e = Some (calls w)
  end.
Proof.
  unfold engine_call. destruct (decide _) as [Hf|Hf]; intros [= <- <-]; simpl; auto 10.
Qed.

(** The one lemma about [execute]: it needs an open connection; when it
    fails the database is as before, in the file and in the connection;
    when it returns, the statement ran on the connection's view, and its
    effect reached the file if and only if no transaction is open. *)
Lemma execute_inv (e : env) (s : statement) (w : world) r w' :
  execute e s w = (r, w') ->
  files w' = files w /\ dirs w' = dirs w /\ stdout w' = stdout w /\
  db_exists w' = db_exists w /\
  match conn w with
  | None => conn w' = None /\ db_file w' = db_file w /\ log w' = log w
            /\ exists x, r = Raise x
  | Some c =>
      match r with
      | Raise _ =>
          db_file w' = db_file w /\ log w' = log w /\
          exists c', conn w' = Some c' /\ view c' = view c /\
                     foreign_keys c' = foreign_keys c /\
                     (in_transaction c' = in_transaction c \/
                      in_transaction c' = in_transaction c || is_dml s)
      | Ok a =>
          exists v n fk,
            run_statement (foreign_keys c) (clock e n) s (view c) = Ok (v, a) /\
            conn w' = Some {| view := v;
                              in_transaction := in_transaction c || is_dml s;
                              foreign_keys := fk |} /\
            db_file w' = (if in_transaction c || is_dml s then db_file w else v) /\
            log w' = Executed s :: log w
      end
  end.
Proof.
  unfold execute. destruct (conn w) as [c|] eqn:Hc.
  - destruct (engine_call e w) as [[n|x] w1] eqn:He;
      apply engine_call_inv in He; destruct He as (H1 & H2 & H3 & H4 & H5 & H6 & H7 & H8).
    + destruct (run_statement _ _ _ _) as [[v a]|x] eqn:Hr; intros [= <- <-].
      * destruct (in_transaction c || is_dml s) eqn:Htx; wsimpl;
          (repeat split; try assumption);
          exists v, n; eexists; (repeat split; try eassumption; try congruence).
      * wsimpl. repeat split; try assumption. eexists. repeat split; auto.
    + intros [= <- <-]. repeat split; try assumption.
      exists c. rewrite H3. auto.
  - intros [= <- <-]. repeat split; eauto.
Qed.

Lemma commit_inv (e : env) (w : world) r w' :
  commit e w = (r, w') ->
  files w' = files w /\ dirs w' = dirs w /\ stdout w' = stdout w /\
  db_exists w' = db_exists w /\
  match conn w with
  | None => conn w' = None /\ db_file w' = db_file w /\ log w' = log w
            /\ exists x, r = Raise x
  | Some c =>
      match r with
      | Raise _ => db_file w' = db_file w /\ log w' = log w /\ conn w' = Some c
      | Ok _ =>
          conn w' = Some {| view := view c; in_transaction := false;
                            foreign_keys := foreign_keys c |} /\
          db_file w' = (if in_transaction c then view c else db_file w) /\
          log w' = Committed :: log w
      end
  end.
Proof.
  unfold commit. destruct (conn w) as [c|] eqn:Hc.
  - destruct (engine_call e w) as [[n|x] w1] eqn:He;
      apply engine_call_inv in He; destruct He as (H1 & H2 & H3 & H4 & H5 & H6 & H7 & H8).
    + destruct (in_transaction c) eqn:Htx; intros [= <- <-]; wsimpl;
        repeat split; try assumption; try congruence.
      rewrite H3, Hc. destruct c; simpl in *; congruence.
    + intros [= <- <-]. repeat split; try assumption. congruence.
  - intros [= <- <-]. repeat split; eauto.
Qed.

(** ** Parts of the world a computation leaves alone *)

Lemma keeps_ret {A X : Type} (proj : world -> X) (a : A) : keeps proj (ret a).
Proof. intros w r w' [= <- <-]. reflexivity. Qed.

Lemma keeps_raise {A X : Type} (proj : world -> X) (x : exn) :
  keeps proj (@raise A x).
Proof. intros w r w' [= <- <-]. reflexivity. Qed.

Lemma keeps_bind {A B X : Type} (proj : world -> X) (m : M A) (k : A -> M B) :
  keeps proj m -> (forall a, keeps proj (k a)) -> keeps proj (bind m k).
Proof.
  intros Hm Hk w r w'. unfold bind.
  destruct (m w) as [[a|x] w1] eqn:E1; specialize (Hm _ _ _ E1).
  - intros E2. rewrite (Hk _ _ _ _ E2). exact Hm.
  - intros [= <- <-]. exact Hm.
Qed.

Lemma keeps_if {A X : Type} (proj : world -> X) (b : bool) (m1 m2 : M A) :
  keeps proj m1 -> keeps proj m2 -> keeps proj (if b then m1 else m2).
Proof. destruct b; auto. Qed.

Lemma keeps_fetchone_0 {X : Type} (proj : world -> X) r : keeps proj (fetchone_0 r).
Proof. destruct r; [apply keeps_ret | apply keeps_raise]. Qed.

Lemma keeps_triple {A X : Type} (proj : world -> X) (m : M A) (P : X -> Prop) :
  keeps proj m ->
  triple (fun w => P (proj w)) m (fun _ w => P (proj w)) (fun w => P (proj w)).
Proof.
  intros H w Hw. destruct (m w) as [[a|x] w'] eqn:E;
    rewrite (H _ _ _ E); exact Hw.
Qed.

Create HintDb keeps.
#[local] Hint Resolve keeps_ret keeps_raise keeps_bind keeps_if keeps_fetchone_0 : keeps.

Ltac keeps_prim f :=
  intros w r w'; unfold f;
  repeat match goal with
         | |- context [decide ?P] => destruct (decide P)
         | |- context [if ?b then _ else _] => destruct b
         end;
  intros [= <- <-]; reflexivity.

Lemma print_keeps_db s : keeps db_file (print s).
Proof. keeps_prim print. Qed.
Lemma print_keeps_conn s : keeps conn (print s).
Proof. keeps_prim print. Qed.
Lemma print_keeps_files s : keeps files (print s).
Proof. keeps_prim print. Qed.
Lemma print_keeps_dirs s : keeps dirs (print s).
Proof. keeps_prim print. Qed.
Lemma print_keeps_log s : keeps log (print s).
Proof. keeps_prim print. Qed.
Lemma open_w_keeps_db p : keeps db_file (open_w p).
Proof. keeps_prim open_w. Qed.
Lemma open_w_keeps_conn p : keeps conn (open_w p).
Proof. keeps_prim open_w. Qed.
Lemma write_keeps_db p s : keeps db_file (write p s).
Proof. keeps_prim write. Qed.
Lemma write_keeps_conn p s : keeps conn (write p s).
Proof. keeps_prim write. Qed.
Lemma makedirs_keeps_db p : keeps db_file (makedirs p).
Proof. keeps_prim makedirs. Qed.
Lemma makedirs_keeps_conn p : keeps conn (makedirs p).
Proof. keeps_prim makedirs. Qed.
Lemma path_exists_db_keeps {X : Type} (proj : world -> X) : keeps proj path_exists_db.
Proof. intros w r w' [= <- <-]. reflexivity. Qed.

#[local] Hint Resolve print_keeps_db print_keeps_conn print_keeps_files
  print_keeps_dirs print_keeps_log open_w_keeps_db open_w_keeps_conn
  write_keeps_db write_keeps_conn makedirs_keeps_db makedirs_keeps_conn
  path_exists_db_keeps : keeps.

Lemma _write_connection_files_keeps_db e p : keeps db_file (_write_connection_files e p).
Proof. unfold _write_connection_files. auto 20 with keeps. Qed.

Lemma _write_connection_files_keeps_conn e p : keeps conn (_write_connection_files e p).
Proof. unfold _write_connection_files. auto 20 with keeps. Qed.

#[local] Hint Resolve _write_connection_files_keeps_db
  _write_connection_files_keeps_conn : keeps.

(** ** Invariants of the database, whatever the outcome *)

Lemma both_neutral {A : Type} (I : database -> Prop) (m : M A) :
  keeps db_file m -> keeps conn m ->
  triple (both I) m (fun _ => both I) (both I).
Proof.
  intros H1 H2 w [Hd Hc]. destruct (m w) as [[a|x] w'] eqn:E;
    (split; [rewrite (H1 _ _ _ E) | rewrite (H2 _ _ _ E)]; assumption).
Qed.

Lemma execute_both (I : database -> Prop) (R : option Z -> Prop) e s :
  (forall fk now db db' r,
      I db -> run_statement fk now s db = Ok (db', r) -> I db' /\ R r) ->
  triple (both I) (execute e s) (fun r w => both I w /\ R r) (both I).
Proof.
  intros Hs w [Hd Hc].
  destruct (execute e s w) as [r w'] eqn:E. apply execute_inv in E.
  destruct E as (_ & _ & _ & _ & E). destruct (conn w) as [c|] eqn:Hcw.
  - specialize (Hc c eq_refl). destruct r as [a|x].
    + destruct E as (v & n & fk & Hr & Hc' & Hf & _).
      destruct (Hs _ _ _ _ _ Hc Hr) as [Hv HR].
      split; [split|exact HR].
      * rewrite Hf. destruct (_ || _); assumption.
      * intros c'. rewrite Hc'. intros [= <-]. exact Hv.
    + destruct E as (Hf & _ & c' & Hc' & Hv & _). split.
      * rewrite Hf. exact Hd.
      * intros c''. rewrite Hc'. intros [= <-]. rewrite Hv. exact Hc.
  - destruct E as (Hc' & Hf & _ & x & ->). split.
    + rewrite Hf. exact Hd.
    + intros c. rewrite Hc'. discriminate.
Qed.

Lemma execute_both_keeps (I : database -> Prop) e s :
  stmt_keeps I s ->
  triple (both I) (execute e s) (fun _ => both I) (both I).
Proof.
  intros Hs. eapply triple_conseq.
  - apply (execute_both I (fun _ => True)).
    intros fk now db db' r Hdb Hr. split; [eapply Hs; eassumption | exact Logic.I].
  - auto.
  - intros a w [H _]. exact H.
  - auto.
Qed.

Lemma commit_both (I : database -> Prop) e :
  triple (both I) (commit e) (fun _ => both I) (both I).
Proof.
  intros w [Hd Hc].
  destruct (commit e w) as [r w'] eqn:E. apply commit_inv in E.
  destruct E as (_ & _ & _ & _ & E). destruct (conn w) as [c|] eqn:Hcw.
  - specialize (Hc c eq_refl). destruct r as [a|x].
    + destruct E as (Hc' & Hf & _). split.
      * rewrite Hf. destruct (in_transaction c); assumption.
      * intros c'. rewrite Hc'. intros [= <-]. exact Hc.
    + destruct E as (Hf & _ & Hc'). split.
      * rewrite Hf. exact Hd.
      * intros c'. rewrite Hc'. intros [= <-]. exact Hc.
  - destruct E as (Hc' & Hf & _ & x & ->). split.
    + rewrite Hf. exact Hd.
    + intros c. rewrite Hc'. discriminate.
Qed.

Lemma close_both (I : database -> Prop) :
  triple (both I) close (fun _ => both I) (both I).
Proof. intros w [Hd Hc]. simpl. split; [exact Hd | discriminate]. Qed.

Lemma sqlite3_connect_both (I : database -> Prop) e p :
  triple (both I) (sqlite3_connect e p) (fun _ => both I) (both I).
Proof.
  intros w [Hd Hc]. unfold sqlite3_connect, bind.
  destruct (engine_call e w) as [[n|x] w1] eqn:E; apply engine_call_inv in E;
    destruct E as (_ & E2 & E3 & _).
  - simpl. split; [rewrite E2; exact Hd|]. intros c [= <-]. simpl. rewrite E2. exact Hd.
  - split; [rewrite E2; exact Hd|]. rewrite E3. exact Hc.
Qed.

Lemma run_readonly fk now s db db' r :
  s = PRAGMA_foreign_keys_ON \/ s = SELECT_COUNT_tasks \/
  s = SELECT_COUNT_categories \/ s = SELECT_COUNT_user_tables ->
  run_statement fk now s db = Ok (db', r) -> db' = db.
Proof.
  intros [->|[->|[->| ->]]]; simpl.
  - intros [= <- _]. reflexivity.
  - destruct (tasks db); simpl; intros [= <- _]. reflexivity.
  - destruct (categories db); simpl; intros [= <- _]. reflexivity.
  - intros [= <- _]. reflexivity.
Qed.

Lemma stmt_keeps_readonly (I : database -> Prop) s :
  s = PRAGMA_foreign_keys_ON \/ s = SELECT_COUNT_tasks \/
  s = SELECT_COUNT_categories \/ s = SELECT_COUNT_user_tables ->
  stmt_keeps I s.
Proof.
  intros Hs fk now db db' r Hdb Hr. rewrite (run_readonly _ _ _ _ _ _ Hs Hr). exact Hdb.
Qed.

Lemma count_tasks_result fk now db db' r :
  run_statement fk now SELECT_COUNT_tasks db = Ok (db', r) ->
  db' = db /\ exists ts, tasks db = Some ts /\ r = Some (Z.of_nat (List.length ts)).
Proof.
  simpl. destruct (tasks db) as [ts|]; simpl; [|discriminate].
  intros [= <- <-]. eauto.
Qed.

Lemma triple_pure {A : Type} (phi : Prop) (P : world -> Prop) (m : M A) Q E :
  (phi -> triple P m Q E) -> triple (fun w => P w /\ phi) m Q E.
Proof. intros H w [Hw Hphi]. exact (H Hphi w Hw). Qed.

Section Invariant.
Variable I : database -> Prop.
Variable e : env.
Hypothesis schema_keeps : forall s, In s schema_statements -> stmt_keeps I s.
Hypothesis category_keeps : forall s, In s category_statements -> stmt_keeps I s.
(** The starter tasks need to keep [I] only if [I] allows an empty
    [tasks] table at all. *)
Hypothesis task_keeps :
  (exists db, I db /\ tasks db = Some []) ->
  forall s, In s task_statements -> stmt_keeps I s.

Local Ltac exec_step Hk :=
  eapply triple_bind;
  [ apply execute_both_keeps; first [ apply Hk; simpl; tauto
                                    | apply stmt_keeps_readonly; tauto ]
  | intros ? ].

Lemma _connect_both p : triple (both I) (_connect e p) (fun _ => both I) (both I).
Proof.
  unfold _connect. eapply triple_bind; [apply sqlite3_connect_both | intros ?].
  exec_step schema_keeps. apply triple_ret; intros ? H; exact H.
Qed.

Lemma _create_schema_both : triple (both I) (_create_schema e) (fun _ => both I) (both I).
Proof.
  unfold _create_schema. repeat exec_step schema_keeps. apply triple_ret; intros ? H; exact H.
Qed.

Lemma _seed_data_both : triple (both I) (_seed_data e) (fun _ => both I) (both I).
Proof.
  unfold _seed_data. eapply triple_bind.
  - apply triple_for_each. intros [[name color] sort_order] Hin.
    eapply triple_bind; [|intros ?; apply triple_ret; intros ? H; exact H].
    apply execute_both_keeps, category_keeps. unfold category_statements.
    apply (in_map (fun '(name, color, sort_order) =>
                     INSERT_OR_IGNORE_category name color sort_order) _ _ Hin).
  - intros u. eapply triple_bind.
    + apply (execute_both I (fun r => r = Some 0 ->
               forall s, In s task_statements -> stmt_keeps I s)).
      intros fk now db db' r Hdb Hr.
      apply count_tasks_result in Hr. destruct Hr as (-> & ts & Hts & ->).
      split; [exact Hdb|]. intros [= H0]. apply task_keeps.
      exists db. split; [exact Hdb|]. destruct ts; [exact Hts | discriminate].
    + intros r. apply triple_pure. intros Hr.
      destruct r as [n|]; simpl.
      * unfold bind at 1. unfold ret at 1.
        change (triple (both I)
          (if n =? 0
           then execute e welcome_task >> execute e planning_task >>
                execute e shopping_task >> ret ()
           else ret ()) (fun _ => both I) (both I)).
        destruct (n =? 0) eqn:Hn.
        -- apply Z.eqb_eq in Hn. subst n. specialize (Hr eq_refl).
           repeat exec_step Hr. apply triple_ret; intros ? H; exact H.
        -- apply triple_ret; intros ? H; exact H.
      * intros w Hw. exact Hw.
Qed.

Lemma main_body_both : triple (both I) (main_body e) (fun _ => both I) (both I).
Proof.
  unfold main_body.
  eapply triple_bind; [apply _create_schema_both | intros ?].
  eapply triple_bind; [apply _seed_data_both | intros ?].
  eapply triple_bind; [apply commit_both | intros ?].
  repeat (exec_step schema_keeps;
          eapply triple_bind;
          [ apply both_neutral; auto with keeps | intros ? ]).
  apply triple_ret; intros ? H; exact H.
Qed.

(** Whatever [main] does and however it ends, an invariant that each of
    its statements keeps holds of the file afterwards. *)
Lemma main_both : triple (both I) (main e) (fun _ => both I) (both I).
Proof.
  unfold main.
  eapply triple_bind; [apply both_neutral; auto with keeps | intros ?].
  eapply triple_bind; [apply both_neutral; auto with keeps | intros b].
  eapply triple_bind; [destruct b; apply both_neutral; auto with keeps | intros ?].
  eapply triple_bind; [apply _connect_both | intros ?].
  eapply triple_bind.
  - eapply triple_finally; [apply main_body_both | intros ?; apply close_both
                           | apply close_both].
  - intros [[tc cc] kc]. apply both_neutral; auto 30 with keeps.
Qed.
End Invariant.

(** ** What each statement changes *)

Lemma has_table_categories db :
  present (categories db) = true -> has_object "table" "categories" db = true.
Proof. unfold has_object, sqlite_master. intros ->. reflexivity. Qed.

Lemma has_table_tasks db :
  present (tasks db) = true -> has_object "table" "tasks" db = true.
Proof.
  unfold has_object, sqlite_master. intros ->.
  rewrite !existsb_app. simpl. rewrite !orb_true_r. reflexivity.
Qed.

Lemma create_table_guard_inv name db create db' :
  create_table_guard name db create = Ok db' ->
  db' = db \/ (has_object "table" name db = false /\ db' = create).
Proof.
  unfold create_table_guard. destruct (has_object "table" name db); simpl.
  - intros [= <-]. auto.
  - destruct (has_object "view" name db); simpl; [intros [= <-]; auto|].
    destruct (has_object "index" name db); [discriminate|]. intros [= <-]. auto.
Qed.

Lemma set_seq_categories tbl v db : categories (set_seq tbl v db) = categories db.
Proof. unfold set_seq. destruct (_ <? _); reflexivity. Qed.

Lemma set_seq_tasks tbl v db : tasks (set_seq tbl v db) = tasks db.
Proof. unfold set_seq. destruct (_ <? _); reflexivity. Qed.

Lemma set_seq_objects tbl v db : objects (set_seq tbl v db) = objects db.
Proof. unfold set_seq. destruct (_ <? _); reflexivity. Qed.

Lemma create_table_categories_inv db db' :
  create_table_categories db = Ok db' ->
  rows_of db' = rows_of db /\ tasks db' = tasks db /\
  (present (categories db) = true -> db' = db) /\
  (categories db' = categories db \/
   (categories db = None /\ categories db' = Some [])).
Proof.
  intros H. apply create_table_guard_inv in H. destruct H as [->|[Hn ->]].
  - auto.
  - unfold rows_of. simpl. destruct (categories db) eqn:E.
    + rewrite has_table_categories in Hn; [discriminate | rewrite E; reflexivity].
    + repeat split; auto. discriminate.
Qed.

Lemma create_table_tasks_inv db db' :
  create_table_tasks db = Ok db' ->
  rows_of db' = rows_of db /\ categories db' = categories db /\
  (present (tasks db) = true -> db' = db) /\
  (tasks db' = tasks db \/ (tasks db = None /\ tasks db' = Some [])).
Proof.
  intros H. apply create_table_guard_inv in H. destruct H as [->|[Hn ->]].
  - auto.
  - unfold rows_of. simpl. destruct (tasks db) eqn:E.
    + rewrite has_table_tasks in Hn; [discriminate | rewrite E; reflexivity].
    + repeat split; auto. discriminate.
Qed.

Lemma create_index_inv name tbl db db' :
  create_index name tbl db = Ok db' ->
  categories db' = categories db /\ tasks db' = tasks db /\
  sqlite_sequence db' = sqlite_sequence db.
Proof.
  unfold create_index.
  repeat match goal with
         | |- context [if ?b then _ else _] => destruct b
         end; try discriminate; intros [= <-]; auto.
Qed.

Lemma with_db_inv {A : Type} (r : result database) (a : A) db' a' :
  with_db r a = Ok (db', a') -> r = Ok db' /\ a' = a.
Proof. destruct r; simpl; [intros [= <- <-]; auto | discriminate]. Qed.

(** A statement that is no INSERT leaves every row where it is. *)
Lemma run_not_dml fk now s db db' r :
  is_dml s = false -> run_statement fk now s db = Ok (db', r) ->
  rows_of db' = rows_of db /\
  (present (categories db) = true -> categories db' = categories db) /\
  (present (tasks db) = true -> tasks db' = tasks db).
Proof.
  destruct s; intros Hd H; try discriminate Hd.
  - apply run_readonly in H; [subst; auto | tauto].
  - apply with_db_inv in H. destruct H as [H _].
    apply create_table_categories_inv in H. destruct H as (H1 & H2 & H3 & _).
    repeat split; auto. intros Hp. rewrite (H3 Hp). reflexivity.
  - apply with_db_inv in H. destruct H as [H _].
    apply create_table_tasks_inv in H. destruct H as (H1 & H2 & H3 & _).
    repeat split; auto. intros Hp. rewrite (H3 Hp). reflexivity.
  - apply with_db_inv in H. destruct H as [H _].
    apply create_index_inv in H. destruct H as (H1 & H2 & H3).
    unfold rows_of. rewrite H1, H2, H3. auto.
  - apply run_readonly in H; [subst; auto | tauto].
  - apply run_readonly in H; [subst; auto | tauto].
  - apply run_readonly in H; [subst; auto | tauto].
Qed.

Lemma schema_not_dml s : In s schema_statements -> is_dml s = false.
Proof. simpl. intuition (subst; reflexivity). Qed.

Lemma insert_category_inv oi now v db db' :
  insert_category oi now v db = Ok db' ->
  exists cs,
    categories db = Some cs /\ tasks db' = tasks db /\ objects db' = objects db /\
    (categories db' = Some cs \/
     exists i name,
       cv_name v = Some name /\ category_conflict i name cs = false /\
       categories db' = Some (cs ++ [category_row i name now v])%list).
Proof.
  unfold insert_category. destruct (categories db) as [cs|] eqn:Hcs; [|discriminate].
  destruct (choose_rowid _ _ _ _) as [i|x]; [|discriminate].
  intros H. exists cs. split; [reflexivity|].
  destruct (cv_name v) as [name|].
  - destruct (category_conflict i name cs) eqn:Hcf.
    + destruct oi; [|discriminate]. injection H as <-.
      rewrite set_seq_categories, set_seq_tasks, set_seq_objects. auto.
    + injection H as <-. simpl. rewrite set_seq_tasks, set_seq_objects.
      repeat split; auto. right. exists i, name. auto.
  - destruct oi; [|discriminate]. injection H as <-.
    rewrite set_seq_categories, set_seq_tasks, set_seq_objects. auto.
Qed.

Lemma insert_task_inv fk now v db db' :
  insert_task fk now v db = Ok db' ->
  exists ts i ttl,
    tasks db = Some ts /\ tv_title v = Some ttl /\
    categories db' = categories db /\ objects db' = objects db /\
    tasks db' = Some (ts ++ [task_of_values i ttl now v])%list /\
    tasks_check (task_of_values i ttl now v) = true /\
    fk_ok fk (tv_category_id v) db = true.
Proof.
  unfold insert_task. destruct (tasks db) as [ts|] eqn:Hts; [|discriminate].
  destruct (choose_rowid _ _ _ _) as [i|x]; [|discriminate].
  destruct (tv_title v) as [ttl|]; [|discriminate].
  destruct (tasks_check _) eqn:Hck; [|discriminate]. simpl.
  destruct (existsb _ ts); [discriminate|].
  destruct (fk_ok _ _ _) eqn:Hfk; [|discriminate]. simpl.
  intros [= <-]. exists ts, i, ttl. simpl.
  rewrite set_seq_categories, set_seq_objects. auto 10.
Qed.

(** ** What a run that succeeds has done *)

Lemma runs_snoc l s d d' :
  runs (l ++ [s]) d d' <-> exists d1, runs l d d1 /\ step s d1 d'.
Proof.
  revert d. induction l as [|s0 l IH]; intros d; simpl.
  - split.
    + intros (d1 & Hs & ->). eauto.
    + intros (d1 & -> & Hs). eauto.
  - split.
    + intros (d1 & Hs & Hr). apply IH in Hr. destruct Hr as (d2 & Hr & Hs').
      exists d2. split; [exists d1; auto | exact Hs'].
    + intros (d2 & (d1 & Hs & Hr) & Hs'). exists d1. split; [exact Hs|].
      apply IH. eauto.
Qed.

Lemma execute_at_view (R : database -> Prop) (R' : option Z -> database -> Prop) e s :
  (forall fk now v v' r, R v -> run_statement fk now s v = Ok (v', r) -> R' r v') ->
  triple (at_view R) (execute e s) (fun r => at_view (R' r)) anything.
Proof.
  intros Hs w (c & Hc & Hv & Hco).
  destruct (execute e s w) as [r w'] eqn:E. apply execute_inv in E.
  destruct E as (_ & _ & _ & _ & E). rewrite Hc in E.
  destruct r as [a|x]; [|exact Logic.I].
  destruct E as (v & n & fk & Hr & Hc' & Hf & _).
  eexists. split; [exact Hc'|]. simpl. split; [eapply Hs; eassumption|].
  intros Htx. rewrite Htx in Hf. exact Hf.
Qed.

Lemma at_view_mono (R R' : database -> Prop) w :
  (forall v, R v -> R' v) -> at_view R w -> at_view R' w.
Proof. intros H (c & Hc & Hv & Hco). exists c. auto. Qed.

Lemma execute_then (R : database -> Prop) l e s :
  triple (at_view (then_runs R l)) (execute e s)
         (fun _ => at_view (then_runs R (l ++ [s]))) anything.
Proof.
  apply execute_at_view. intros fk now v v' r (v0 & H0 & Hv) Hr.
  exists v0. split; [exact H0|].
  apply runs_snoc. exists v. split; [exact Hv|]. exists fk, now, r. exact Hr.
Qed.

Lemma then_runs_nil (R : database -> Prop) w :
  at_view R w -> at_view (then_runs R []) w.
Proof. apply at_view_mono. intros v Hv. exists v. simpl. auto. Qed.

Lemma triple_anything {A : Type} (P : world -> Prop) (m : M A) :
  triple P m (fun _ => anything) anything.
Proof. intros w _. destruct (m w) as [[a|x] w']; exact Logic.I. Qed.

Ltac then_step :=
  eapply triple_bind; [apply execute_then | intros ?].

Lemma triple_then_ret {A : Type} (P : world -> Prop) (m : M A) (Q E : world -> Prop) :
  triple P m (fun _ => Q) E -> triple P (m >> ret ()) (fun _ => Q) E.
Proof.
  intros H. eapply triple_bind; [exact H|].
  intros a. apply triple_ret. auto.
Qed.

Lemma _create_schema_runs (R : database -> Prop) e :
  triple (at_view R) (_create_schema e)
         (fun _ => at_view (then_runs R schema_statements)) anything.
Proof.
  eapply triple_conseq with (P := at_view (then_runs R [])) (E := anything);
    [ | apply then_runs_nil | intros a w H; exact H | intros w H; exact H ].
  unfold _create_schema. repeat then_step.
  apply triple_ret. intros w H. exact H.
Qed.

Lemma _seed_data_runs (R : database -> Prop) e :
  triple (at_view R) (_seed_data e)
         (fun _ => at_view (fun v' => exists v, R v /\ seeded v v')) anything.
Proof.
  eapply triple_conseq with (P := at_view (then_runs R []))
                            (Q := fun _ => at_view (fun v' => exists v, R v /\ seeded v v'))
                            (E := anything);
    [ | apply then_runs_nil | intros a w H; exact H | intros w H; exact H ].
  unfold _seed_data. simpl for_each.
  eapply triple_bind with (Q := fun _ => at_view (then_runs R category_statements)).
  { repeat (eapply triple_bind;
            [ apply triple_then_ret, execute_then | intros ? ]).
    apply triple_ret. intros w H. exact H. }
  intros u.
  eapply triple_bind.
  { apply (execute_at_view _
             (fun r v => then_runs R category_statements v /\
                         exists ts, tasks v = Some ts /\
                                    r = Some (Z.of_nat (List.length ts)))).
    intros fk now v v' r Hv Hr. apply count_tasks_result in Hr.
    destruct Hr as (-> & ts & Hts & ->). split; [exact Hv | eauto]. }
  intros r.
  eapply triple_bind with
    (Q := fun n => at_view (fun v => then_runs R category_statements v /\
                      exists ts, tasks v = Some ts /\
                                 Some n = Some (Z.of_nat (List.length ts)))).
  { destruct r as [n|]; unfold fetchone_0.
    - apply triple_ret. intros w H. exact H.
    - apply triple_raise. intros w H. exact Logic.I. }
  intros n.
  destruct (n =? 0) eqn:Hn.
  - apply Z.eqb_eq in Hn. subst n.
    eapply triple_conseq with
      (P := at_view (then_runs
                       (fun v => then_runs R category_statements v /\
                                 tasks v = Some []) []))
      (Q := fun _ => at_view (then_runs
                       (fun v => then_runs R category_statements v /\
                                 tasks v = Some []) task_statements))
      (E := anything);
      [ | | | intros w H; exact H ].
    + repeat then_step. apply triple_ret. intros w H. exact H.
    + intros w H. apply then_runs_nil. revert H. apply at_view_mono.
      intros v (Hv & ts & Hts & [= Hlen]). split; [exact Hv|].
      destruct ts; [exact Hts | discriminate].
    + intros _ w. apply at_view_mono.
      intros v' (v2 & ((v & Hv & Hcat) & Hts) & Hrun).
      exists v. split; [exact Hv|]. exists v2. split; [exact Hcat|].
      left. auto.
  - apply triple_ret. intros w. apply at_view_mono.
    intros v2 ((v & Hv & Hcat) & ts & Hts & [= Hlen]).
    exists v. split; [exact Hv|]. exists v2. split; [exact Hcat|].
    right. destruct ts as [|t ts]; [|eauto].
    simpl in Hlen. subst n. discriminate.
Qed.

Lemma commit_settled (R : database -> Prop) e :
  triple (at_view R) (commit e) (fun _ => settled R) anything.
Proof.
  intros w (c & Hc & Hv & Hco).
  destruct (commit e w) as [r w'] eqn:E. apply commit_inv in E.
  destruct E as (_ & _ & _ & _ & E). rewrite Hc in E.
  destruct r as [a|x]; [|exact Logic.I].
  destruct E as (Hc' & Hf & _). eexists. split; [exact Hc'|]. simpl.
  repeat split; auto. rewrite Hf. destruct (in_transaction c); auto.
Qed.

Lemma execute_settled (R : database -> Prop) e s :
  s = PRAGMA_foreign_keys_ON \/ s = SELECT_COUNT_tasks \/
  s = SELECT_COUNT_categories \/ s = SELECT_COUNT_user_tables ->
  triple (settled R) (execute e s) (fun _ => settled R) anything.
Proof.
  intros Hs w (c & Hc & Hv & Hf & Htx).
  destruct (execute e s w) as [r w'] eqn:E. apply execute_inv in E.
  destruct E as (_ & _ & _ & _ & E). rewrite Hc in E.
  destruct r as [a|x]; [|exact Logic.I].
  destruct E as (v & n & fk & Hr & Hc' & Hf' & _).
  apply (run_readonly _ _ _ _ _ _ Hs) in Hr. subst v.
  assert (Hd : is_dml s = false) by (destruct Hs as [->|[->|[->| ->]]]; reflexivity).
  rewrite Htx, Hd in Hc', Hf'. simpl in Hc', Hf'.
  eexists. split; [exact Hc'|]. simpl. auto.
Qed.

Lemma close_settled (R : database -> Prop) :
  triple (settled R) close (fun _ w => R (db_file w) /\ conn w = None) anything.
Proof.
  intros w (c & Hc & Hv & Hf & Htx). simpl. rewrite Hf. auto.
Qed.

Lemma _connect_view e p d0 :
  triple (fun w => db_file w = d0) (_connect e p) (fun _ => at_view (eq d0)) anything.
Proof.
  unfold _connect. eapply triple_bind with (Q := fun _ => at_view (eq d0)).
  - intros w Hw. unfold sqlite3_connect, bind.
    destruct (engine_call e w) as [[n|x] w1] eqn:E; [|exact Logic.I].
    apply engine_call_inv in E. destruct E as (_ & E2 & _).
    simpl. eexists. split; [reflexivity|]. simpl. rewrite E2. auto.
  - intros u. apply triple_then_ret.
    apply execute_at_view. intros fk now v v' r <- Hr.
    symmetry. eapply run_readonly; [|exact Hr]. tauto.
Qed.

Lemma main_body_runs e d0 :
  triple (at_view (eq d0)) (main_body e)
         (fun _ => settled (initialized d0)) anything.
Proof.
  unfold main_body.
  eapply triple_bind; [apply _create_schema_runs | intros ?].
  eapply triple_bind; [apply _seed_data_runs | intros ?].
  eapply triple_bind with (Q := fun _ => settled (initialized d0)).
  { eapply triple_conseq with (E := anything);
      [apply commit_settled | | intros ? w H; exact H | intros w H; exact H].
    intros w. apply at_view_mono.
    intros v' (d1 & (d & <- & Hd1) & Hs). exists d1. auto. }
  intros u.
  repeat (eapply triple_bind; [apply execute_settled; tauto | intros ?];
          eapply triple_bind with (Q := fun _ => settled (initialized d0));
          [ match goal with
            | |- triple _ (fetchone_0 ?r) _ _ =>
                destruct r; unfold fetchone_0;
                [apply triple_ret; intros w H; exact H
                |apply triple_raise; intros w H; exact Logic.I]
            end
          | intros ? ]).
  apply triple_ret. intros w H. exact H.
Qed.

Lemma keeps_triple_ok {A X : Type} (proj : world -> X) (m : M A) (P : X -> Prop) :
  keeps proj m ->
  triple (fun w => P (proj w)) m (fun _ w => P (proj w)) anything.
Proof.
  intros H. eapply triple_conseq; [apply (keeps_triple proj m P H) | auto | auto |].
  intros w _. exact Logic.I.
Qed.

(** The success path of [main], from any database file. *)
Lemma main_runs e d0 :
  triple (fun w => db_file w = d0) (main e)
         (fun _ w => initialized d0 (db_file w)) anything.
Proof.
  unfold main.
  eapply triple_bind;
    [apply (keeps_triple_ok db_file _ (fun d => d = d0)); auto with keeps | intros ?].
  eapply triple_bind;
    [apply (keeps_triple_ok db_file _ (fun d => d = d0)); auto with keeps | intros b].
  eapply triple_bind;
    [apply (keeps_triple_ok db_file _ (fun d => d = d0)); destruct b; auto with keeps
    | intros ?].
  eapply triple_bind; [apply _connect_view | intros ?].
  eapply triple_bind with (Q := fun _ w => initialized d0 (db_file w)).
  - eapply triple_finally with (E := anything);
      [apply main_body_runs | | apply triple_anything].
    intros r. eapply triple_conseq with (E := anything);
      [ apply close_settled | intros w H; exact H
      | intros u w [H _]; exact H | intros w H; exact H ].
  - intros [[tc cc] kc].
    apply (keeps_triple_ok db_file _ (initialized d0)); auto 30 with keeps.
Qed.

(** ** The seed statements, one by one *)

Lemma nocase_eq_refl s : nocase_eq s s = true.
Proof.
  induction s as [|c s IH]; simpl; [reflexivity|].
  rewrite Ascii.eqb_refl. exact IH.
Qed.

Lemma fold_left_max_ge (l : list Z) (a : Z) :
  a <= fold_left Z.max l a /\ forall j, In j l -> j <= fold_left Z.max l a.
Proof.
  revert a. induction l as [|x l IH]; intros a; simpl.
  - split; [lia | intros j []].
  - destruct (IH (Z.max a x)) as [H1 H2]. split; [lia|].
    intros j [<-|Hj]; [lia | auto].
Qed.

Lemma max_rowid_ge ids last :
  max_rowid ids = Some last -> forall j, In j ids -> j <= last.
Proof.
  destruct ids as [|i rest]; simpl; [discriminate|]. intros [= <-] j Hj.
  destruct (fold_left_max_ge rest i) as [H1 H2].
  destruct Hj as [<-|Hj]; [exact H1 | exact (H2 j Hj)].
Qed.

Lemma new_rowid_fresh tbl ids db i :
  new_rowid tbl ids db = Ok i -> forall j, In j ids -> j < i.
Proof.
  unfold new_rowid. destruct (max_rowid ids) as [last|] eqn:Hm.
  - destruct (_ || _); [discriminate|]. intros [= <-] j Hj.
    pose proof (max_rowid_ge _ _ Hm j Hj). lia.
  - destruct ids; [|discriminate]. intros _ j [].
Qed.

Lemma fresh_conflict i name cs :
  (forall j, In j (cat_id <$> cs) -> j < i) ->
  category_conflict i name cs = name_taken name cs.
Proof.
  unfold category_conflict, name_taken.
  induction cs as [|c cs IH]; simpl; intros H; [reflexivity|].
  rewrite IH by (intros j Hj; apply H; right; exact Hj).
  replace (cat_id c =? i) with false; [reflexivity|].
  symmetry. apply Z.eqb_neq. specialize (H (cat_id c) (or_introl eq_refl)). lia.
Qed.

Lemma name_taken_app name cs cs' :
  name_taken name (cs ++ cs') = name_taken name cs || name_taken name cs'.
Proof. apply existsb_app. Qed.

(** INSERT OR IGNORE of a seed category: skipped exactly when the name is
    taken, up to case. *)
Lemma step_category name color sort_order d d' :
  step (INSERT_OR_IGNORE_category name color sort_order) d d' ->
  exists cs,
    categories d = Some cs /\ tasks d' = tasks d /\ objects d' = objects d /\
    ((name_taken name cs = true /\ categories d' = Some cs) \/
     (name_taken name cs = false /\
      exists i created updated,
        categories d' =
          Some (cs ++ [ {| cat_id := i; cat_name := name; cat_color := Some color;
                           cat_sort_order := sort_order;
                           cat_created_at := created;
                           cat_updated_at := updated |} ])%list)).
Proof.
  intros (fk & now & r & H). simpl in H. apply with_db_inv in H.
  destruct H as [H _]. unfold insert_category in H.
  destruct (categories d) as [cs|] eqn:Hcs; [|discriminate].
  exists cs. split; [reflexivity|]. simpl in H.
  destruct (new_rowid "categories" (cat_id <$> cs) d) as [i|x] eqn:Hi; [|discriminate].
  rewrite (fresh_conflict i name cs (new_rowid_fresh _ _ _ _ Hi)) in H.
  destruct (name_taken name cs) eqn:Ht; injection H as <-.
  - rewrite set_seq_categories, set_seq_tasks, set_seq_objects. auto.
  - simpl. rewrite set_seq_tasks, set_seq_objects. repeat split; auto.
    right. split; [reflexivity|]. eauto.
Qed.

(** INSERT of a starter task: appended, with the id that the subselect
    finds for the category name. *)
Lemma step_task ttl descr category_name prio d d' :
  step (INSERT_task ttl descr category_name prio) d d' ->
  exists ts i created updated,
    tasks d = Some ts /\ categories d' = categories d /\ objects d' = objects d /\
    tasks d' =
      Some (ts ++ [ {| task_id := i; title := ttl; description := Some descr;
                       due_at := None; is_completed := 0; completed_at := None;
                       category_id := select_category_id category_name d;
                       priority := prio;
                       task_created_at := created;
                       task_updated_at := updated |} ])%list.
Proof.
  intros (fk & now & r & H). simpl in H. apply with_db_inv in H.
  destruct H as [H _]. apply insert_task_inv in H.
  destruct H as (ts & i & ttl' & Hts & [= <-] & Hc & Ho & Ht & _).
  exists ts, i. do 2 eexists. repeat split; eauto.
Qed.

(** ** The seeding as a whole *)

Lemma runs_categories d d2 :
  runs category_statements d d2 ->
  exists cs cs2,
    categories d = Some cs /\ categories d2 = Some cs2 /\
    tasks d2 = tasks d /\ objects d2 = objects d /\
    seed_rows seed_categories cs cs2.
Proof.
  unfold category_statements, seed_categories. simpl.
  intros (d1 & H1 & d3 & H2 & d4 & H3 & d5 & H4 & ->).
  apply step_category in H1, H2, H3, H4.
  destruct H1 as (cs & Hcs & Ht1 & Ho1 & H1).
  destruct H2 as (cs1 & Hcs1 & Ht2 & Ho2 & H2).
  destruct H3 as (cs3 & Hcs3 & Ht3 & Ho3 & H3).
  destruct H4 as (cs4 & Hcs4 & Ht4 & Ho4 & H4).
  assert (Hout : exists cs5, categories d5 = Some cs5)
    by (destruct H4 as [[_ H]|[_ (i & c & u & H)]]; eauto).
  destruct Hout as (cs5 & Hcs5).
  exists cs, cs5. repeat split; try congruence.
  exists cs1. split.
  { destruct H1 as [[Ht H]|[Ht (i & c & u & H)]]; [left|right]; split; auto.
    - congruence.
    - exists i, c, u. congruence. }
  exists cs3. split.
  { destruct H2 as [[Ht H]|[Ht (i & c & u & H)]]; [left|right]; split; auto.
    - congruence.
    - exists i, c, u. congruence. }
  exists cs4. split.
  { destruct H3 as [[Ht H]|[Ht (i & c & u & H)]]; [left|right]; split; auto.
    - congruence.
    - exists i, c, u. congruence. }
  exists cs5. split; [|reflexivity].
  destruct H4 as [[Ht H]|[Ht (i & c & u & H)]]; [left|right]; split; auto.
  - congruence.
  - exists i, c, u. congruence.
Qed.

Lemma seed_rows_grow seeds cs cs' :
  seed_rows seeds cs cs' ->
  exists extra,
    cs' = (cs ++ extra)%list /\
    forall c, In c extra ->
      exists name color sort_order,
        In (name, color, sort_order) seeds /\ name_taken name cs = false /\
        cat_name c = name /\ cat_color c = Some color /\
        cat_sort_order c = sort_order.
Proof.
  revert cs. induction seeds as [|[[name color] sort_order] rest IH]; intros cs; simpl.
  - intros ->. exists []. rewrite app_nil_r. split; [reflexivity | intros c []].
  - intros (cs1 & H1 & Hrest). apply IH in Hrest. destruct Hrest as (extra & -> & Hex).
    destruct H1 as [[Ht ->]|[Ht (i & cr & up & ->)]].
    + exists extra. split; [reflexivity|]. intros c Hc.
      destruct (Hex c Hc) as (n & co & so & Hin & Hnt & Hrow).
      exists n, co, so. auto.
    + eexists (_ :: extra). rewrite <- app_assoc. split; [reflexivity|].
      intros c [<-|Hc].
      * exists name, color, sort_order. simpl. auto 10.
      * destruct (Hex c Hc) as (n & co & so & Hin & Hnt & Hrow).
        exists n, co, so. repeat split; auto; try tauto.
        rewrite name_taken_app in Hnt. apply orb_false_iff in Hnt. tauto.
Qed.

Lemma seed_rows_taken seeds cs cs' :
  seed_rows seeds cs cs' ->
  (forall n, name_taken n cs = true -> name_taken n cs' = true) /\
  (forall name color sort_order,
      In (name, color, sort_order) seeds -> name_taken name cs' = true).
Proof.
  revert cs. induction seeds as [|[[name color] sort_order] rest IH]; intros cs; simpl.
  - intros ->. split; [auto | intros ? ? ? []].
  - intros (cs1 & H1 & Hrest). apply IH in Hrest. destruct Hrest as [Hmono Hall].
    assert (Hstep : (forall n, name_taken n cs = true -> name_taken n cs1 = true)
                    /\ name_taken name cs1 = true).
    { destruct H1 as [[Ht ->]|[Ht (i & cr & up & ->)]]; [auto|].
      split.
      - intros n Hn. rewrite name_taken_app, Hn. reflexivity.
      - rewrite name_taken_app. simpl. rewrite nocase_eq_refl, orb_true_r.
        reflexivity. }
    destruct Hstep as [Hm1 Hn1]. split; [auto|].
    intros n co so [[= <- <- <-]|Hin]; [auto | eauto].
Qed.

Lemma seed_rows_same seeds cs cs' :
  seed_rows seeds cs cs' ->
  (forall name color sort_order,
      In (name, color, sort_order) seeds -> name_taken name cs = true) ->
  cs' = cs.
Proof.
  revert cs. induction seeds as [|[[name color] sort_order] rest IH]; intros cs; simpl.
  - auto.
  - intros (cs1 & H1 & Hrest) Hall.
    destruct H1 as [[Ht ->]|[Ht _]].
    + apply IH; [exact Hrest|]. intros n co so Hin. eapply Hall. right. exact Hin.
    + rewrite (Hall name color sort_order (or_introl eq_refl)) in Ht. discriminate.
Qed.

Lemma select_category_id_ext name d d' :
  categories d' = categories d ->
  select_category_id name d' = select_category_id name d.
Proof. unfold select_category_id. intros ->. reflexivity. Qed.

Lemma runs_tasks d d' :
  runs task_statements d d' -> tasks d = Some [] ->
  categories d' = categories d /\ objects d' = objects d /\
  exists ts, tasks d' = Some ts /\ starter_tasks d ts.
Proof.
  unfold task_statements, welcome_task, planning_task, shopping_task. simpl.
  intros (d1 & H1 & d2 & H2 & d3 & H3 & ->) Hempty.
  apply step_task in H1, H2, H3.
  destruct H1 as (ts1 & i1 & c1 & u1 & Ht1 & Hc1 & Ho1 & Hr1).
  destruct H2 as (ts2 & i2 & c2 & u2 & Ht2 & Hc2 & Ho2 & Hr2).
  destruct H3 as (ts3 & i3 & c3 & u3 & Ht3 & Hc3 & Ho3 & Hr3).
  rewrite (select_category_id_ext _ _ _ Hc1) in Hr2.
  rewrite (select_category_id_ext "Shopping" d d2) in Hr3 by congruence.
  rewrite Hempty in Ht1. injection Ht1 as <-.
  rewrite Hr1 in Ht2. injection Ht2 as <-.
  rewrite Hr2 in Ht3. injection Ht3 as <-.
  repeat split; try congruence.
  eexists. split; [exact Hr3|]. simpl.
  exists i1, c1, u1, i2, c2, u2, i3, c3, u3. reflexivity.
Qed.

(** What a successful run leaves in the file. *)
Lemma initialized_inv d0 d' :
  initialized d0 d' ->
  exists cs cs' ts',
    default [] (categories d0) = cs /\
    categories d' = Some cs' /\ seed_rows seed_categories cs cs' /\
    tasks d' = Some ts' /\
    ((default [] (tasks d0) = [] /\ starter_tasks d' ts') \/
     (ts' <> [] /\ tasks d0 = Some ts')).
Proof.
  intros (d1 & Hschema & d2 & Hcat & Htask).
  apply runs_categories in Hcat.
  destruct Hcat as (cs & cs2 & Hcs & Hcs2 & Ht2 & _ & Hrows).
  assert (Hs : rows_of d1 = rows_of d0 /\
               (present (tasks d0) = true -> tasks d1 = tasks d0)).
  { clear - Hschema. revert Hschema. generalize schema_not_dml.
    generalize schema_statements as l. intros l. revert d0.
    induction l as [|s l IH]; intros d0 Hl; simpl.
    - intros ->. auto.
    - intros (dm & (fk & now & r & Hstep) & Hrest).
      apply run_not_dml in Hstep; [|apply Hl; left; reflexivity].
      destruct Hstep as (Hr & _ & Hp).
      apply IH in Hrest; [|intros s' Hs'; apply Hl; right; exact Hs'].
      destruct Hrest as [Hr' Hp']. split; [congruence|].
      intros Hpres. specialize (Hp Hpres). rewrite <- Hp. apply Hp'.
      rewrite Hp. exact Hpres. }
  destruct Hs as [Hrows_of Hpres].
  assert (Hcs0 : default [] (categories d0) = cs).
  { unfold rows_of in Hrows_of. injection Hrows_of as H1 _ _.
    rewrite <- H1, Hcs. reflexivity. }
  assert (Hts0 : default [] (tasks d1) = default [] (tasks d0)).
  { unfold rows_of in Hrows_of. injection Hrows_of as _ H2 _. exact H2. }
  destruct Htask as [[Hempty Hrun]|(t & ts & Hts & ->)].
  - apply runs_tasks in Hrun; [|exact Hempty].
    destruct Hrun as (Hc & _ & ts' & Hts' & Hst).
    exists cs, cs2, ts'. repeat split; auto; try congruence.
    left. split.
    + rewrite <- Hts0, <- Ht2, Hempty. reflexivity.
    + destruct Hst as (i1 & c1 & u1 & i2 & c2 & u2 & i3 & c3 & u3 & ->).
      exists i1, c1, u1, i2, c2, u2, i3, c3, u3.
      rewrite !(select_category_id_ext _ d2 d') by exact Hc. reflexivity.
  - exists cs, cs2, (t :: ts). repeat split; auto.
    right. split; [discriminate|].
    rewrite Ht2 in Hts. rewrite Hts in Hts0.
    destruct (tasks d0) as [ts0|] eqn:E0; simpl in Hts0; [|discriminate].
    rewrite <- (Hpres eq_refl). exact Hts.
Qed.

(** * The application's side *)

Lemma run_step fk now s d d' r :
  run_statement fk now s d = Ok (d', r) -> step s d d'.
Proof. intros H. exists fk, now, r. exact H. Qed.

Lemma category_statement_inv s :
  In s category_statements ->
  exists name color sort_order,
    In (name, color, sort_order) seed_categories /\
    s = INSERT_OR_IGNORE_category name color sort_order.
Proof.
  unfold category_statements. intros H. apply in_map_iff in H.
  destruct H as ([[name color] sort_order] & <- & Hin). eauto.
Qed.

Lemma task_statement_inv s :
  In s task_statements ->
  exists ttl descr category_name prio, s = INSERT_task ttl descr category_name prio.
Proof.
  unfold task_statements, welcome_task, planning_task, shopping_task. simpl.
  intros [<-|[<-|[<-|[]]]]; eauto.
Qed.

Lemma checked_schema s : In s schema_statements -> stmt_keeps checked s.
Proof.
  intros Hs fk now db db' r Hdb Hr.
  apply run_not_dml in Hr; [|apply schema_not_dml; exact Hs].
  destruct Hr as (Hrows & _). unfold checked.
  unfold rows_of in Hrows. injection Hrows as _ -> _. exact Hdb.
Qed.

Lemma checked_category s : In s category_statements -> stmt_keeps checked s.
Proof.
  intros Hs fk now db db' r Hdb Hr.
  apply category_statement_inv in Hs. destruct Hs as (n & c & o & _ & ->).
  apply run_step, step_category in Hr. destruct Hr as (cs & _ & Ht & _).
  unfold checked. rewrite Ht. exact Hdb.
Qed.

Lemma checked_insert_task fk now v db db' :
  insert_task fk now v db = Ok db' -> checked db -> checked db'.
Proof.
  intros H Hdb. apply insert_task_inv in H.
  destruct H as (ts & i & ttl & Hts & _ & _ & _ & Ht' & Hck & _).
  unfold checked in *. rewrite Ht'. rewrite Hts in Hdb. simpl in *.
  apply Forall_app. split; [exact Hdb|]. constructor; [exact Hck | constructor].
Qed.

Lemma checked_task s : In s task_statements -> stmt_keeps checked s.
Proof.
  intros Hs fk now db db' r Hdb Hr.
  apply task_statement_inv in Hs. destruct Hs as (t & d & c & p & ->).
  simpl in Hr. apply with_db_inv in Hr. destruct Hr as [Hr _].
  eapply checked_insert_task; eassumption.
Qed.

Lemma boot_both (I : database -> Prop) ex d f ds : I d -> both I (boot ex d f ds).
Proof. intros H. split; [exact H | discriminate]. Qed.

(** The script keeps the constraints, however it ends. *)
Lemma checked_main e ex d f ds r w' :
  checked d -> main e (boot ex d f ds) = (r, w') -> checked (db_file w').
Proof.
  intros Hd Hm.
  pose proof (triple_run _ _ _ _ _ _ _
                (main_both checked e checked_schema checked_category
                   (fun _ => checked_task))
                (boot_both checked ex d f ds Hd) Hm) as H.
  destruct r; apply H.
Qed.

Lemma tasks_check_clear i t : tasks_check (clear_reference i t) = tasks_check t.
Proof.
  unfold clear_reference. destruct (category_id t) as [k|]; [|reflexivity].
  destruct (k =? i); reflexivity.
Qed.

Lemma tasks_check_move old new t :
  tasks_check (move_reference old new t) = tasks_check t.
Proof.
  unfold move_reference. destruct (category_id t) as [k|]; [|reflexivity].
  destruct (k =? old); reflexivity.
Qed.

Lemma checked_app fk now o d d' :
  apply_op fk now o d = Ok d' -> checked d -> checked d'.
Proof.
  destruct o as [oi v|v|i v|i|i|old new]; simpl; intros H Hd.
  - apply insert_category_inv in H. destruct H as (cs & _ & Ht & _).
    unfold checked. rewrite Ht. exact Hd.
  - eapply checked_insert_task; eassumption.
  - unfold update_task in H. destruct (tasks d) as [ts|] eqn:Hts; [|discriminate].
    destruct (existsb _ ts); simpl in H; [|injection H as <-; exact Hd].
    destruct (tv_title v) as [ttl|]; [|discriminate].
    destruct (tasks_check _) eqn:Hck; [|discriminate]. simpl in H.
    destruct (fk_ok _ _ _); [|discriminate]. simpl in H. injection H as <-.
    unfold checked in *. simpl. rewrite Hts in Hd. simpl in Hd.
    apply Forall_fmap. eapply Forall_impl; [exact Hd|].
    intros t Ht. simpl. destruct (task_id t =? i); assumption.
  - unfold delete_task in H. destruct (tasks d) as [ts|] eqn:Hts; [|discriminate].
    injection H as <-. unfold checked in *. simpl. rewrite Hts in Hd. simpl in Hd.
    apply List.Forall_forall. intros t Ht. apply filter_In in Ht.
    rewrite List.Forall_forall in Hd. apply Hd. tauto.
  - unfold delete_category in H.
    destruct (categories d) as [cs|]; [|discriminate].
    destruct (tasks d) as [ts|] eqn:Hts.
    + destruct (fk && _); injection H as <-; unfold checked in *; simpl;
        rewrite Hts in *; simpl in *; [|exact Hd].
      apply Forall_fmap. eapply Forall_impl; [exact Hd|].
      intros t Ht. simpl. rewrite tasks_check_clear. exact Ht.
    + injection H as <-. unfold checked. simpl. rewrite Hts. constructor.
  - unfold update_category_id in H.
    destruct (categories d) as [cs|]; [|discriminate].
    destruct (negb _); [injection H as <-; exact Hd|].
    destruct (_ && _); [discriminate|].
    destruct (tasks d) as [ts|] eqn:Hts.
    + destruct fk; injection H as <-; unfold checked in *; simpl;
        rewrite Hts in *; simpl in *; [|exact Hd].
      apply Forall_fmap. eapply Forall_impl; [exact Hd|].
      intros t Ht. simpl. rewrite tasks_check_move. exact Ht.
    + injection H as <-. unfold checked. simpl. rewrite Hts. constructor.
Qed.

Lemma reachable_checked d : reachable d -> checked d.
Proof.
  induction 1 as [|e ex d f ds r w' _ IH Hm|fk now o d d' _ IH Ho].
  - constructor.
  - eapply checked_main; eassumption.
  - eapply checked_app; eassumption.
Qed.

(** * Sample runs *)

Lemma fresh_run_ok :
  main sample_env fresh = (Ok (), snd (main sample_env fresh)).
Proof. vm_compute. reflexivity. Qed.

Lemma seeded_once_reachable : reachable seeded_once.
Proof. exact (reach_main _ _ _ _ _ _ _ reach_empty fresh_run_ok). Qed.

Lemma with_done_task_ok :
  insert_task true 1700000100 done_without_time seeded_once = Ok with_done_task.
Proof. vm_compute. reflexivity. Qed.

Lemma with_done_task_reachable : reachable with_done_task.
Proof.
  apply (reach_app true 1700000100 (AppInsertTask done_without_time) seeded_once).
  - exact seeded_once_reachable.
  - exact with_done_task_ok.
Qed.

Lemma with_done_task_run_ok :
  main sample_env (boot true with_done_task ∅ ∅)
    = (Ok (), snd (main sample_env (boot true with_done_task ∅ ∅))).
Proof. vm_compute. reflexivity. Qed.

(** * The claims *)

(** ** C6: the due date *)

Lemma negative_due_rejected fk now v db dd :
  tv_due_at v = Some dd -> dd < 0 -> exists x, insert_task fk now v db = Raise x.
Proof.
  intros Hv Hneg. unfold insert_task.
  destruct (tasks db) as [ts|]; [|eauto].
  destruct (choose_rowid _ _ _ _) as [i|x]; [|eauto].
  destruct (tv_title v) as [ttl|]; [|eauto].
  assert (Hck : tasks_check (task_of_values i ttl now v) = false).
  { unfold tasks_check, check_due_at. simpl. rewrite Hv.
    replace (0 <=? dd) with false by (symmetry; apply Z.leb_gt; exact Hneg).
    apply andb_false_r. }
  rewrite Hck. simpl. eauto.
Qed.

(** C6.  After a successful run, from any database file that the script
    and the application can have produced, every row of [tasks] has a
    [due_at] that is null or at least 0; and an INSERT with a negative
    [due_at] is rejected, whatever the database. *)
Theorem due_at_null_or_nonnegative e ex d f ds w' :
  reachable d -> main e (boot ex d f ds) = (Ok (), w') ->
  (forall t, In t (default [] (tasks (db_file w'))) ->
     due_at t = None \/ exists v, due_at t = Some v /\ 0 <= v) /\
  (forall fk now v db dd,
     tv_due_at v = Some dd -> dd < 0 ->
     exists x, insert_task fk now v db = Raise x).
Proof.
  intros Hd Hm. split; [|exact negative_due_rejected].
  pose proof (checked_main _ _ _ _ _ _ _ (reachable_checked _ Hd) Hm) as Hck.
  intros t Ht. unfold checked in Hck. rewrite List.Forall_forall in Hck.
  specialize (Hck t Ht). unfold tasks_check in Hck.
  apply andb_prop in Hck. destruct Hck as [_ Hdue]. unfold check_due_at in Hdue.
  destruct (due_at t) as [v|]; [right|left; reflexivity].
  exists v. split; [reflexivity | apply Z.leb_le; exact Hdue].
Qed.

Lemma due_at_null_or_nonnegative_witness :
  reachable with_done_task /\
  main sample_env (boot true with_done_task ∅ ∅)
    = (Ok (), snd (main sample_env (boot true with_done_task ∅ ∅))) /\
  (forall t,
     In t (default [] (tasks (db_file
             (snd (main sample_env (boot true with_done_task ∅ ∅)))))) ->
     due_at t = None \/ exists v, due_at t = Some v /\ 0 <= v).
Proof.
  split; [exact with_done_task_reachable|].
  split; [exact with_done_task_run_ok|].
  exact (proj1 (due_at_null_or_nonnegative sample_env true with_done_task ∅ ∅ _
                  with_done_task_reachable with_done_task_run_ok)).
Defined.

(** ** C2: the completion time *)

(** C2, as stated, fails: the application stores a task that is completed
    and has no completion time, the schema lets it, and the next run of
    the script leaves the row as it is. *)
Lemma completed_at_iff_fails :
  ~ (forall e ex d f ds w',
       reachable d -> main e (boot ex d f ds) = (Ok (), w') ->
       forall t, In t (default [] (tasks (db_file w'))) ->
         (completed_at t = None <-> is_completed t = 0)).
Proof.
  intros H.
  specialize (H _ _ _ _ _ _ with_done_task_reachable with_done_task_run_ok).
  pose (t := {| task_id := 4; title := "Pay rent"; description := None;
                due_at := None; is_completed := 1; completed_at := None;
                category_id := None; priority := 0;
                task_created_at := 1700000100000;
                task_updated_at := 1700000100000 |}).
  assert (Hin : In t (default [] (tasks (db_file
                  (snd (main sample_env (boot true with_done_task ∅ ∅)))))))
    by (vm_compute; tauto).
  destruct (H t Hin) as [H1 _].
  assert (H0 : is_completed t = 0) by (apply H1; reflexivity).
  discriminate H0.
Qed.

(** C2, amended.  After a successful run every row of [tasks] has
    [is_completed] 0 or 1, and a completion time only if it is completed:
    [is_completed = 0] implies that [completed_at] is null.  The other
    direction is not a constraint of the schema, which accepts a completed
    task without a completion time. *)
Theorem completed_at_only_if_completed e ex d f ds w' :
  reachable d -> main e (boot ex d f ds) = (Ok (), w') ->
  (forall t, In t (default [] (tasks (db_file w'))) ->
     (is_completed t = 0 \/ is_completed t = 1) /\
     (completed_at t <> None -> is_completed t = 1) /\
     (is_completed t = 0 -> completed_at t = None)) /\
  (exists fk now v db db',
     tv_is_completed v = Some 1 /\ tv_completed_at v = None /\
     insert_task fk now v db = Ok db').
Proof.
  intros Hd Hm. split.
  - pose proof (checked_main _ _ _ _ _ _ _ (reachable_checked _ Hd) Hm) as Hck.
    intros t Ht. unfold checked in Hck. rewrite List.Forall_forall in Hck.
    specialize (Hck t Ht). unfold tasks_check in Hck.
    apply andb_prop in Hck. destruct Hck as [Hck _].
    apply andb_prop in Hck. destruct Hck as [H01 Hc].
    unfold check_is_completed in H01. unfold check_completed_at in Hc.
    apply orb_prop in H01. rewrite !Z.eqb_eq in H01.
    destruct (completed_at t) as [v|].
    + apply Z.eqb_eq in Hc. repeat split; auto. intros H0. lia.
    + repeat split; auto. intros Hn. contradiction.
  - exists true, 1700000100, done_without_time, seeded_once, with_done_task.
    split; [reflexivity|]. split; [reflexivity | exact with_done_task_ok].
Qed.

Lemma completed_at_only_if_completed_witness :
  reachable with_done_task /\
  main sample_env (boot true with_done_task ∅ ∅)
    = (Ok (), snd (main sample_env (boot true with_done_task ∅ ∅))) /\
  (forall t,
     In t (default [] (tasks (db_file
             (snd (main sample_env (boot true with_done_task ∅ ∅)))))) ->
     (is_completed t = 0 \/ is_completed t = 1) /\
     (completed_at t <> None -> is_completed t = 1) /\
     (is_completed t = 0 -> completed_at t = None)).
Proof.
  split; [exact with_done_task_reachable|].
  split; [exact with_done_task_run_ok|].
  exact (proj1 (completed_at_only_if_completed sample_env true with_done_task ∅ ∅ _
                  with_done_task_reachable with_done_task_run_ok)).
Defined.

(** ** C1: running the script again *)

Lemma rows_are_schema cs ts s :
  In s schema_statements -> stmt_keeps (rows_are cs ts) s.
Proof.
  intros Hs fk now db db' r [Hc Ht] Hr.
  apply run_not_dml in Hr; [|apply schema_not_dml; exact Hs].
  destruct Hr as (_ & Hpc & Hpt). split.
  - rewrite Hpc; [exact Hc | rewrite Hc; reflexivity].
  - rewrite Hpt; [exact Ht | rewrite Ht; reflexivity].
Qed.

Lemma rows_are_category cs ts s :
  seeds_taken cs -> In s category_statements -> stmt_keeps (rows_are cs ts) s.
Proof.
  intros Htaken Hs fk now db db' r [Hc Ht] Hr.
  apply category_statement_inv in Hs. destruct Hs as (n & c & o & Hin & ->).
  apply run_step, step_category in Hr.
  destruct Hr as (cs0 & Hcs0 & Ht' & _ & Hcase).
  rewrite Hc in Hcs0. injection Hcs0 as <-.
  split; [|congruence].
  destruct Hcase as [[_ H]|[Hnt _]]; [exact H|].
  rewrite (Htaken n c o Hin) in Hnt. discriminate.
Qed.

Lemma rows_are_main cs ts e ex d f ds r w' :
  seeds_taken cs -> ts <> [] -> rows_are cs ts d ->
  main e (boot ex d f ds) = (r, w') -> rows_are cs ts (db_file w').
Proof.
  intros Htaken Hne Hd Hm.
  assert (Htask : (exists db, rows_are cs ts db /\ tasks db = Some []) ->
                  forall s, In s task_statements -> stmt_keeps (rows_are cs ts) s).
  { intros (db & [_ H1] & H2). rewrite H1 in H2. injection H2 as ->.
    contradiction. }
  pose proof (triple_run _ _ _ _ _ _ _
                (main_both (rows_are cs ts) e (rows_are_schema cs ts)
                   (fun s => rows_are_category cs ts s Htaken) Htask)
                (boot_both _ ex d f ds Hd) Hm) as H.
  destruct r; apply H.
Qed.

Lemma starter_tasks_nonempty d ts : starter_tasks d ts -> ts <> [].
Proof.
  intros (i1 & c1 & u1 & i2 & c2 & u2 & i3 & c3 & u3 & ->). discriminate.
Qed.

(** What a successful run leaves behind is a fixed point of the script. *)
Lemma main_ok_settles e ex d f ds w' :
  main e (boot ex d f ds) = (Ok (), w') ->
  exists cs ts, seeds_taken cs /\ ts <> [] /\ rows_are cs ts (db_file w').
Proof.
  intros Hm.
  pose proof (triple_run _ _ _ _ _ _ _ (main_runs e d)
                (eq_refl : db_file (boot ex d f ds) = d) Hm) as Hinit.
  simpl in Hinit. apply initialized_inv in Hinit.
  destruct Hinit as (cs & cs' & ts' & _ & Hcs' & Hrows & Hts' & Hcase).
  exists cs', ts'. split; [|split; [|split; assumption]].
  - intros n c o Hin. exact (proj2 (seed_rows_taken _ _ _ Hrows) n c o Hin).
  - destruct Hcase as [[_ Hst]|[Hne _]]; [|exact Hne].
    eapply starter_tasks_nonempty; exact Hst.
Qed.

(** C1.  After a run of the script that succeeded, a second run on the
    database file it left, in whatever environment and however it ends,
    leaves the rows of [categories] and the rows of [tasks] exactly as the
    first run left them: none is added, none is changed. *)
Theorem second_run_changes_no_row e1 e2 ex d f ds w1 r2 w2 :
  main e1 (boot ex d f ds) = (Ok (), w1) ->
  main e2 (next w1) = (r2, w2) ->
  categories (db_file w2) = categories (db_file w1) /\
  tasks (db_file w2) = tasks (db_file w1).
Proof.
  intros H1 H2. apply main_ok_settles in H1.
  destruct H1 as (cs & ts & Htaken & Hne & Hrows).
  pose proof (rows_are_main cs ts e2 true (db_file w1) (files w1) (dirs w1) r2 w2
                Htaken Hne Hrows H2) as [Hc Ht].
  destruct Hrows as [Hc1 Ht1]. split; congruence.
Qed.

Lemma second_run_ok :
  main sample_env (next (snd (main sample_env fresh)))
  = (Ok (), snd (main sample_env (next (snd (main sample_env fresh))))).
Proof. vm_compute. reflexivity. Qed.

Lemma second_run_changes_no_row_witness :
  main sample_env fresh = (Ok (), snd (main sample_env fresh)) /\
  main sample_env (next (snd (main sample_env fresh)))
    = (Ok (), snd (main sample_env (next (snd (main sample_env fresh))))) /\
  categories (db_file (snd (main sample_env (next (snd (main sample_env fresh))))))
    = categories (db_file (snd (main sample_env fresh))) /\
  tasks (db_file (snd (main sample_env (next (snd (main sample_env fresh))))))
    = tasks (db_file (snd (main sample_env fresh))).
Proof.
  split; [exact fresh_run_ok|]. split; [exact second_run_ok|].
  exact (second_run_changes_no_row sample_env sample_env false empty_database ∅ ∅
           _ _ _ fresh_run_ok second_run_ok).
Defined.

(** ** C5: the starter tasks *)

Lemma tasks_are_schema ts s : In s schema_statements -> stmt_keeps (tasks_are ts) s.
Proof.
  intros Hs fk now db db' r Ht Hr. unfold tasks_are in *.
  apply run_not_dml in Hr; [|apply schema_not_dml; exact Hs].
  destruct Hr as (_ & _ & Hpt). rewrite Hpt; [exact Ht | rewrite Ht; reflexivity].
Qed.

Lemma tasks_are_category ts s :
  In s category_statements -> stmt_keeps (tasks_are ts) s.
Proof.
  intros Hs fk now db db' r Ht Hr. unfold tasks_are in *.
  apply category_statement_inv in Hs. destruct Hs as (n & c & o & _ & ->).
  apply run_step, step_category in Hr. destruct Hr as (cs & _ & Ht' & _).
  congruence.
Qed.

(** A table of tasks that is not empty is left as it is, however the run
    ends. *)
Lemma tasks_are_main t ts e ex d f ds r w' :
  tasks d = Some (t :: ts) -> main e (boot ex d f ds) = (r, w') ->
  tasks (db_file w') = Some (t :: ts).
Proof.
  intros Hd Hm.
  assert (Htask : (exists db, tasks_are (t :: ts) db /\ tasks db = Some []) ->
                  forall s, In s task_statements -> stmt_keeps (tasks_are (t :: ts)) s).
  { intros (db & H1 & H2). unfold tasks_are in H1. congruence. }
  pose proof (triple_run _ _ _ _ _ _ _
                (main_both (tasks_are (t :: ts)) e (tasks_are_schema _)
                   (tasks_are_category _) Htask)
                (boot_both (tasks_are (t :: ts)) ex d f ds Hd) Hm) as H.
  destruct r; apply H.
Qed.

Lemma main_ok_initialized e ex d f ds w' :
  main e (boot ex d f ds) = (Ok (), w') -> initialized d (db_file w').
Proof.
  intros Hm.
  exact (triple_run _ _ _ _ _ _ _ (main_runs e d)
           (eq_refl : db_file (boot ex d f ds) = d) Hm).
Qed.

Lemma seed_rows_fresh cs' :
  seed_rows seed_categories [] cs' ->
  (fun c => (cat_name c, cat_color c, cat_sort_order c)) <$> cs'
  = [ ("Personal", Some "#10B981", 0); ("Work", Some "#374151", 1);
      ("Shopping", Some "#9CA3AF", 2); ("Health", Some "#EF4444", 3) ].
Proof.
  unfold seed_categories. simpl.
  intros (cs1 & [[H1 _]|[_ (i1 & c1 & u1 & ->)]] & H); [discriminate H1|].
  destruct H as (cs2 & [[H2 _]|[_ (i2 & c2 & u2 & ->)]] & H); [discriminate H2|].
  destruct H as (cs3 & [[H3 _]|[_ (i3 & c3 & u3 & ->)]] & H); [discriminate H3|].
  destruct H as (cs4 & [[H4 _]|[_ (i4 & c4 & u4 & ->)]] & ->); [discriminate H4|].
  reflexivity.
Qed.

(** C5.  (1) When the table of tasks holds a row, seeded or not, a run
    leaves the table exactly as it is, however it ends.  (2) When the table
    is empty or missing, a successful run puts the three starter tasks in
    it.  (3) Run once on an empty target, let the application insert one
    task, run again: four tasks, four categories. *)
Theorem starter_tasks_only_into_empty_table :
  (forall e ex d f ds r w' t ts,
      tasks d = Some (t :: ts) -> main e (boot ex d f ds) = (r, w') ->
      tasks (db_file w') = Some (t :: ts)) /\
  (forall e ex d f ds w',
      default [] (tasks d) = [] -> main e (boot ex d f ds) = (Ok (), w') ->
      exists ts', tasks (db_file w') = Some ts' /\ starter_tasks (db_file w') ts') /\
  (forall e1 e2 f ds w1 fk now v d2 w2,
      main e1 (boot false empty_database f ds) = (Ok (), w1) ->
      insert_task fk now v (db_file w1) = Ok d2 ->
      main e2 (boot true d2 (files w1) (dirs w1)) = (Ok (), w2) ->
      List.length (default [] (tasks (db_file w2))) = 4%nat /\
      List.length (default [] (categories (db_file w2))) = 4%nat).
Proof.
  split; [|split].
  - intros e ex d f ds r w' t ts Hd Hm. eapply tasks_are_main; eassumption.
  - intros e ex d f ds w' Hd Hm. apply main_ok_initialized, initialized_inv in Hm.
    destruct Hm as (cs & cs' & ts' & _ & _ & _ & Hts' & Hcase).
    exists ts'. split; [exact Hts'|].
    destruct Hcase as [[_ Hst]|[Hne Hts]]; [exact Hst|].
    rewrite Hts in Hd. simpl in Hd. contradiction.
  - intros e1 e2 f ds w1 fk now v d2 w2 H1 Hins H2.
    pose proof (main_ok_settles _ _ _ _ _ _ H1) as (cs1 & ts1 & Htaken & _ & [Hc1 Ht1]).
    apply main_ok_initialized, initialized_inv in H1.
    destruct H1 as (cs & cs' & ts' & Hcs & Hcs' & Hrows & Hts' & Hcase).
    simpl in Hcs. subst cs. apply seed_rows_fresh in Hrows.
    rewrite Hc1 in Hcs'. injection Hcs' as <-.
    rewrite Ht1 in Hts'. injection Hts' as <-.
    assert (Hlen1 : List.length ts1 = 3%nat).
    { destruct Hcase as [[_ Hst]|[_ Hno]]; [|discriminate Hno].
      destruct Hst as (i1 & c1 & u1 & i2 & c2 & u2 & i3 & c3 & u3 & ->).
      reflexivity. }
    apply insert_task_inv in Hins.
    destruct Hins as (ts & i & ttl & Hts & _ & Hc2 & _ & Ht2 & _).
    rewrite Ht1 in Hts. injection Hts as <-.
    pose proof (main_ok_initialized _ _ _ _ _ _ H2) as Hinit.
    apply initialized_inv in Hinit.
    destruct Hinit as (cs & cs'' & ts'' & Hcs & Hcs'' & Hrows2 & Hts'' & Hcase2).
    rewrite Hc2, Hc1 in Hcs. simpl in Hcs. subst cs.
    apply seed_rows_same in Hrows2; [|exact Htaken]. subst cs''.
    rewrite Hcs'', Hts''. simpl. split.
    + destruct Hcase2 as [[Hempty _]|[_ Hsame]].
      * rewrite Ht2 in Hempty. simpl in Hempty.
        destruct ts1; discriminate Hempty.
      * rewrite Ht2 in Hsame. injection Hsame as <-.
        rewrite length_app, Hlen1. reflexivity.
    + apply (f_equal (@List.length _)) in Hrows.
      rewrite length_fmap in Hrows. exact Hrows.
Qed.

Lemma with_fourth_task_ok :
  insert_task true 1700000200 fourth_task (db_file (snd (main sample_env fresh)))
  = Ok with_fourth_task.
Proof. vm_compute. reflexivity. Qed.

Lemma with_fourth_task_run_ok :
  main sample_env (boot true with_fourth_task
                     (files (snd (main sample_env fresh)))
                     (dirs (snd (main sample_env fresh))))
  = (Ok (), snd (main sample_env
                   (boot true with_fourth_task
                      (files (snd (main sample_env fresh)))
                      (dirs (snd (main sample_env fresh)))))).
Proof. vm_compute. reflexivity. Qed.

Lemma starter_tasks_only_into_empty_table_witness :
  main sample_env (boot false empty_database ∅ ∅)
    = (Ok (), snd (main sample_env fresh)) /\
  insert_task true 1700000200 fourth_task (db_file (snd (main sample_env fresh)))
    = Ok with_fourth_task /\
  List.length (default [] (tasks (db_file (snd (main sample_env
     (boot true with_fourth_task (files (snd (main sample_env fresh)))
        (dirs (snd (main sample_env fresh))))))))) = 4%nat /\
  List.length (default [] (categories (db_file (snd (main sample_env
     (boot true with_fourth_task (files (snd (main sample_env fresh)))
        (dirs (snd (main sample_env fresh))))))))) = 4%nat.
Proof.
  split; [exact fresh_run_ok|]. split; [exact with_fourth_task_ok|].
  exact (proj2 (proj2 starter_tasks_only_into_empty_table)
           sample_env sample_env ∅ ∅ _ true 1700000200 fourth_task _ _
           fresh_run_ok with_fourth_task_ok with_fourth_task_run_ok).
Defined.

(** ** C10: names up to case *)

Lemma nocase_eq_lower a b : nocase_eq a b = true <-> lower a = lower b.
Proof.
  revert b. induction a as [|x a IH]; intros [|y b]; simpl;
    try (split; [discriminate | discriminate]); [tauto|].
  rewrite andb_true_iff, Ascii.eqb_eq, IH. split.
  - intros [-> ->]. reflexivity.
  - intros [= -> ->]. auto.
Qed.

Lemma nocase_eq_via a b c :
  nocase_eq a b = true -> nocase_eq c b = nocase_eq c a.
Proof.
  intros Hab. apply nocase_eq_lower in Hab.
  destruct (nocase_eq c b) eqn:E1, (nocase_eq c a) eqn:E2; try reflexivity.
  - apply nocase_eq_lower in E1.
    assert (E : nocase_eq c a = true) by (apply nocase_eq_lower; congruence).
    congruence.
  - apply nocase_eq_lower in E2.
    assert (E : nocase_eq c b = true) by (apply nocase_eq_lower; congruence).
    congruence.
Qed.

Lemma find_named_taken name cs c :
  find (named name) cs = Some c -> name_taken name cs = true.
Proof.
  intros H. apply find_some in H. destruct H as [Hin Hn].
  unfold name_taken. apply existsb_exists. exists c. auto.
Qed.

Lemma find_app_found {A : Type} (p : A -> bool) (l l' : list A) x :
  find p l = Some x -> find p (l ++ l') = Some x.
Proof.
  induction l as [|y l IH]; simpl; [discriminate|].
  destruct (p y); auto.
Qed.

Lemma name_taken_via a b cs :
  nocase_eq a b = true -> name_taken b cs = name_taken a cs.
Proof.
  intros Hab. unfold name_taken. induction cs as [|c cs IH]; simpl; [reflexivity|].
  rewrite IH, (nocase_eq_via a b (cat_name c) Hab). reflexivity.
Qed.

(** The rows that seeding adds carry seed names that were free, so none
    of them goes by a name that was taken, in whatever case. *)
Lemma seed_rows_named name cs cs' :
  seed_rows seed_categories cs cs' -> name_taken name cs = true ->
  List.filter (named name) cs' = List.filter (named name) cs /\
  find (named name) cs' = find (named name) cs.
Proof.
  intros Hrows Htaken. apply seed_rows_grow in Hrows.
  destruct Hrows as (extra & -> & Hex).
  assert (Hnone : forall c, In c extra -> named name c = false).
  { intros c Hc. destruct (Hex c Hc) as (n & co & so & _ & Hfree & Hn & _).
    unfold named. rewrite Hn. destruct (nocase_eq n name) eqn:E; [|reflexivity].
    rewrite (name_taken_via n name cs E) in Htaken. congruence. }
  clear Hex. split.
  - rewrite List.filter_app.
    replace (List.filter (named name) extra) with (@nil category);
      [apply app_nil_r|].
    symmetry. induction extra as [|c extra IH]; simpl; [reflexivity|].
    rewrite (Hnone c (or_introl eq_refl)). apply IH.
    intros c' Hc'. apply Hnone. right. exact Hc'.
  - unfold name_taken in Htaken. apply existsb_exists in Htaken.
    destruct Htaken as (c & Hin & Hc).
    destruct (find (named name) cs) as [c0|] eqn:Hf.
    + apply find_app_found. exact Hf.
    + exfalso. pose proof (find_none _ _ Hf c Hin) as Hn.
      unfold named in Hn. congruence.
Qed.

(** C10.  Let a category exist whose name is a seed name up to the case
    of its letters.  Then a successful run adds no row for that name (the
    rows going by it, in whatever case, are the ones there were), the
    subselect on that name gives the id of the existing row, and when the
    starter tasks are inserted they carry the ids that the subselects on
    "Personal", "Work" and "Shopping" give. *)
Theorem seed_names_match_up_to_case e ex d f ds w' cs :
  categories d = Some cs ->
  main e (boot ex d f ds) = (Ok (), w') ->
  exists cs',
    categories (db_file w') = Some cs' /\
    (forall name color sort_order c,
        In (name, color, sort_order) seed_categories ->
        find (named name) cs = Some c ->
        List.filter (named name) cs' = List.filter (named name) cs /\
        select_category_id name (db_file w') = Some (cat_id c)) /\
    (default [] (tasks d) = [] ->
     exists t1 t2 t3,
       tasks (db_file w') = Some [t1; t2; t3] /\
       title t1 = "Welcome to Smart To-Do" /\
       category_id t1 = select_category_id "Personal" (db_file w') /\
       title t2 = "Plan your week" /\
       category_id t2 = select_category_id "Work" (db_file w') /\
       title t3 = "Buy groceries" /\
       category_id t3 = select_category_id "Shopping" (db_file w')).
Proof.
  intros Hcs Hm. apply main_ok_initialized, initialized_inv in Hm.
  destruct Hm as (cs0 & cs' & ts' & Hcs0 & Hcs' & Hrows & Hts' & Hcase).
  rewrite Hcs in Hcs0. simpl in Hcs0. subst cs0.
  exists cs'. split; [exact Hcs'|]. split.
  - intros name color sort_order c Hin Hfind.
    destruct (seed_rows_named name cs cs' Hrows (find_named_taken _ _ _ Hfind))
      as [Hfilter Hfind'].
    split; [exact Hfilter|].
    unfold select_category_id. rewrite Hcs'. simpl.
    change (cat_id <$> find (named name) cs' = Some (cat_id c)).
    rewrite Hfind', Hfind. reflexivity.
  - intros Hempty. destruct Hcase as [[_ Hst]|[Hne Hts]].
    + destruct Hst as (i1 & c1 & u1 & i2 & c2 & u2 & i3 & c3 & u3 & ->).
      do 3 eexists. split; [exact Hts'|]. simpl. auto 10.
    + rewrite Hts in Hempty. simpl in Hempty. contradiction.
Qed.

Lemma lower_case_run_ok :
  main sample_env (boot true with_lower_case_category ∅ ∅)
  = (Ok (), snd (main sample_env (boot true with_lower_case_category ∅ ∅))).
Proof. vm_compute. reflexivity. Qed.

Lemma seed_names_match_up_to_case_witness :
  categories with_lower_case_category
    = Some [ {| cat_id := 7; cat_name := "personal"; cat_color := None;
                cat_sort_order := 5; cat_created_at := 1690000000000;
                cat_updated_at := 1690000000000 |} ] /\
  main sample_env (boot true with_lower_case_category ∅ ∅)
    = (Ok (), snd (main sample_env (boot true with_lower_case_category ∅ ∅))) /\
  In ("Personal", "#10B981", 0) seed_categories /\
  find (named "Personal") (default [] (categories with_lower_case_category))
    = Some {| cat_id := 7; cat_name := "personal"; cat_color := None;
              cat_sort_order := 5; cat_created_at := 1690000000000;
              cat_updated_at := 1690000000000 |} /\
  select_category_id "Personal"
    (db_file (snd (main sample_env (boot true with_lower_case_category ∅ ∅))))
    = Some 7.
Proof.
  split; [reflexivity|]. split; [exact lower_case_run_ok|].
  split; [left; reflexivity|]. split; [reflexivity|].
  destruct (seed_names_match_up_to_case sample_env true with_lower_case_category
              ∅ ∅ _ _ eq_refl lower_case_run_ok) as (cs' & _ & Hnames & _).
  exact (proj2 (Hnames "Personal" "#10B981" 0 _ (or_introl eq_refl) eq_refl)).
Defined.

Example lower_case_category_is_reused :
  let d := db_file (snd (main sample_env (boot true with_lower_case_category ∅ ∅))) in
  cat_name <$> default [] (categories d) = ["personal"; "Work"; "Shopping"; "Health"]
  /\ (fun t => (title t, category_id t)) <$> default [] (tasks d)
     = [ ("Welcome to Smart To-Do", Some 7); ("Plan your week", Some 9);
         ("Buy groceries", Some 10) ].
Proof. vm_compute. split; reflexivity. Qed.

(** ** C4: the first run *)

(** C4.  In an empty directory, with nothing failing, whatever the clock
    and the working directory: the run succeeds, the last lines it prints
    report 2 tables, 4 categories and 3 tasks, and [categories] holds
    Personal, Work, Shopping and Health, in this order, with the sort
    orders 0, 1, 2 and 3 (and [tasks] three rows). *)
Theorem fresh_run_report (clk : nat -> Z) (cwd : string) :
  let w := snd (main (quiet clk cwd) fresh) in
  fst (main (quiet clk cwd) fresh) = Ok () /\
  skipn 13 (stdout w)
    = [ "  Tables: 2"; "  Categories: 4"; "  Tasks: 3";
        nl ++ "Script completed successfully." ] /\
  List.length (List.filter user_table (sqlite_master (db_file w))) = 2%nat /\
  (fun c => (cat_name c, cat_sort_order c)) <$> default [] (categories (db_file w))
    = [ ("Personal", 0); ("Work", 1); ("Shopping", 2); ("Health", 3) ] /\
  List.length (default [] (tasks (db_file w))) = 3%nat.
Proof. vm_compute. repeat split; reflexivity. Qed.

(** ** C8: the descriptor files *)

Lemma append_cons c a b : (String c a ++ b)%string = String c (a ++ b)%string.
Proof. reflexivity. Qed.

Lemma append_assoc a b c : ((a ++ b) ++ c)%string = (a ++ b ++ c)%string.
Proof.
  induction a as [|x a IH]; [reflexivity|].
  rewrite !append_cons, IH. reflexivity.
Qed.

Lemma has_char_append c a b :
  has_char c (a ++ b) = has_char c a || has_char c b.
Proof.
  induction a as [|x a IH]; [reflexivity|].
  rewrite append_cons. simpl. rewrite IH, orb_assoc. reflexivity.
Qed.

Lemma split_line c a rest :
  has_char c a = false -> split c (a ++ String c rest) = a :: split c rest.
Proof.
  induction a as [|x a IH]; intros H.
  - change (split c (String c rest) = "" :: split c rest). simpl.
    rewrite Ascii.eqb_refl. reflexivity.
  - rewrite append_cons. simpl in *. apply orb_false_iff in H. destruct H as [Hx Ha].
    rewrite Hx, (IH Ha). reflexivity.
Qed.

Lemma isabs_cons c rest : isabs (String c rest) = true <-> c = "/"%char.
Proof.
  unfold isabs.
  change (String.prefix "/" (String c rest))
    with (match ascii_dec "/" c with
          | left _ => String.prefix "" rest
          | right _ => false
          end).
  destruct (ascii_dec "/" c) as [<-|Hn].
  - split; [reflexivity|]. intros _. destruct rest; reflexivity.
  - split; [discriminate | congruence].
Qed.

Lemma split_unlines ls :
  Forall (fun l => has_char (ascii_of_N 10) l = false) ls ->
  split (ascii_of_N 10) (unlines ls) = (ls ++ [""])%list.
Proof.
  induction 1 as [|l ls Hl _ IH]; [reflexivity|].
  change (unlines (l :: ls)) with (l ++ String (ascii_of_N 10) (unlines ls))%string.
  rewrite (split_line _ _ _ Hl), IH. reflexivity.
Qed.

Lemma normpath_isabs path : isabs path = true -> isabs (normpath path) = true.
Proof.
  intros H. unfold normpath. destruct path as [|c rest]; [discriminate|].
  replace (String.eqb (String c rest) "") with false by reflexivity.
  unfold isabs in H. rewrite H.
  destruct (String.prefix "//" (String c rest) && _);
    match goal with
    | |- context [fold_left ?f ?l ?a] => generalize (fold_left f l a)
    end; intros comps; generalize (join_with "/" comps); intros body.
  - change ("//" ++ body)%string with (String "/" (String "/" body)).
    replace (String.eqb (String "/" (String "/" body)) "") with false by reflexivity.
    apply isabs_cons. reflexivity.
  - change ("/" ++ body)%string with (String "/" body).
    replace (String.eqb (String "/" body) "") with false by reflexivity.
    apply isabs_cons. reflexivity.
Qed.

Lemma abspath_isabs cwd p : isabs cwd = true -> isabs (abspath cwd p) = true.
Proof.
  intros Hcwd. unfold abspath. apply normpath_isabs.
  destruct (isabs p) eqn:Hp; [exact Hp|].
  unfold join. unfold isabs in Hp. rewrite Hp.
  destruct cwd as [|c cwd']; [discriminate|].
  apply isabs_cons in Hcwd. subst c.
  destruct (_ || _); rewrite append_cons; apply isabs_cons; reflexivity.
Qed.

Lemma split_nonempty c s : split c s <> [].
Proof.
  destruct s as [|x s]; simpl; [discriminate|].
  destruct (Ascii.eqb x c); [discriminate|]. destruct (split c s); discriminate.
Qed.

Lemma split_app_sep c a b :
  split c (a ++ String c b) = (split c a ++ split c b)%list.
Proof.
  induction a as [|x a IH].
  - change ("" ++ String c b)%string with (String c b). simpl.
    rewrite Ascii.eqb_refl. reflexivity.
  - rewrite append_cons. simpl. destruct (Ascii.eqb x c).
    + rewrite IH. reflexivity.
    + rewrite IH. pose proof (split_nonempty c a) as Hne.
      destruct (split c a) as [|y ys]; [contradiction|]. reflexivity.
Qed.

Lemma split_plain c n : has_char c n = false -> split c n = [n].
Proof.
  induction n as [|x n IH]; simpl; [reflexivity|].
  intros H. apply orb_false_iff in H. destruct H as [Hx Hn].
  rewrite Hx, (IH Hn). reflexivity.
Qed.

Lemma join_with_snoc sep l x :
  l <> [] -> join_with sep (l ++ [x]) = (join_with sep l ++ sep ++ x)%string.
Proof.
  induction l as [|a l IH]; [contradiction|]. intros _.
  destruct l as [|b l]; [reflexivity|].
  change (join_with sep ((a :: b :: l) ++ [x]))
    with (a ++ sep ++ join_with sep ((b :: l) ++ [x]))%string.
  rewrite IH by discriminate.
  change (join_with sep (a :: b :: l)) with (a ++ sep ++ join_with sep (b :: l))%string.
  rewrite !append_assoc. reflexivity.
Qed.

Lemma prefix_cons a b s1 s2 :
  String.prefix (String a s1) (String b s2) = Ascii.eqb a b && String.prefix s1 s2.
Proof.
  change (String.prefix (String a s1) (String b s2))
    with (if ascii_dec a b then String.prefix s1 s2 else false).
  destruct (ascii_dec a b) as [->|H].
  - rewrite Ascii.eqb_refl. reflexivity.
  - apply Ascii.eqb_neq in H. rewrite H. reflexivity.
Qed.

Lemma prefix_nil s : String.prefix "" s = true.
Proof. destruct s; reflexivity. Qed.

Lemma prefix_app cwd rest :
  isabs cwd = true -> endswith_slash cwd = false ->
  String.prefix "/" (cwd ++ rest) = true /\
  String.prefix "//" (cwd ++ rest) = String.prefix "//" cwd /\
  String.prefix "///" (cwd ++ rest) = String.prefix "///" cwd.
Proof.
  intros Habs Hend.
  destruct cwd as [|a cwd]; [discriminate Habs|]. apply isabs_cons in Habs. subst a.
  destruct cwd as [|b cwd]; [discriminate Hend|].
  destruct cwd as [|c cwd]; rewrite !append_cons, !prefix_cons.
  - simpl in Hend. rewrite Ascii.eqb_sym in Hend. rewrite Hend.
    rewrite Ascii.eqb_refl, ?prefix_nil. simpl. auto.
  - rewrite Ascii.eqb_refl, !prefix_nil. auto.
Qed.

Lemma normpath_child cwd n :
  isabs cwd = true -> normpath cwd = cwd -> endswith_slash cwd = false ->
  has_char "/" n = false -> n <> "" -> n <> "." -> n <> ".." ->
  normpath (cwd ++ "/" ++ n) = (cwd ++ "/" ++ n)%string.
Proof.
  intros Habs Hnorm Hend Hn H0 H1 H2.
  destruct (prefix_app cwd ("/" ++ n) Habs Hend) as (P1 & P2 & P3).
  unfold normpath in *. rewrite P1, P2, P3. unfold isabs in Habs. rewrite Habs in *.
  clear P1 P2 P3.
  set (k := if String.prefix "//" cwd && negb (String.prefix "///" cwd)
            then 2%nat else 1%nat) in *.
  assert (Hk : k = 1%nat \/ k = 2%nat) by (subst k; destruct (_ && _); auto).
  clearbody k.
  change ("/" ++ n)%string with (String "/" n).
  rewrite split_app_sep, (split_plain _ _ Hn), fold_left_app. cbn [fold_left].
  set (comps := fold_left (norm_step k) (split "/" cwd) []) in *. clearbody comps.
  assert (Hstep : norm_step k comps n = (comps ++ [n])%list).
  { unfold norm_step. apply String.eqb_neq in H0, H1, H2. rewrite H0, H1, H2.
    reflexivity. }
  rewrite Hstep.
  assert (Hne : (cwd =? "")%string = false) by (destruct cwd; [discriminate Habs|reflexivity]).
  assert (Hne' : (cwd ++ String "/" n =? "")%string = false).
  { destruct cwd; [discriminate Habs|]. rewrite append_cons. reflexivity. }
  rewrite Hne in Hnorm. rewrite Hne'.
  destruct Hk as [->| ->].
  - change ("/" ++ join_with "/" comps)%string
      with (String "/" (join_with "/" comps)) in Hnorm.
    change ("/" ++ join_with "/" (comps ++ [n]))%string
      with (String "/" (join_with "/" (comps ++ [n]))).
    cbn [String.eqb] in *. subst cwd.
    destruct comps as [|c0 comps]; [discriminate Hend|].
    rewrite join_with_snoc by discriminate. rewrite append_cons. reflexivity.
  - change ("//" ++ join_with "/" comps)%string
      with (String "/" (String "/" (join_with "/" comps))) in Hnorm.
    change ("//" ++ join_with "/" (comps ++ [n]))%string
      with (String "/" (String "/" (join_with "/" (comps ++ [n])))).
    cbn [String.eqb] in *. subst cwd.
    destruct comps as [|c0 comps]; [discriminate Hend|].
    rewrite join_with_snoc by discriminate. rewrite !append_cons. reflexivity.
Qed.

Lemma abspath_child cwd n :
  isabs cwd = true -> normpath cwd = cwd -> endswith_slash cwd = false ->
  has_char "/" n = false -> n <> "" -> n <> "." -> n <> ".." ->
  abspath cwd n = (cwd ++ "/" ++ n)%string.
Proof.
  intros Habs Hnorm Hend Hn H0 H1 H2.
  assert (Hrel : isabs n = false).
  { destruct n as [|c n]; [reflexivity|]. simpl in Hn.
    apply orb_false_iff in Hn. destruct Hn as [Hc _].
    destruct (isabs (String c n)) eqn:E; [|reflexivity].
    apply isabs_cons in E. subst c. discriminate Hc. }
  unfold abspath. rewrite Hrel. unfold join. unfold isabs in Hrel. rewrite Hrel.
  assert (Hne : (cwd =? "")%string = false)
    by (destruct cwd; [discriminate Habs|reflexivity]).
  rewrite Hne, Hend. simpl orb. cbv iota.
  apply normpath_child; assumption.
Qed.

Lemma split_slash_free c s :
  Forall (fun x => has_char c x = false) (split c s).
Proof.
  induction s as [|x s IH]; simpl.
  - constructor; [reflexivity|constructor].
  - destruct (Ascii.eqb x c) eqn:E; [constructor; [reflexivity|exact IH]|].
    destruct (split c s) as [|y ys]; [constructor; [|constructor]|].
    + simpl. rewrite E. reflexivity.
    + inversion IH as [|? ? Hy Hys]; subst. constructor; [|exact Hys].
      simpl. rewrite E. exact Hy.
Qed.

Lemma Forall_removelast {A : Type} (P : A -> Prop) (l : list A) :
  Forall P l -> Forall P (List.removelast l).
Proof.
  induction l as [|a l IH]; simpl; intros H; [constructor|].
  inversion H as [|? ? Ha Hl]; subst. destruct l; [constructor|].
  constructor; [exact Ha|]. apply IH. exact Hl.
Qed.

Lemma norm_step_clean k comps comp :
  Forall (fun x => x <> "" /\ has_char "/" x = false) comps ->
  has_char "/" comp = false ->
  Forall (fun x => x <> "" /\ has_char "/" x = false) (norm_step k comps comp).
Proof.
  intros Hc Hs. unfold norm_step.
  destruct (String.eqb comp "") eqn:E; [exact Hc|].
  destruct (String.eqb comp "."); [exact Hc|]. cbn [orb].
  destruct (_ || _).
  - apply Forall_app. split; [exact Hc|]. constructor; [|constructor].
    split; [|exact Hs]. apply String.eqb_neq. exact E.
  - apply Forall_removelast. exact Hc.
Qed.

Lemma fold_norm_clean k l acc :
  Forall (fun x => has_char "/" x = false) l ->
  Forall (fun x => x <> "" /\ has_char "/" x = false) acc ->
  Forall (fun x => x <> "" /\ has_char "/" x = false)
         (fold_left (norm_step k) l acc).
Proof.
  revert acc. induction l as [|c l IH]; intros acc Hl Hacc; simpl; [exact Hacc|].
  inversion Hl as [|? ? Hc Hl']; subst.
  apply IH; [exact Hl'|]. apply norm_step_clean; assumption.
Qed.

Lemma endswith_slash_cons x s :
  s <> "" -> endswith_slash (String x s) = endswith_slash s.
Proof. destruct s; [contradiction|reflexivity]. Qed.

Lemma append_empty a b : (a ++ b)%string = "" -> b = "".
Proof.
  destruct a as [|x a]; [intros H; exact H|]. rewrite append_cons. discriminate.
Qed.

Lemma endswith_slash_app a b :
  b <> "" -> endswith_slash (a ++ b) = endswith_slash b.
Proof.
  intros Hb. induction a as [|x a IH]; [reflexivity|].
  rewrite append_cons, endswith_slash_cons; [exact IH|].
  intros H. apply append_empty in H. contradiction.
Qed.

Lemma clean_no_end x :
  x <> "" -> has_char "/" x = false -> endswith_slash x = false.
Proof.
  induction x as [|c x IH]; [contradiction|]. intros _ H. simpl in H.
  apply orb_false_iff in H. destruct H as [Hc Hx].
  destruct x as [|c' x]; [exact Hc|].
  rewrite endswith_slash_cons by discriminate. apply IH; [discriminate|exact Hx].
Qed.

Lemma join_with_clean comps :
  comps <> [] -> Forall (fun x => x <> "" /\ has_char "/" x = false) comps ->
  join_with "/" comps <> "" /\ endswith_slash (join_with "/" comps) = false.
Proof.
  induction comps as [|c comps IH]; [contradiction|]. intros _ H.
  inversion H as [|? ? [Hc1 Hc2] Hrest]; subst.
  destruct comps as [|c2 comps].
  - simpl. split; [exact Hc1|]. apply clean_no_end; assumption.
  - destruct (IH ltac:(discriminate) Hrest) as [Hne Hend].
    change (join_with "/" (c :: c2 :: comps))
      with (c ++ String "/" (join_with "/" (c2 :: comps)))%string.
    split.
    + intros E. apply append_empty in E. discriminate E.
    + rewrite endswith_slash_app by discriminate.
      rewrite endswith_slash_cons by exact Hne. exact Hend.
Qed.

(** An absolute path in normal form ends in a slash only when it is the
    root (which POSIX lets be written with two slashes). *)
Lemma normal_root cwd :
  isabs cwd = true -> normpath cwd = cwd -> endswith_slash cwd = true ->
  cwd = "/" \/ cwd = "//".
Proof.
  intros Habs Hnorm Hend. unfold normpath in Hnorm. unfold isabs in Habs.
  rewrite Habs in Hnorm.
  assert (Hne : (cwd =? "")%string = false)
    by (destruct cwd; [discriminate Habs|reflexivity]).
  rewrite Hne in Hnorm.
  set (k := if String.prefix "//" cwd && negb (String.prefix "///" cwd)
            then 2%nat else 1%nat) in *.
  assert (Hk : k = 1%nat \/ k = 2%nat) by (subst k; destruct (_ && _); auto).
  clearbody k.
  assert (Hclean : Forall (fun x => x <> "" /\ has_char "/" x = false)
                          (fold_left (norm_step k) (split "/" cwd) [])).
  { apply fold_norm_clean; [apply split_slash_free|constructor]. }
  set (comps := fold_left (norm_step k) (split "/" cwd) []) in *. clearbody comps.
  destruct comps as [|c0 comps].
  - destruct Hk as [->| ->]; simpl in Hnorm; subst cwd; auto.
  - exfalso.
    destruct (join_with_clean (c0 :: comps) ltac:(discriminate) Hclean) as [Hj He].
    destruct Hk as [->| ->].
    + change ("/" ++ join_with "/" (c0 :: comps))%string
        with (String "/" (join_with "/" (c0 :: comps))) in Hnorm.
      cbn [String.eqb] in Hnorm. subst cwd.
      rewrite endswith_slash_cons in Hend by exact Hj. congruence.
    + change ("//" ++ join_with "/" (c0 :: comps))%string
        with (String "/" (String "/" (join_with "/" (c0 :: comps)))) in Hnorm.
      cbn [String.eqb] in Hnorm. subst cwd.
      rewrite !endswith_slash_cons in Hend by (exact Hj || discriminate).
      congruence.
Qed.

(** The absolute path of the database, for a working directory that is
    an absolute path in normal form, as [os.getcwd] returns it. *)
Lemma abspath_db cwd :
  isabs cwd = true -> normpath cwd = cwd ->
  abspath cwd DB_NAME
  = (cwd ++ (if endswith_slash cwd then "myapp.db" else "/myapp.db"))%string.
Proof.
  intros Habs Hnorm. destruct (endswith_slash cwd) eqn:Hend.
  - destruct (normal_root cwd Habs Hnorm Hend) as [->| ->]; vm_compute; reflexivity.
  - apply (abspath_child cwd DB_NAME Habs Hnorm Hend);
      [reflexivity | discriminate | discriminate | discriminate].
Qed.

Lemma bind_ok_inv {A B : Type} (m : M A) (k : A -> M B) w b w' :
  bind m k w = (Ok b, w') ->
  exists a w1, m w = (Ok a, w1) /\ k a w1 = (Ok b, w').
Proof.
  unfold bind. destruct (m w) as [[a|x] w1]; [eauto | discriminate].
Qed.

Lemma open_w_ok p w w' :
  open_w p w = (Ok (), w') ->
  files w' = <[p := ""]> (files w) /\ dirs w' = dirs w.
Proof.
  unfold open_w. destruct (decide _); [discriminate|].
  destruct (_ && _); [discriminate|]. intros [= <-]. auto.
Qed.

Lemma write_ok p t w w' :
  write p t w = (Ok (), w') ->
  files w' = <[p := (default "" (files w !! p) ++ t)%string]> (files w) /\
  dirs w' = dirs w.
Proof. unfold write. intros [= <-]. auto. Qed.

Lemma makedirs_ok name w w' :
  makedirs name w = (Ok (), w') -> files w' = files w /\ name ∈ dirs w'.
Proof.
  unfold makedirs. destruct (decide (name ∈ dirs w)) as [Hin|Hout].
  - intros [= <-]. auto.
  - destruct (decide _); [discriminate|]. intros [= <-]. simpl.
    split; [reflexivity | set_solver].
Qed.

Lemma _write_connection_files_ok e w w' :
  _write_connection_files e DB_NAME w = (Ok (), w') ->
  files w' !! "db_connection.txt" = Some (unlines (text_lines (getcwd e))) /\
  files w' !! "db_visualizer/sqlite.env" = Some (unlines [env_line (getcwd e)]) /\
  "db_visualizer" ∈ dirs w'.
Proof.
  unfold _write_connection_files.
  assert (Hne : "db_visualizer/sqlite.env" <> "db_connection.txt") by discriminate.
  revert Hne.
  generalize "db_connection.txt" as txt, "db_visualizer/sqlite.env" as envf,
             "db_visualizer" as dir.
  intros txt envf dir Hne H.
  apply bind_ok_inv in H. destruct H as ([] & w1 & H1 & H).
  apply bind_ok_inv in H. destruct H as ([] & w2 & H2 & H).
  apply bind_ok_inv in H. destruct H as ([] & w3 & H3 & H).
  apply bind_ok_inv in H. destruct H as ([] & w4 & H4 & H).
  apply bind_ok_inv in H. destruct H as ([] & w5 & H5 & H).
  apply bind_ok_inv in H. destruct H as ([] & w6 & H6 & H).
  apply bind_ok_inv in H. destruct H as ([] & w7 & H7 & H8).
  apply open_w_ok in H1, H7. apply write_ok in H2, H3, H4, H5, H8.
  apply makedirs_ok in H6.
  destruct H1 as [F1 D1], H2 as [F2 D2], H3 as [F3 D3], H4 as [F4 D4],
           H5 as [F5 D5], H6 as [F6 D6], H7 as [F7 D7], H8 as [F8 D8].
  assert (L1 : files w1 !! txt = Some "") by (rewrite F1; apply lookup_insert_eq).
  rewrite L1 in F2.
  assert (L2 : files w2 !! txt = Some _) by (rewrite F2; apply lookup_insert_eq).
  rewrite L2 in F3.
  assert (L3 : files w3 !! txt = Some _) by (rewrite F3; apply lookup_insert_eq).
  rewrite L3 in F4.
  assert (L4 : files w4 !! txt = Some _) by (rewrite F4; apply lookup_insert_eq).
  rewrite L4 in F5.
  assert (L5 : files w5 !! txt = Some _) by (rewrite F5; apply lookup_insert_eq).
  assert (L7 : files w7 !! envf = Some "") by (rewrite F7; apply lookup_insert_eq).
  rewrite L7 in F8.
  split; [|split].
  - rewrite F8, lookup_insert_ne, F7, lookup_insert_ne, F6, L5 by exact Hne.
    f_equal. unfold connection_string, DB_NAME, unlines, text_lines.
    cbn [from_option id fold_right]. rewrite !append_assoc. reflexivity.
  - rewrite F8, lookup_insert_eq. f_equal.
    unfold unlines, env_line, DB_NAME. cbn [from_option id fold_right].
    rewrite !append_assoc. reflexivity.
  - rewrite D8, D7. exact D6.
Qed.

Lemma keeps_run {A X : Type} (proj : world -> X) (m : M A) w r w' :
  keeps proj m -> m w = (r, w') -> proj w' = proj w.
Proof. intros H Hm. exact (H _ _ _ Hm). Qed.

Lemma main_ok_writes e w w' :
  main e w = (Ok (), w') ->
  exists w1 w2,
    _write_connection_files e DB_NAME w1 = (Ok (), w2) /\
    files w' = files w2 /\ dirs w' = dirs w2.
Proof.
  unfold main. intros H.
  apply bind_ok_inv in H. destruct H as (? & ? & _ & H).
  apply bind_ok_inv in H. destruct H as (? & ? & _ & H).
  apply bind_ok_inv in H. destruct H as (? & ? & _ & H).
  apply bind_ok_inv in H. destruct H as (? & ? & _ & H).
  apply bind_ok_inv in H. destruct H as ([[tc cc] kc] & w1 & _ & H).
  apply bind_ok_inv in H. destruct H as ([] & w2 & Hw & H).
  exists w1, w2. split; [exact Hw|]. split.
  - eapply keeps_run; [|exact H]. auto 30 with keeps.
  - eapply keeps_run; [|exact H]. auto 30 with keeps.
Qed.

(** C8.  A run that succeeds leaves, whatever the two files held before:
    in db_connection.txt the four lines of [text_lines], the third of
    which is the connection string sqlite:///<cwd>/myapp.db; in
    db_visualizer/sqlite.env the one line that exports SQLITE_DB, set to
    the absolute path of myapp.db; and the directory db_visualizer.  When
    the working directory has no line feed in its name, cutting the text
    descriptor at the line feeds gives the four lines and nothing more.
    The exported path is the path of the database file itself: for a
    working directory that is an absolute path in normal form, as
    [os.getcwd] returns it, it is <cwd>/myapp.db, and /myapp.db in the
    root, and the line in the file is the one that exports just that. *)
Theorem descriptors_rewritten e ex d f ds w' :
  main e (boot ex d f ds) = (Ok (), w') ->
  files w' !! "db_connection.txt" = Some (unlines (text_lines (getcwd e))) /\
  files w' !! "db_visualizer/sqlite.env" = Some (unlines [env_line (getcwd e)]) /\
  "db_visualizer" ∈ dirs w' /\
  nth_error (text_lines (getcwd e)) 2
    = Some ("# Connection string: " ++ "sqlite:///" ++ getcwd e ++ "/myapp.db")%string /\
  (has_char (ascii_of_N 10) (getcwd e) = false ->
   split (ascii_of_N 10) (unlines (text_lines (getcwd e)))
   = (text_lines (getcwd e) ++ [""])%list) /\
  (isabs (getcwd e) = true -> isabs (abspath (getcwd e) DB_NAME) = true) /\
  (isabs (getcwd e) = true -> normpath (getcwd e) = getcwd e ->
   abspath (getcwd e) DB_NAME
   = (getcwd e
      ++ (if endswith_slash (getcwd e) then "myapp.db" else "/myapp.db"))%string /\
   files w' !! "db_visualizer/sqlite.env"
   = Some (unlines
             [ "export SQLITE_DB=" ++ dquote
               ++ (getcwd e
                   ++ (if endswith_slash (getcwd e)
                       then "myapp.db" else "/myapp.db"))
               ++ dquote ]%string)).
Proof.
  intros Hm. apply main_ok_writes in Hm. destruct Hm as (w1 & w2 & Hw & Hf & Hd).
  apply _write_connection_files_ok in Hw. destruct Hw as (H1 & H2 & H3).
  rewrite Hf, Hd. repeat (split; [assumption|]). split; [reflexivity|].
  split; [|split].
  - intros Hnl. apply split_unlines. unfold text_lines.
    repeat constructor; rewrite ?has_char_append, ?Hnl; reflexivity.
  - apply abspath_isabs.
  - intros Habs Hnorm. pose proof (abspath_db (getcwd e) Habs Hnorm) as Hp.
    split; [exact Hp|]. rewrite H2. unfold env_line.
    change "myapp.db" with DB_NAME at 1. rewrite Hp. reflexivity.
Qed.

Lemma descriptors_rewritten_witness :
  main sample_env fresh = (Ok (), snd (main sample_env fresh)) /\
  has_char (ascii_of_N 10) (getcwd sample_env) = false /\
  isabs (getcwd sample_env) = true /\
  normpath (getcwd sample_env) = getcwd sample_env /\
  files (snd (main sample_env fresh)) !! "db_connection.txt"
    = Some (unlines (text_lines "/app/database")) /\
  files (snd (main sample_env fresh)) !! "db_visualizer/sqlite.env"
    = Some (unlines [env_line "/app/database"]) /\
  split (ascii_of_N 10) (unlines (text_lines "/app/database"))
    = (text_lines "/app/database" ++ [""])%list /\
  isabs (abspath "/app/database" DB_NAME) = true /\
  abspath "/app/database" DB_NAME = "/app/database/myapp.db" /\
  files (snd (main sample_env fresh)) !! "db_visualizer/sqlite.env"
    = Some (unlines [ "export SQLITE_DB=" ++ dquote ++ "/app/database/myapp.db"
                      ++ dquote ]%string).
Proof.
  assert (Hn : normpath (getcwd sample_env) = getcwd sample_env)
    by (vm_compute; reflexivity).
  split; [exact fresh_run_ok|]. split; [reflexivity|]. split; [reflexivity|].
  split; [exact Hn|].
  destruct (descriptors_rewritten sample_env false empty_database ∅ ∅ _ fresh_run_ok)
    as (H1 & H2 & _ & _ & H5 & H6 & H7).
  split; [exact H1|]. split; [exact H2|].
  split; [exact (H5 eq_refl)|]. split; [exact (H6 eq_refl)|].
  exact (H7 eq_refl Hn).
Defined.

Example sample_descriptors :
  text_lines "/app/database"
  = [ "# SQLite connection methods:";
      "# Python: sqlite3.connect('myapp.db')";
      "# Connection string: sqlite:////app/database/myapp.db";
      "# File path: /app/database/myapp.db" ]
  /\ env_line "/app/database"
     = ("export SQLITE_DB=" ++ dquote ++ "/app/database/myapp.db" ++ dquote)%string.
Proof. split; reflexivity. Qed.

(** ** C9: the handle *)

Lemma logs_ret {A : Type} P (a : A) : logs P (ret a).
Proof. intros w r w' [= <- <-]. exists []. split; [reflexivity | constructor]. Qed.

Lemma logs_raise {A : Type} P x : logs P (@raise A x).
Proof. intros w r w' [= <- <-]. exists []. split; [reflexivity | constructor]. Qed.

Lemma logs_bind {A B : Type} P (m : M A) (k : A -> M B) :
  logs P m -> (forall a, logs P (k a)) -> logs P (bind m k).
Proof.
  intros Hm Hk w r w'. unfold bind.
  destruct (m w) as [[a|x] w1] eqn:E1; destruct (Hm _ _ _ E1) as (evs1 & L1 & F1).
  - intros E2. destruct (Hk _ _ _ _ E2) as (evs2 & L2 & F2).
    exists (evs2 ++ evs1)%list. rewrite L2, L1, app_assoc.
    split; [reflexivity | apply Forall_app; auto].
  - intros [= <- <-]. eauto.
Qed.

Lemma logs_if {A : Type} P (b : bool) (m1 m2 : M A) :
  logs P m1 -> logs P m2 -> logs P (if b then m1 else m2).
Proof. destruct b; auto. Qed.

Lemma logs_keeps {A : Type} P (m : M A) : keeps log m -> logs P m.
Proof.
  intros H w r w' Hm. exists []. split; [exact (H _ _ _ Hm) | constructor].
Qed.

Lemma logs_fetchone_0 P r : logs P (fetchone_0 r).
Proof. destruct r; [apply logs_ret | apply logs_raise]. Qed.

Lemma logs_execute e s : logs db_event (execute e s).
Proof.
  intros w r w' H. apply execute_inv in H. destruct H as (_ & _ & _ & _ & H).
  destruct (conn w) as [c|].
  - destruct r as [a|x].
    + destruct H as (v & n & fk & _ & _ & _ & L). exists [Executed s].
      split; [exact L | repeat constructor].
    + destruct H as (_ & L & _). exists []. split; [exact L | constructor].
  - destruct H as (_ & _ & L & _). exists []. split; [exact L | constructor].
Qed.

Lemma logs_commit e : logs db_event (commit e).
Proof.
  intros w r w' H. apply commit_inv in H. destruct H as (_ & _ & _ & _ & H).
  destruct (conn w) as [c|].
  - destruct r as [a|x].
    + destruct H as (_ & _ & L). exists [Committed].
      split; [exact L | repeat constructor].
    + destruct H as (_ & L & _). exists []. split; [exact L | constructor].
  - destruct H as (_ & _ & L & _). exists []. split; [exact L | constructor].
Qed.

Lemma logs_for_each {A : Type} P (l : list A) (body : A -> M unit) :
  (forall x, logs P (body x)) -> logs P (for_each l body).
Proof.
  intros H. induction l as [|x l' IH]; simpl.
  - apply logs_ret.
  - apply logs_bind; auto.
Qed.

Create HintDb logs.
#[local] Hint Resolve logs_ret logs_raise logs_bind logs_if logs_fetchone_0
  logs_execute logs_commit : logs.

Lemma logs_main_body e : logs db_event (main_body e).
Proof.
  unfold main_body, _create_schema, _seed_data.
  repeat (apply logs_bind; [|intros ?]); auto with logs.
Qed.

Lemma logs_file_op {A : Type} (m : M A) :
  (forall w r w', m w = (r, w') -> log w' = log w \/ exists ev, log w' = ev :: log w) ->
  logs any_event m.
Proof.
  intros H w r w' Hm. destruct (H _ _ _ Hm) as [L|[ev L]].
  - exists []. split; [exact L | constructor].
  - exists [ev]. split; [exact L | repeat constructor].
Qed.

Lemma logs_open_w p : logs any_event (open_w p).
Proof.
  apply logs_file_op. intros w r w'. unfold open_w.
  destruct (decide _); [intros [= <- <-]; auto|].
  destruct (_ && _); intros [= <- <-]; simpl; eauto.
Qed.

Lemma logs_write p t : logs any_event (write p t).
Proof.
  apply logs_file_op. intros w r w'. unfold write. intros [= <- <-]. simpl. eauto.
Qed.

Lemma logs_makedirs p : logs any_event (makedirs p).
Proof.
  apply logs_file_op. intros w r w'. unfold makedirs.
  destruct (decide _); [intros [= <- <-]; auto|].
  destruct (decide _); intros [= <- <-]; simpl; eauto.
Qed.

Lemma logs_print s : logs any_event (print s).
Proof. apply logs_keeps. auto with keeps. Qed.

#[local] Hint Resolve logs_open_w logs_write logs_makedirs logs_print : logs.

Lemma orderly_db lg : Forall db_event lg -> orderly lg.
Proof.
  induction 1 as [|ev lg Hev _ IH]; simpl; [exact Logic.I|].
  split; [|exact IH]. destruct ev; simpl in *; try discriminate; contradiction.
Qed.

Lemma orderly_app evs lg :
  orderly lg -> In Closed lg -> orderly (evs ++ lg).
Proof.
  intros Ho Hc. induction evs as [|ev evs IH]; simpl; [exact Ho|].
  split; [|exact IH]. intros _. apply in_or_app. right. exact Hc.
Qed.

Lemma closed_orderly_kept {A : Type} (m : M A) :
  keeps conn m -> logs any_event m ->
  triple closed_orderly m (fun _ => closed_orderly) closed_orderly.
Proof.
  intros Hk Hl w (Hc & Hin & Ho).
  destruct (m w) as [r w'] eqn:E.
  destruct (Hl _ _ _ E) as (evs & L & _).
  assert (H : closed_orderly w').
  { split; [rewrite (Hk _ _ _ E); exact Hc|]. rewrite L. split.
    - apply in_or_app. right. exact Hin.
    - apply orderly_app; assumption. }
  destruct r; exact H.
Qed.

Lemma _connect_log e p :
  triple (fun w => log w = []) (_connect e p)
         (fun _ w => Forall db_event (log w)) never_connected.
Proof.
  intros w Hw. unfold _connect, bind.
  destruct (sqlite3_connect e p w) as [[[]|x] w1] eqn:E1.
  - assert (L1 : log w1 = [Connected]).
    { revert E1. unfold sqlite3_connect, bind.
      destruct (engine_call e w) as [[n|y] w0] eqn:E0; [|discriminate].
      apply engine_call_inv in E0. destruct E0 as (_ & _ & _ & _ & _ & _ & L0 & _).
      intros [= <-]. simpl. rewrite L0, Hw. reflexivity. }
    destruct (execute e PRAGMA_foreign_keys_ON w1) as [[a|x] w2] eqn:E2.
    + destruct (logs_execute _ _ _ _ _ E2) as (evs & L2 & F2). simpl.
      rewrite L2, L1. apply Forall_app. split; [exact F2 | repeat constructor].
    + apply execute_inv in E2. destruct E2 as (_ & _ & _ & _ & E2).
      assert (L2 : log w2 = log w1).
      { destruct (conn w1); [destruct E2 as (_ & L & _) | destruct E2 as (_ & _ & L & _)];
          exact L. }
      split; rewrite L2, L1; [repeat constructor|].
      intros [H|[]]. discriminate H.
  - assert (L1 : log w1 = []).
    { revert E1. unfold sqlite3_connect, bind.
      destruct (engine_call e w) as [[n|y] w0] eqn:E0; [discriminate|].
      apply engine_call_inv in E0. destruct E0 as (_ & _ & _ & _ & _ & _ & L0 & _).
      intros [= _ <-]. rewrite L0. exact Hw. }
    split; rewrite L1; [constructor | intros []].
Qed.

Lemma main_body_closed e :
  triple (fun w => Forall db_event (log w)) (try_finally (main_body e) close)
         (fun _ => closed_orderly) closed_orderly.
Proof.
  apply triple_finally with (Q := fun _ w => Forall db_event (log w))
                            (E := fun w => Forall db_event (log w)).
  - intros w Hw. destruct (main_body e w) as [r w1] eqn:E.
    destruct (logs_main_body _ _ _ _ E) as (evs & L & F).
    assert (H : Forall db_event (log w1))
      by (rewrite L; apply Forall_app; split; assumption).
    destruct r; exact H.
  - intros a w Hw. simpl. split; [reflexivity|]. split; [left; reflexivity|].
    split; [discriminate | apply orderly_db; exact Hw].
  - intros w Hw. simpl. split; [reflexivity|]. split; [left; reflexivity|].
    split; [discriminate | apply orderly_db; exact Hw].
Qed.

Lemma main_at_exit e :
  triple (fun w => log w = []) (main e) (fun _ => closed_orderly) at_exit.
Proof.
  assert (Hnil : forall w, log w = [] -> at_exit w).
  { intros w Hw. right. split; rewrite Hw; [constructor | intros []]. }
  unfold main.
  eapply triple_bind;
    [ eapply triple_conseq;
      [apply (keeps_triple log _ (fun l => l = [])); auto with keeps
      | auto | intros ? ? H; exact H | exact Hnil ]
    | intros ? ].
  eapply triple_bind;
    [ eapply triple_conseq;
      [apply (keeps_triple log _ (fun l => l = [])); auto with keeps
      | auto | intros ? ? H; exact H | exact Hnil ]
    | intros b ].
  eapply triple_bind;
    [ eapply triple_conseq;
      [apply (keeps_triple log _ (fun l => l = [])); destruct b; auto with keeps
      | auto | intros ? ? H; exact H | exact Hnil ]
    | intros ? ].
  eapply triple_bind;
    [ eapply triple_conseq;
      [apply _connect_log | auto | intros ? ? H; exact H | intros w H; right; exact H]
    | intros ? ].
  eapply triple_bind;
    [ eapply triple_conseq;
      [apply main_body_closed | auto | intros ? ? H; exact H | intros w H; left; exact H]
    | intros [[tc cc] kc] ].
  eapply triple_conseq;
    [ apply closed_orderly_kept
    | auto | intros ? ? H; exact H | intros w H; left; exact H ].
  - auto 30 with keeps.
  - unfold _write_connection_files.
    repeat (apply logs_bind; [|intros ?]); auto with logs.
Qed.

(** C9.  However a run ends: in its log every event of the file system
    (opening, writing, making the directory) comes after a [Closed]; if
    [_connect] returned (its PRAGMA is in the log) the handle is closed
    when [main] is left, by return or by exception; and it is closed
    whenever [main] returns. *)
Theorem handle_closed_before_descriptors e ex d f ds r w' :
  main e (boot ex d f ds) = (r, w') ->
  orderly (log w') /\
  (In (Executed PRAGMA_foreign_keys_ON) (log w') ->
   conn w' = None /\ In Closed (log w')) /\
  (r = Ok () -> conn w' = None).
Proof.
  intros Hm.
  pose proof (triple_run _ _ _ _ _ _ _ (main_at_exit e)
                (eq_refl : log (boot ex d f ds) = []) Hm) as H.
  assert (Hexit : at_exit w') by (destruct r; [left|]; exact H).
  split; [|split].
  - destruct Hexit as [(_ & _ & Ho)|[Hdb _]]; [exact Ho | apply orderly_db; exact Hdb].
  - intros Hp. destruct Hexit as [(Hc & Hin & _)|[_ Hn]]; [auto | contradiction].
  - intros ->. destruct H as (Hc & _). exact Hc.
Qed.

Lemma failing_run :
  main failing_env fresh
  = (Raise (OperationalError "disk I/O error"), snd (main failing_env fresh)).
Proof. vm_compute. reflexivity. Qed.

Lemma handle_closed_before_descriptors_witness :
  main failing_env fresh
    = (Raise (OperationalError "disk I/O error"), snd (main failing_env fresh)) /\
  In (Executed PRAGMA_foreign_keys_ON) (log (snd (main failing_env fresh))) /\
  conn (snd (main failing_env fresh)) = None /\
  In Closed (log (snd (main failing_env fresh))).
Proof.
  split; [exact failing_run|].
  assert (Hp : In (Executed PRAGMA_foreign_keys_ON) (log (snd (main failing_env fresh))))
    by (vm_compute; tauto).
  split; [exact Hp|].
  exact (proj1 (proj2 (handle_closed_before_descriptors failing_env false
                         empty_database ∅ ∅ _ _ failing_run)) Hp).
Defined.

(** ** C3: what a failed run leaves in the file *)

Lemma uncommitted_neutral {A : Type} d0 (m : M A) :
  keeps db_file m -> keeps conn m -> logs any_event m ->
  triple (uncommitted d0) m (fun _ => uncommitted d0) (uncommitted d0).
Proof.
  intros Hd Hc Hl w Hw. destruct (m w) as [r w'] eqn:E.
  assert (H : uncommitted d0 w').
  { intros Hn. destruct (Hl _ _ _ E) as (evs & L & _).
    rewrite (Hd _ _ _ E), (Hc _ _ _ E). apply Hw.
    intros Hin. apply Hn. rewrite L. apply in_or_app. right. exact Hin. }
  destruct r; exact H.
Qed.

Lemma uncommitted_execute d0 e s :
  triple (uncommitted d0) (execute e s) (fun _ => uncommitted d0) (uncommitted d0).
Proof.
  intros w Hw. destruct (execute e s w) as [r w'] eqn:E.
  apply execute_inv in E. destruct E as (_ & _ & _ & _ & E).
  destruct (conn w) as [c|] eqn:Hc.
  - destruct r as [a|x].
    + destruct E as (v & n & fk & Hr & Hc' & Hf & L).
      intros Hn. rewrite L in Hn.
      destruct Hw as [Hrows Hco]; [intros Hin; apply Hn; right; exact Hin|].
      rewrite Hf, Hc'.
      destruct (in_transaction c) eqn:Htx; simpl.
      * split; [exact Hrows|]. intros c' [= <-]. simpl. discriminate.
      * destruct (is_dml s) eqn:Hdml.
        -- split; [exact Hrows|]. intros c' [= <-]. simpl. discriminate.
        -- apply run_not_dml in Hr; [|exact Hdml]. destruct Hr as (Hr & _).
           rewrite (Hco c Hc Htx) in Hr.
           split; [congruence|]. intros c' [= <-] _. reflexivity.
    + destruct E as (Hf & L & c' & Hc' & Hv & _ & Htx).
      intros Hn. rewrite L in Hn. destruct (Hw Hn) as [Hrows Hco].
      rewrite Hf. split; [exact Hrows|].
      intros c''. rewrite Hc'. intros [= <-] Htx'. rewrite Hv.
      apply (Hco c Hc).
      destruct Htx as [Htx|Htx]; rewrite Htx in Htx'; [exact Htx'|].
      apply orb_false_iff in Htx'. tauto.
  - destruct E as (Hc' & Hf & L & _).
    assert (H : uncommitted d0 w').
    { intros Hn. rewrite L in Hn. destruct (Hw Hn) as [Hrows Hco].
      rewrite Hf, Hc'. split; [exact Hrows | discriminate]. }
    destruct r; exact H.
Qed.

Lemma uncommitted_commit d0 e :
  triple (uncommitted d0) (commit e) (fun _ => uncommitted d0) (uncommitted d0).
Proof.
  intros w Hw. destruct (commit e w) as [r w'] eqn:E.
  apply commit_inv in E. destruct E as (_ & _ & _ & _ & E).
  destruct (conn w) as [c|] eqn:Hc.
  - destruct r as [a|x].
    + destruct E as (_ & _ & L). intros Hn. exfalso. apply Hn. rewrite L.
      left. reflexivity.
    + destruct E as (Hf & L & Hc'). intros Hn. rewrite L in Hn.
      destruct (Hw Hn) as [Hrows Hco]. rewrite Hf, Hc'.
      split; [exact Hrows|]. intros c' [= <-]. apply (Hco c Hc).
  - destruct E as (Hc' & Hf & L & _).
    assert (H : uncommitted d0 w').
    { intros Hn. rewrite L in Hn. destruct (Hw Hn) as [Hrows Hco].
      rewrite Hf, Hc'. split; [exact Hrows | discriminate]. }
    destruct r; exact H.
Qed.

Lemma uncommitted_close d0 :
  triple (uncommitted d0) close (fun _ => uncommitted d0) (uncommitted d0).
Proof.
  intros w Hw. simpl. intros Hn. destruct Hw as [Hrows _].
  - intros Hin. apply Hn. right. exact Hin.
  - split; [exact Hrows | discriminate].
Qed.

Lemma uncommitted_connect d0 e p :
  triple (uncommitted d0) (sqlite3_connect e p)
         (fun _ => uncommitted d0) (uncommitted d0).
Proof.
  intros w Hw. unfold sqlite3_connect, bind.
  destruct (engine_call e w) as [[n|x] w1] eqn:E; apply engine_call_inv in E;
    destruct E as (_ & E2 & E3 & _ & _ & _ & L & _).
  - simpl. intros Hn. rewrite L in Hn. destruct Hw as [Hrows _].
    + intros Hin. apply Hn. right. exact Hin.
    + rewrite E2. split; [exact Hrows|]. intros c [= <-] _. reflexivity.
  - intros Hn. rewrite L in Hn. rewrite E2, E3. exact (Hw Hn).
Qed.

Lemma logs__write_connection_files e p :
  logs any_event (_write_connection_files e p).
Proof.
  unfold _write_connection_files.
  repeat (apply logs_bind; [|intros ?]); auto with logs.
Qed.

#[local] Hint Resolve logs__write_connection_files : logs.

Lemma logs_path_exists_db P : logs P path_exists_db.
Proof. apply logs_keeps. auto with keeps. Qed.

#[local] Hint Resolve logs_path_exists_db : logs.

Lemma main_uncommitted d0 e :
  triple (uncommitted d0) (main e) (fun _ => uncommitted d0) (uncommitted d0).
Proof.
  unfold main, _connect, main_body, _create_schema, _seed_data, seed_categories.
  cbn [for_each].
  repeat match goal with
    | |- triple _ (bind _ _) _ _ =>
        eapply triple_bind with (Q := fun _ => uncommitted d0); [ | intros ? ]
    | |- triple _ (execute _ _) _ _ => apply uncommitted_execute
    | |- triple _ (commit _) _ _ => apply uncommitted_commit
    | |- triple _ close _ _ => apply uncommitted_close
    | |- triple _ (sqlite3_connect _ _) _ _ => apply uncommitted_connect
    | |- triple _ (try_finally _ _) _ _ =>
        apply triple_finally with (Q := fun _ => uncommitted d0) (E := uncommitted d0);
        [ | intros ? | ]
    | |- triple _ (if ?b then _ else _) _ _ => destruct b
    | |- triple _ (match ?x with (_, _) => _ end) _ _ => destruct x
    | |- triple _ _ _ _ =>
        apply uncommitted_neutral;
        [auto 30 with keeps | auto 30 with keeps | auto 30 with logs]
    end.
Qed.

(** Nothing fails but the INSERT itself, which finds no rowid to give: the
    run ends in an exception, and the table and the indexes it created
    before are in the file. *)
Example full_counter_run :
  let r := main sample_env (boot true full_counter ∅ ∅) in
  fst r = Raise (OperationalError "database or disk is full") /\
  ~ In Committed (log (snd r)) /\
  categories (db_file (snd r)) = categories full_counter /\
  tasks (db_file (snd r)) = Some [] /\
  objects (db_file (snd r))
  = [ ("index", "idx_tasks_category_id"); ("index", "idx_tasks_due_at");
      ("index", "idx_tasks_is_completed"); ("index", "idx_tasks_completed_at");
      ("index", "idx_tasks_created_at"); ("index", "idx_categories_sort_order") ].
Proof. vm_compute. repeat split. intuition discriminate. Qed.

(** C3, as stated, fails: the engine fails on the second seed INSERT of a
    first run; the exception ends the run, the first seed category is
    rolled back with the transaction, but the two tables and the six
    indexes stay in the file, which was empty before. *)
Lemma failed_run_keeps_schema :
  ~ (forall e ex d f ds x w',
       main e (boot ex d f ds) = (Raise x, w') ->
       ~ In Committed (log w') ->
       db_file w' = d).
Proof.
  intros H.
  assert (Hn : ~ In Committed (log (snd (main failing_env fresh))))
    by (vm_compute; intuition discriminate).
  specialize (H failing_env false empty_database ∅ ∅ _ _ failing_run Hn).
  apply (f_equal categories) in H. vm_compute in H. discriminate H.
Qed.

(** C3, amended.  The seed rows of a run are committed together or not at
    all: when [main] ends in an exception and the commit has not taken
    place, the rows of [categories] and [tasks] and the AUTOINCREMENT
    counters in the file are those from before the run.  The statements
    of [_create_schema] are not part of that transaction: what they
    created before the failure stays in the file. *)
Theorem seed_rows_all_or_nothing :
  (forall e ex d f ds x w',
      main e (boot ex d f ds) = (Raise x, w') ->
      ~ In Committed (log w') ->
      rows_of (db_file w') = rows_of d) /\
  (exists e ex d f ds x w',
      main e (boot ex d f ds) = (Raise x, w') /\
      ~ In Committed (log w') /\
      categories d = None /\ categories (db_file w') = Some []).
Proof.
  split.
  - intros e ex d f ds x w' Hm Hn.
    assert (H0 : uncommitted d (boot ex d f ds)).
    { intros _. split; [reflexivity | discriminate]. }
    pose proof (triple_run _ _ _ _ _ _ _ (main_uncommitted d e) H0 Hm) as H.
    exact (proj1 (H Hn)).
  - exists failing_env, false, empty_database, ∅, ∅.
    eexists. exists (snd (main failing_env fresh)).
    split; [exact failing_run|]. split; [|split; [reflexivity|]].
    + vm_compute. intuition discriminate.
    + vm_compute. reflexivity.
Qed.

Lemma seed_rows_all_or_nothing_witness :
  main failing_env (boot false empty_database ∅ ∅)
    = (Raise (OperationalError "disk I/O error"), snd (main failing_env fresh)) /\
  ~ In Committed (log (snd (main failing_env fresh))) /\
  rows_of (db_file (snd (main failing_env fresh))) = rows_of empty_database.
Proof.
  assert (Hn : ~ In Committed (log (snd (main failing_env fresh))))
    by (vm_compute; intuition discriminate).
  split; [exact failing_run|]. split; [exact Hn|].
  exact (proj1 seed_rows_all_or_nothing failing_env false empty_database ∅ ∅ _ _
           failing_run Hn).
Defined.

(** ** C7: the foreign key *)

Lemma existsb_cat_id i (cs : list category) :
  existsb (fun c => cat_id c =? i) cs = true <-> In i (cat_id <$> cs).
Proof.
  rewrite existsb_exists. split.
  - intros (c & Hin & Hc). apply Z.eqb_eq in Hc. subst i.
    apply (in_map cat_id). exact Hin.
  - intros Hin. apply in_map_iff in Hin. destruct Hin as (c & <- & Hin).
    exists c. split; [exact Hin | apply Z.eqb_refl].
Qed.

Lemma clear_reference_spec i t :
  (category_id t = Some i -> category_id (clear_reference i t) = None) /\
  (category_id t <> Some i -> clear_reference i t = t) /\
  task_id (clear_reference i t) = task_id t /\
  title (clear_reference i t) = title t.
Proof.
  unfold clear_reference. destruct (category_id t) as [k|] eqn:Hk.
  - destruct (k =? i) eqn:E.
    + apply Z.eqb_eq in E. subst k. repeat split; auto; congruence.
    + apply Z.eqb_neq in E. repeat split; auto; congruence.
  - repeat split; auto; discriminate.
Qed.

Lemma move_reference_spec old new t :
  (category_id t = Some old -> category_id (move_reference old new t) = Some new) /\
  (category_id t <> Some old -> move_reference old new t = t) /\
  task_id (move_reference old new t) = task_id t /\
  title (move_reference old new t) = title t.
Proof.
  unfold move_reference. destruct (category_id t) as [k|] eqn:Hk.
  - destruct (k =? old) eqn:E.
    + apply Z.eqb_eq in E. subst k. repeat split; auto; congruence.
    + apply Z.eqb_neq in E. repeat split; auto; congruence.
  - repeat split; auto; discriminate.
Qed.

Lemma _connect_foreign_keys e p w w1 :
  _connect e p w = (Ok (), w1) ->
  exists c, conn w1 = Some c /\ foreign_keys c = true.
Proof.
  unfold _connect. intros H.
  apply bind_ok_inv in H. destruct H as ([] & w2 & H1 & H).
  apply bind_ok_inv in H. destruct H as (a & w3 & H2 & [= <-]).
  unfold sqlite3_connect in H1. apply bind_ok_inv in H1.
  destruct H1 as (n & w0 & _ & [= <-]).
  unfold execute in H2. simpl in H2.
  destruct (engine_call e _) as [[m|x] w4] eqn:E; [|discriminate].
  apply engine_call_inv in E. simpl in E.
  injection H2 as _ <-. simpl. eauto.
Qed.

(** C7.  The connection that [_connect] gives has foreign keys on.  On
    such a connection, deleting a category that exists removes its row
    and keeps every task, those that referred to it now with a null
    [category_id]; giving a category a new, free id moves the
    [category_id] of the tasks that referred to it to the new id. *)
Theorem foreign_key_actions :
  (forall e p w w1,
      _connect e p w = (Ok (), w1) ->
      exists c, conn w1 = Some c /\ foreign_keys c = true) /\
  (forall i db cs ts,
      categories db = Some cs -> tasks db = Some ts -> In i (cat_id <$> cs) ->
      exists db',
        delete_category true i db = Ok db' /\
        categories db' = Some (List.filter (fun c => negb (cat_id c =? i)) cs) /\
        tasks db' = Some (clear_reference i <$> ts) /\
        task_id <$> (clear_reference i <$> ts) = task_id <$> ts /\
        forall t, In t ts ->
          (category_id t = Some i -> category_id (clear_reference i t) = None) /\
          (category_id t <> Some i -> clear_reference i t = t)) /\
  (forall old new db cs ts,
      categories db = Some cs -> tasks db = Some ts ->
      In old (cat_id <$> cs) -> ~ In new (cat_id <$> cs) ->
      exists db',
        update_category_id true old new db = Ok db' /\
        categories db' = Some (renumber old new <$> cs) /\
        tasks db' = Some (move_reference old new <$> ts) /\
        task_id <$> (move_reference old new <$> ts) = task_id <$> ts /\
        forall t, In t ts ->
          (category_id t = Some old ->
           category_id (move_reference old new t) = Some new) /\
          (category_id t <> Some old -> move_reference old new t = t)).
Proof.
  split; [exact _connect_foreign_keys|]. split.
  - intros i db cs ts Hcs Hts Hin. unfold delete_category. rewrite Hcs, Hts.
    apply existsb_cat_id in Hin. rewrite Hin. simpl.
    eexists. split; [reflexivity|]. simpl. repeat split.
    + rewrite <- list_fmap_compose. apply list_fmap_ext.
      intros k t _. apply clear_reference_spec.
    + apply clear_reference_spec.
    + apply clear_reference_spec.
  - intros old new db cs ts Hcs Hts Hold Hnew. unfold update_category_id.
    rewrite Hcs, Hts. apply existsb_cat_id in Hold. rewrite Hold. simpl.
    assert (Hfree : existsb (fun c => cat_id c =? new) cs = false).
    { destruct (existsb (fun c => cat_id c =? new) cs) eqn:E; [|reflexivity].
      apply existsb_cat_id in E. contradiction. }
    rewrite Hfree, andb_false_r.
    eexists. split; [reflexivity|]. simpl. repeat split.
    + rewrite <- list_fmap_compose. apply list_fmap_ext.
      intros k t _. apply move_reference_spec.
    + apply move_reference_spec.
    + apply move_reference_spec.
Qed.

Lemma foreign_key_actions_witness :
  In 1 (cat_id <$> default [] (categories seeded_once)) /\
  (exists db',
      delete_category true 1 seeded_once = Ok db' /\
      (fun t => (task_id t, category_id t)) <$> default [] (tasks db')
      = [ (1, None); (2, Some 2); (3, Some 3) ]) /\
  (exists db',
      update_category_id true 2 20 seeded_once = Ok db' /\
      (fun t => (task_id t, category_id t)) <$> default [] (tasks db')
      = [ (1, Some 1); (2, Some 20); (3, Some 3) ]).
Proof.
  assert (Hcs : categories seeded_once = Some (default [] (categories seeded_once)))
    by (vm_compute; reflexivity).
  assert (Hts : tasks seeded_once = Some (default [] (tasks seeded_once)))
    by (vm_compute; reflexivity).
  assert (H1 : In 1 (cat_id <$> default [] (categories seeded_once)))
    by (vm_compute; tauto).
  assert (H2 : In 2 (cat_id <$> default [] (categories seeded_once)))
    by (vm_compute; tauto).
  assert (H20 : ~ In 20 (cat_id <$> default [] (categories seeded_once)))
    by (vm_compute; intuition discriminate).
  split; [exact H1|]. split.
  - destruct (proj1 (proj2 foreign_key_actions) 1 seeded_once _ _ Hcs Hts H1)
      as (db' & Hd & _ & Ht & _).
    exists db'. split; [exact Hd|]. rewrite Ht. vm_compute. reflexivity.
  - destruct (proj2 (proj2 foreign_key_actions) 2 20 seeded_once _ _ Hcs Hts H2 H20)
      as (db' & Hd & _ & Ht & _).
    exists db'. split; [exact Hd|]. rewrite Ht. vm_compute. reflexivity.
Defined.

(** * Further properties of the script *)

(** ** Creating the schema twice *)

Lemma has_object_grows ty n (d d' : database) :
  (forall o, In o (sqlite_master d) -> In o (sqlite_master d')) ->
  has_object ty n d = true -> has_object ty n d' = true.
Proof.
  unfold has_object. intros Hsub H. apply existsb_exists in H.
  destruct H as (o & Hin & Ho). apply existsb_exists. exists o. auto.
Qed.

Lemma sqlite_master_in o (d : database) :
  In o (sqlite_master d) <->
  (present (categories d) = true /\
   (o = ("table", "categories") \/ o = ("index", "sqlite_autoindex_categories_1")))
  \/ (present (sqlite_sequence d) = true /\ o = ("table", "sqlite_sequence"))
  \/ (present (tasks d) = true /\ o = ("table", "tasks"))
  \/ In o (objects d).
Proof.
  unfold sqlite_master. rewrite !in_app_iff.
  destruct (present (categories d)), (present (sqlite_sequence d)),
    (present (tasks d)); simpl; intuition (try discriminate; auto).
Qed.

Lemma step_master s d d' :
  is_dml s = false -> step s d d' ->
  forall o, In o (sqlite_master d) -> In o (sqlite_master d').
Proof.
  intros Hd (fk & now & r & H) o. destruct s; try discriminate Hd.
  - apply run_readonly in H; [subst; auto | tauto].
  - apply with_db_inv in H. destruct H as [H _].
    apply create_table_guard_inv in H. destruct H as [->|[_ ->]]; [auto|].
    rewrite !sqlite_master_in. simpl.
    destruct (categories d), (sqlite_sequence d); simpl; intuition (try discriminate; auto).
  - apply with_db_inv in H. destruct H as [H _].
    apply create_table_guard_inv in H. destruct H as [->|[_ ->]]; [auto|].
    rewrite !sqlite_master_in. simpl.
    destruct (tasks d), (sqlite_sequence d); simpl; intuition (try discriminate; auto).
  - apply with_db_inv in H. destruct H as [H _]. unfold create_index in H.
    destruct (negb _); [discriminate|]. destruct (_ || _); [discriminate|].
    destruct (has_object "index" name d); injection H as <-; [auto|].
    rewrite !sqlite_master_in. simpl. rewrite in_app_iff. tauto.
  - apply run_readonly in H; [subst; auto | tauto].
  - apply run_readonly in H; [subst; auto | tauto].
  - apply run_readonly in H; [subst; auto | tauto].
Qed.

Lemma step_create_index name tbl d d' :
  step (CREATE_INDEX name tbl) d d' ->
  has_object "index" name d' = true /\ has_object "table" tbl d' = true.
Proof.
  intros Hs.
  pose proof (step_master (CREATE_INDEX name tbl) d d' eq_refl Hs) as Hsub.
  destruct Hs as (fk & now & r & H).
  apply with_db_inv in H. destruct H as [H _]. unfold create_index in H.
  destruct (has_object "table" tbl d) eqn:Ht; [|discriminate]. simpl in H.
  split; [|exact (has_object_grows _ _ _ _ Hsub Ht)].
  destruct (_ || _); [discriminate|].
  destruct (has_object "index" name d) eqn:Hi; injection H as <-; [exact Hi|].
  unfold has_object. apply existsb_exists. exists ("index", name). split.
  - apply sqlite_master_in. simpl. rewrite in_app_iff. simpl. tauto.
  - simpl. apply nocase_eq_refl.
Qed.

Lemma runs_objects l d d' :
  (forall s, In s l -> is_dml s = false) -> runs l d d' ->
  (forall ty n, has_object ty n d = true -> has_object ty n d' = true) /\
  (forall name tbl, In (CREATE_INDEX name tbl) l ->
     has_object "index" name d' = true /\ has_object "table" tbl d' = true).
Proof.
  revert d. induction l as [|s l IH]; intros d Hl; simpl.
  - intros ->. split; [auto | intros ? ? []].
  - intros (d1 & Hs & Hr).
    destruct (IH d1 (fun s' Hs' => Hl s' (or_intror Hs')) Hr) as [Hmono Hidx].
    pose proof (step_master _ _ _ (Hl s (or_introl eq_refl)) Hs) as Hsub.
    split.
    + intros ty n H. apply Hmono. exact (has_object_grows _ _ _ _ Hsub H).
    + intros name tbl [->|Hin]; [|auto].
      apply step_create_index in Hs. destruct Hs as [H1 H2]. auto.
Qed.

Lemma runs_schema_complete d d' :
  runs schema_statements d d' -> schema_complete d'.
Proof.
  intros H. apply runs_objects in H; [|exact schema_not_dml].
  destruct H as [_ Hidx]. split; [|split].
  - apply (Hidx "idx_categories_sort_order" "categories"). simpl. tauto.
  - apply (Hidx "idx_tasks_due_at" "tasks"). simpl. tauto.
  - intros name tbl Hin. apply (Hidx name tbl Hin).
Qed.

(** On a complete schema every statement of [_create_schema] that returns
    has changed nothing. *)
Lemma schema_complete_noop s d d' :
  schema_complete d -> In s schema_statements -> step s d d' -> d' = d.
Proof.
  intros (Hc & Ht & Hi) Hs (fk & now & r & H).
  assert (Hcases : s = CREATE_TABLE_categories \/ s = CREATE_TABLE_tasks \/
                   exists name tbl, s = CREATE_INDEX name tbl).
  { simpl in Hs. intuition (subst; eauto). }
  destruct Hcases as [->|[->|(name & tbl & ->)]].
  - apply with_db_inv in H. destruct H as [H _].
    apply create_table_guard_inv in H. destruct H as [->|[Hn _]]; [reflexivity|].
    congruence.
  - apply with_db_inv in H. destruct H as [H _].
    apply create_table_guard_inv in H. destruct H as [->|[Hn _]]; [reflexivity|].
    congruence.
  - apply with_db_inv in H. destruct H as [H _]. unfold create_index in H.
    destruct (negb _); [discriminate|]. destruct (_ || _); [discriminate|].
    rewrite (Hi name tbl Hs) in H. injection H as <-. reflexivity.
Qed.

Lemma execute_settled_step (R : database -> Prop) e s :
  is_dml s = false ->
  triple (settled R) (execute e s) (fun _ => settled (then_runs R [s])) anything.
Proof.
  intros Hd w (c & Hc & Hv & Hf & Htx).
  destruct (execute e s w) as [r w'] eqn:E. apply execute_inv in E.
  destruct E as (_ & _ & _ & _ & E). rewrite Hc in E.
  destruct r as [a|x]; [|exact Logic.I].
  destruct E as (v & n & fk & Hr & Hc' & Hf' & _).
  rewrite Htx, Hd in Hc', Hf'. simpl in Hc', Hf'.
  eexists. split; [exact Hc'|]. simpl. repeat split; auto.
  exists (view c). split; [exact Hv|]. exists v. split; [|reflexivity].
  exists (foreign_keys c), (clock e n), a. exact Hr.
Qed.

Lemma execute_settled_kept (R : database -> Prop) e s :
  is_dml s = false ->
  (forall v v', R v -> step s v v' -> R v') ->
  triple (settled R) (execute e s) (fun _ => settled R) (settled R).
Proof.
  intros Hd Hk w (c & Hc & Hv & Hf & Htx).
  destruct (execute e s w) as [r w'] eqn:E. apply execute_inv in E.
  destruct E as (_ & _ & _ & _ & E). rewrite Hc in E.
  destruct r as [a|x].
  - destruct E as (v & n & fk & Hr & Hc' & Hf' & _).
    rewrite Htx, Hd in Hc', Hf'. simpl in Hc', Hf'.
    eexists. split; [exact Hc'|]. simpl. repeat split; auto.
    apply (Hk (view c)); [exact Hv|]. exists (foreign_keys c), (clock e n), a.
    exact Hr.
  - destruct E as (Hf' & _ & c' & Hc' & Hv' & _ & Htx').
    exists c'. rewrite Hv', Hf'. repeat split; auto.
    destruct Htx' as [->| ->]; rewrite Htx, ?Hd; reflexivity.
Qed.

Lemma _connect_settled e p d0 :
  triple (fun w => db_file w = d0) (_connect e p) (fun _ => settled (eq d0)) anything.
Proof.
  unfold _connect. eapply triple_bind with (Q := fun _ => settled (eq d0)).
  - intros w Hw. unfold sqlite3_connect, bind.
    destruct (engine_call e w) as [[n|x] w1] eqn:E; [|exact Logic.I].
    apply engine_call_inv in E. destruct E as (_ & E2 & _).
    simpl. eexists. split; [reflexivity|]. simpl. rewrite E2. auto.
  - intros u. apply triple_then_ret. apply execute_settled. tauto.
Qed.

Lemma settled_mono (R R' : database -> Prop) w :
  (forall v, R v -> R' v) -> settled R w -> settled R' w.
Proof. intros H (c & Hc & Hv & Hrest). exists c. auto. Qed.

Lemma execute_settled_then (R : database -> Prop) l e s :
  is_dml s = false ->
  triple (settled (then_runs R l)) (execute e s)
         (fun _ => settled (then_runs R (l ++ [s]))) anything.
Proof.
  intros Hd. eapply triple_conseq with (E := anything);
    [ apply execute_settled_step; exact Hd | intros w H; exact H
    | | intros w H; exact H ].
  intros u w. apply settled_mono.
  intros v' (v1 & (v0 & H0 & Hr0) & (v2 & Hs & ->)).
  exists v0. split; [exact H0|]. apply runs_snoc. exists v1. auto.
Qed.

Lemma _create_schema_settled (R : database -> Prop) e :
  triple (settled R) (_create_schema e)
         (fun _ => settled (then_runs R schema_statements)) anything.
Proof.
  eapply triple_conseq with (P := settled (then_runs R [])) (E := anything);
    [ | | intros a w H; exact H | intros w H; exact H ].
  - unfold _create_schema.
    repeat (eapply triple_bind;
            [apply execute_settled_then; reflexivity | intros ?]).
    apply triple_ret. intros w H. exact H.
  - intros w. apply settled_mono. intros v Hv. exists v. simpl. auto.
Qed.

(** X1.  [_create_schema] is idempotent: once it has returned on a connection
    fresh from [_connect], a second call changes nothing, neither in the
    file nor in what the connection sees, whether it returns or not. *)
Theorem create_schema_twice e0 e1 e2 ex d f ds w0 w1 r2 w2 :
  _connect e0 DB_NAME (boot ex d f ds) = (Ok (), w0) ->
  _create_schema e1 w0 = (Ok (), w1) ->
  _create_schema e2 w1 = (r2, w2) ->
  db_file w2 = db_file w1 /\
  exists c, conn w2 = Some c /\ view c = db_file w1 /\ in_transaction c = false.
Proof.
  intros H0 H1 H2.
  pose proof (triple_run _ _ _ _ _ _ _ (_connect_settled e0 DB_NAME d)
                (eq_refl : db_file (boot ex d f ds) = d) H0) as S0.
  pose proof (triple_run _ _ _ _ _ _ _ (_create_schema_settled (eq d) e1) S0 H1)
    as S1. simpl in S1.
  destruct S1 as (c1 & Hc1 & (v0 & <- & Hruns) & Hf1 & Htx1).
  apply runs_schema_complete in Hruns.
  assert (S1 : settled (eq (view c1)) w1) by (exists c1; auto).
  assert (T : triple (settled (eq (view c1))) (_create_schema e2)
                     (fun _ => settled (eq (view c1))) (settled (eq (view c1)))).
  { unfold _create_schema.
    repeat (eapply triple_bind;
            [ apply execute_settled_kept;
              [ reflexivity
              | intros v v' <- Hs; symmetry;
                refine (schema_complete_noop _ _ _ Hruns _ Hs); simpl; tauto ]
            | intros ? ]).
    apply triple_ret. intros w H. exact H. }
  pose proof (triple_run _ _ _ _ _ _ _ T S1 H2) as S2.
  assert (S2' : settled (eq (view c1)) w2) by (destruct r2; exact S2).
  destruct S2' as (c2 & Hc2 & Hv2 & Hf2 & Htx2).
  rewrite Hf1. split; [congruence|]. exists c2. auto.
Qed.

Lemma create_schema_twice_witness :
  let w0 := snd (_connect sample_env DB_NAME fresh) in
  let w1 := snd (_create_schema sample_env w0) in
  let w2 := snd (_create_schema sample_env w1) in
  _connect sample_env DB_NAME fresh = (Ok (), w0) /\
  _create_schema sample_env w0 = (Ok (), w1) /\
  _create_schema sample_env w1 = (Ok (), w2) /\
  db_file w2 = db_file w1.
Proof.
  assert (H0 : _connect sample_env DB_NAME fresh
               = (Ok (), snd (_connect sample_env DB_NAME fresh)))
    by (vm_compute; reflexivity).
  assert (H1 : _create_schema sample_env (snd (_connect sample_env DB_NAME fresh))
               = (Ok (), snd (_create_schema sample_env
                                (snd (_connect sample_env DB_NAME fresh)))))
    by (vm_compute; reflexivity).
  assert (H2 : _create_schema sample_env
                 (snd (_create_schema sample_env
                         (snd (_connect sample_env DB_NAME fresh))))
               = (Ok (), snd (_create_schema sample_env
                                (snd (_create_schema sample_env
                                        (snd (_connect sample_env DB_NAME fresh)))))))
    by (vm_compute; reflexivity).
  split; [exact H0|]. split; [exact H1|]. split; [exact H2|].
  exact (proj1 (create_schema_twice sample_env sample_env sample_env false
                  empty_database ∅ ∅ _ _ _ _ H0 H1 H2)).
Defined.

(** ** The shape of a run *)

Lemma bind_inv {A B : Type} (m : M A) (k : A -> M B) w r w' :
  bind m k w = (r, w') ->
  (exists x, m w = (Raise x, w') /\ r = Raise x) \/
  exists a w1, m w = (Ok a, w1) /\ k a w1 = (r, w').
Proof.
  unfold bind. destruct (m w) as [[a|x] w1].
  - right. eauto.
  - intros [= <- <-]. left. eauto.
Qed.

Lemma printed_fields ls w :
  stdout (printed ls w) = (stdout w ++ ls)%list /\
  db_exists (printed ls w) = db_exists w /\ db_file (printed ls w) = db_file w /\
  conn (printed ls w) = conn w /\ files (printed ls w) = files w /\
  dirs (printed ls w) = dirs w /\ log (printed ls w) = log w.
Proof.
  revert w. induction ls as [|l ls IH]; intros w.
  - unfold printed. simpl. rewrite app_nil_r. tauto.
  - change (printed (l :: ls) w) with (printed ls (snd (print l w))).
    destruct (IH (snd (print l w))) as (H1 & H2 & H3 & H4 & H5 & H6 & H7).
    rewrite H1, H2, H3, H4, H5, H6, H7. simpl. rewrite <- app_assoc. tauto.
Qed.

Lemma if_print (b : bool) s1 s2 w :
  (if b then print s1 else print s2) w = print (if b then s1 else s2) w.
Proof. destruct b; reflexivity. Qed.

Lemma print_bind {B : Type} s (k : () -> M B) w :
  bind (print s) k w = k () (snd (print s w)).
Proof. reflexivity. Qed.

Lemma print_last s w : print s w = (Ok (), snd (print s w)).
Proof. reflexivity. Qed.

(** [main], step by step: two lines are printed; then the run ends with
    the exception of [_connect], of the try block or of
    [_write_connection_files], or it goes through and prints the rest. *)
Lemma main_inv e w r w' :
  main e w = (r, w') ->
  let w0 := printed (report_head (db_exists w)) w in
  (exists x, r = Raise x /\ _connect e DB_NAME w0 = (Raise x, w')) \/
  exists w1,
    _connect e DB_NAME w0 = (Ok (), w1) /\
    ((exists x, r = Raise x /\
                try_finally (main_body e) close w1 = (Raise x, w')) \/
     exists n w2,
       try_finally (main_body e) close w1 = (Ok n, w2) /\
       ((exists x, r = Raise x /\
                   _write_connection_files e DB_NAME w2 = (Raise x, w')) \/
        exists w3,
          _write_connection_files e DB_NAME w2 = (Ok (), w3) /\
          r = Ok () /\ w' = printed (report_tail (getcwd e) n) w3)).
Proof.
  unfold main. intros H. set (w0 := printed (report_head (db_exists w)) w).
  apply bind_inv in H. destruct H as [(x & Hx & _)|(u1 & w1 & H1 & H)];
    [unfold print in Hx; discriminate Hx|].
  unfold print in H1. injection H1 as _ <-.
  apply bind_inv in H. destruct H as [(x & Hx & _)|(b & w2 & H2 & H)];
    [unfold path_exists_db in Hx; discriminate Hx|].
  unfold path_exists_db in H2. injection H2 as <- <-.
  apply bind_inv in H. destruct H as [(x & Hx & _)|(u3 & w3 & H3 & H)].
  { rewrite if_print in Hx. unfold print in Hx. discriminate Hx. }
  assert (E0 : w3 = w0).
  { rewrite if_print in H3. unfold print in H3. injection H3 as _ <-. reflexivity. }
  rewrite E0 in H. clear H3 E0 u3 w3 u1.
  apply bind_inv in H. destruct H as [(x & Hx & ->)|([] & w1 & H1 & H)];
    [left; eauto|right].
  exists w1. split; [exact H1|].
  apply bind_inv in H. destruct H as [(x & Hx & ->)|(n & w2 & H2 & H)];
    [left; eauto|right].
  exists n, w2. split; [exact H2|]. destruct n as [[tc cc] kc].
  apply bind_inv in H. destruct H as [(x & Hx & ->)|([] & w3 & H3 & H)];
    [left; eauto|right].
  exists w3. split; [exact H3|].
  rewrite !print_bind, print_last in H. injection H as <- <-.
  split; reflexivity.
Qed.

(** ** What the engine and the file system leave alone, and what they raise *)

Lemma keeps_finally {A X : Type} (proj : world -> X) (m : M A) (c : M unit) :
  keeps proj m -> keeps proj c -> keeps proj (try_finally m c).
Proof.
  intros Hm Hc w r w'. unfold try_finally.
  destruct (m w) as [r1 w1] eqn:E1. destruct (c w1) as [[u|x] w2] eqn:E2;
    intros [= <- <-]; rewrite (Hc _ _ _ E2); exact (Hm _ _ _ E1).
Qed.

Lemma keeps_for_each {A X : Type} (proj : world -> X) (l : list A)
    (body : A -> M unit) :
  (forall x, keeps proj (body x)) -> keeps proj (for_each l body).
Proof. intros H. induction l; simpl; auto with keeps. Qed.

Lemma execute_keeps_files e s : keeps files (execute e s).
Proof. intros w r w' H. apply execute_inv in H. tauto. Qed.

Lemma execute_keeps_dirs e s : keeps dirs (execute e s).
Proof. intros w r w' H. apply execute_inv in H. tauto. Qed.

Lemma execute_keeps_stdout e s : keeps stdout (execute e s).
Proof. intros w r w' H. apply execute_inv in H. tauto. Qed.

Lemma commit_keeps_files e : keeps files (commit e).
Proof. intros w r w' H. apply commit_inv in H. tauto. Qed.

Lemma commit_keeps_dirs e : keeps dirs (commit e).
Proof. intros w r w' H. apply commit_inv in H. tauto. Qed.

Lemma commit_keeps_stdout e : keeps stdout (commit e).
Proof. intros w r w' H. apply commit_inv in H. tauto. Qed.

Lemma close_keeps_files : keeps files close.
Proof. intros w r w' [= <- <-]. reflexivity. Qed.

Lemma close_keeps_dirs : keeps dirs close.
Proof. intros w r w' [= <- <-]. reflexivity. Qed.

Lemma close_keeps_stdout : keeps stdout close.
Proof. intros w r w' [= <- <-]. reflexivity. Qed.

Lemma sqlite3_connect_keeps_files e p : keeps files (sqlite3_connect e p).
Proof.
  intros w r w'. unfold sqlite3_connect, bind.
  destruct (engine_call e w) as [[n|x] w1] eqn:E; apply engine_call_inv in E;
    intros [= <- <-]; simpl; tauto.
Qed.

Lemma sqlite3_connect_keeps_dirs e p : keeps dirs (sqlite3_connect e p).
Proof.
  intros w r w'. unfold sqlite3_connect, bind.
  destruct (engine_call e w) as [[n|x] w1] eqn:E; apply engine_call_inv in E;
    intros [= <- <-]; simpl; tauto.
Qed.

Lemma sqlite3_connect_keeps_stdout e p : keeps stdout (sqlite3_connect e p).
Proof.
  intros w r w'. unfold sqlite3_connect, bind.
  destruct (engine_call e w) as [[n|x] w1] eqn:E; apply engine_call_inv in E;
    intros [= <- <-]; simpl; tauto.
Qed.

Lemma open_w_keeps_stdout p : keeps stdout (open_w p).
Proof. keeps_prim open_w. Qed.

Lemma write_keeps_stdout p s : keeps stdout (write p s).
Proof. keeps_prim write. Qed.

Lemma makedirs_keeps_stdout p : keeps stdout (makedirs p).
Proof. keeps_prim makedirs. Qed.

Section Frame.
Context {X : Type}.
Variable proj : world -> X.
Variable e : env.
Hypothesis execute_keeps : forall s, keeps proj (execute e s).
Hypothesis commit_keeps : keeps proj (commit e).
Hypothesis close_keeps : keeps proj close.
Hypothesis connect_keeps : forall p, keeps proj (sqlite3_connect e p).

Lemma _connect_keeps p : keeps proj (_connect e p).
Proof. unfold _connect. auto with keeps. Qed.

Lemma _create_schema_keeps : keeps proj (_create_schema e).
Proof. unfold _create_schema. auto 20 with keeps. Qed.

Lemma _seed_data_keeps : keeps proj (_seed_data e).
Proof.
  unfold _seed_data. apply keeps_bind.
  - apply keeps_for_each. intros [[name color] sort_order]. auto with keeps.
  - intros u. apply keeps_bind; [apply execute_keeps|intros r].
    apply keeps_bind; [apply keeps_fetchone_0|intros n].
    apply keeps_if; auto 10 with keeps.
Qed.

Lemma main_body_keeps : keeps proj (main_body e).
Proof.
  unfold main_body.
  apply keeps_bind; [apply _create_schema_keeps|intros ?].
  apply keeps_bind; [apply _seed_data_keeps|intros ?].
  auto 20 with keeps.
Qed.

Lemma try_body_keeps : keeps proj (try_finally (main_body e) close).
Proof. apply keeps_finally; [apply main_body_keeps | exact close_keeps]. Qed.

End Frame.

Lemma throws_ret {A : Type} C (a : A) : throws C (ret a).
Proof. intros w x w' H. discriminate H. Qed.

Lemma throws_raise {A : Type} (C : exn -> Prop) x : C x -> throws C (@raise A x).
Proof. intros Hx w y w' [= <- _]. exact Hx. Qed.

Lemma throws_bind {A B : Type} C (m : M A) (k : A -> M B) :
  throws C m -> (forall a, throws C (k a)) -> throws C (bind m k).
Proof.
  intros Hm Hk w x w' H. apply bind_inv in H.
  destruct H as [(y & H & [= <-])|(a & w1 & _ & H)]; [exact (Hm _ _ _ H)|].
  exact (Hk _ _ _ _ H).
Qed.

Lemma throws_if {A : Type} C (b : bool) (m1 m2 : M A) :
  throws C m1 -> throws C m2 -> throws C (if b then m1 else m2).
Proof. destruct b; auto. Qed.

Lemma throws_for_each {A : Type} C (l : list A) (body : A -> M unit) :
  (forall x, throws C (body x)) -> throws C (for_each l body).
Proof.
  intros H. induction l; simpl; [apply throws_ret|].
  apply throws_bind; auto.
Qed.

Lemma throws_finally {A : Type} C (m : M A) (c : M unit) :
  throws C m -> throws C c -> throws C (try_finally m c).
Proof.
  intros Hm Hc w x w'. unfold try_finally.
  destruct (m w) as [r1 w1] eqn:E1. destruct (c w1) as [[u|y] w2] eqn:E2.
  - intros [= -> _]. exact (Hm _ _ _ E1).
  - intros [= <- _]. exact (Hc _ _ _ E2).
Qed.

Lemma throws_fetchone_0 r : throws engine_error (fetchone_0 r).
Proof.
  destruct r; unfold fetchone_0; [apply throws_ret|].
  apply throws_raise. exact Logic.I.
Qed.

Lemma engine_call_throws e : throws engine_error (engine_call e).
Proof.
  intros w x w'. unfold engine_call. destruct (decide _); [|discriminate].
  intros [= <- _]. exact Logic.I.
Qed.

Lemma new_rowid_throws tbl ids db x :
  new_rowid tbl ids db = Raise x -> engine_error x.
Proof.
  unfold new_rowid. destruct (max_rowid ids); destruct (_ : bool);
    intros [= <-]; exact Logic.I.
Qed.

Lemma choose_rowid_throws tbl given ids db x :
  choose_rowid tbl given ids db = Raise x -> engine_error x.
Proof. destruct given; simpl; [discriminate|apply new_rowid_throws]. Qed.

Lemma insert_category_throws oi now v db x :
  insert_category oi now v db = Raise x -> engine_error x.
Proof.
  unfold insert_category. destruct (categories db); [|intros [= <-]; exact Logic.I].
  destruct (choose_rowid _ _ _ _) eqn:E; [|intros [= <-]; eapply choose_rowid_throws, E].
  destruct (cv_name v); [destruct (category_conflict _ _ _)|]; destruct oi;
    intros [= <-]; exact Logic.I.
Qed.

Lemma insert_task_throws fk now v db x :
  insert_task fk now v db = Raise x -> engine_error x.
Proof.
  unfold insert_task. destruct (tasks db); [|intros [= <-]; exact Logic.I].
  destruct (choose_rowid _ _ _ _) eqn:E; [|intros [= <-]; eapply choose_rowid_throws, E].
  destruct (tv_title v); [|intros [= <-]; exact Logic.I].
  destruct (negb _); [intros [= <-]; exact Logic.I|].
  destruct (existsb _ _); [intros [= <-]; exact Logic.I|].
  destruct (negb _); [intros [= <-]; exact Logic.I|discriminate].
Qed.

Lemma with_db_throws {A : Type} (r : result database) (a : A) x :
  with_db r a = Raise x -> r = Raise x.
Proof. destruct r; simpl; congruence. Qed.

Lemma create_table_guard_throws name db create x :
  create_table_guard name db create = Raise x -> engine_error x.
Proof.
  unfold create_table_guard. destruct (_ || _); [discriminate|].
  destruct (has_object _ _ _); [|discriminate]. intros [= <-]. exact Logic.I.
Qed.

Lemma run_statement_throws fk now s db x :
  run_statement fk now s db = Raise x -> engine_error x.
Proof.
  destruct s; cbn [run_statement]; intros H;
    try (apply with_db_throws in H).
  - discriminate H.
  - eapply create_table_guard_throws, H.
  - eapply create_table_guard_throws, H.
  - unfold create_index in H. destruct (negb _); [injection H as <-; exact Logic.I|].
    destruct (_ || _); [injection H as <-; exact Logic.I|].
    destruct (has_object _ _ _); discriminate H.
  - eapply insert_category_throws, H.
  - eapply insert_task_throws, H.
  - destruct (tasks db); simpl in H; [discriminate H|]. injection H as <-. exact Logic.I.
  - destruct (categories db); simpl in H; [discriminate H|]. injection H as <-.
    exact Logic.I.
  - discriminate H.
Qed.

Lemma execute_throws e s : throws engine_error (execute e s).
Proof.
  intros w x w'. unfold execute. destruct (conn w) as [c|];
    [|intros [= <- _]; exact Logic.I].
  destruct (engine_call e w) as [[n|y] w1] eqn:E.
  - destruct (run_statement _ _ _ _) as [[v r]|y] eqn:Er; [discriminate|].
    intros [= <- _]. eapply run_statement_throws, Er.
  - intros [= <- _]. eapply engine_call_throws, E.
Qed.

Lemma commit_throws e : throws engine_error (commit e).
Proof.
  intros w x w'. unfold commit. destruct (conn w) as [c|];
    [|intros [= <- _]; exact Logic.I].
  destruct (engine_call e w) as [[n|y] w1] eqn:E.
  - destruct (in_transaction c); discriminate.
  - intros [= <- _]. eapply engine_call_throws, E.
Qed.

Lemma close_throws C : throws C close.
Proof. intros w x w' H. discriminate H. Qed.

Lemma sqlite3_connect_throws e p : throws engine_error (sqlite3_connect e p).
Proof.
  unfold sqlite3_connect. apply throws_bind; [apply engine_call_throws|].
  intros n w x w' H. discriminate H.
Qed.

Lemma _connect_throws e p : throws engine_error (_connect e p).
Proof.
  unfold _connect.
  repeat first
    [ apply sqlite3_connect_throws | apply execute_throws | apply throws_ret
    | apply throws_bind; [|intros ?] ].
Qed.

Lemma main_body_throws e : throws engine_error (main_body e).
Proof.
  unfold main_body, _create_schema, _seed_data.
  repeat first
    [ apply throws_bind; [|intros ?]
    | apply throws_if
    | apply throws_for_each; intros [[? ?] ?]
    | apply throws_ret
    | apply throws_fetchone_0
    | apply execute_throws
    | apply commit_throws ].
Qed.

Lemma try_body_throws e : throws engine_error (try_finally (main_body e) close).
Proof. apply throws_finally; [apply main_body_throws | apply close_throws]. Qed.

Lemma open_w_throws p : throws os_error (open_w p).
Proof.
  intros w x w'. unfold open_w. destruct (decide _); [intros [= <- _]; exact Logic.I|].
  destruct (_ && _); [intros [= <- _]; exact Logic.I|discriminate].
Qed.

Lemma write_throws p t : throws os_error (write p t).
Proof. intros w x w' H. discriminate H. Qed.

Lemma makedirs_throws p : throws os_error (makedirs p).
Proof.
  intros w x w'. unfold makedirs. destruct (decide _); [discriminate|].
  destruct (decide _); [intros [= <- _]; exact Logic.I|discriminate].
Qed.

Lemma _write_connection_files_throws e p :
  throws os_error (_write_connection_files e p).
Proof.
  unfold _write_connection_files.
  repeat first
    [ apply open_w_throws | apply write_throws | apply makedirs_throws
    | apply throws_bind; [|intros ?] ].
Qed.

(** ** Before and after the commit *)

Lemma triple_conj {A : Type} (P1 P2 : world -> Prop) (m : M A)
    (Q1 Q2 : A -> world -> Prop) (E1 E2 : world -> Prop) :
  triple P1 m Q1 E1 -> triple P2 m Q2 E2 ->
  triple (fun w => P1 w /\ P2 w) m (fun a w => Q1 a w /\ Q2 a w)
         (fun w => E1 w /\ E2 w).
Proof.
  intros H1 H2 w [p1 p2]. specialize (H1 w p1). specialize (H2 w p2).
  destruct (m w) as [[a|x] w']; auto.
Qed.

Lemma logs_step {A : Type} (P : event -> Prop) (m : M A) :
  (forall w r w', m w = (r, w') ->
     log w' = log w \/ exists ev, P ev /\ log w' = ev :: log w) ->
  logs P m.
Proof.
  intros H w r w' Hm. destruct (H _ _ _ Hm) as [->|(ev & Hp & ->)].
  - exists []. split; [reflexivity|constructor].
  - exists [ev]. split; [reflexivity|]. constructor; [exact Hp|constructor].
Qed.

Lemma execute_quiet e s : logs not_commit (execute e s).
Proof.
  apply logs_step. intros w r w' H. apply execute_inv in H.
  destruct H as (_ & _ & _ & _ & H). destruct (conn w) as [c|]; [|tauto].
  destruct r as [a|x]; [|tauto].
  destruct H as (v & n & fk & _ & _ & _ & H). right. exists (Executed s).
  split; [discriminate|exact H].
Qed.

Lemma sqlite3_connect_quiet e p : logs not_commit (sqlite3_connect e p).
Proof.
  apply logs_step. intros w r w'. unfold sqlite3_connect, bind.
  destruct (engine_call e w) as [[n|x] w1] eqn:E; apply engine_call_inv in E;
    destruct E as (_ & _ & _ & _ & _ & _ & E & _); intros [= <- <-]; simpl.
  - right. exists Connected. split; [discriminate|]. rewrite E. reflexivity.
  - left. exact E.
Qed.

Lemma open_w_quiet p : logs not_commit (open_w p).
Proof.
  apply logs_step. intros w r w'. unfold open_w.
  destruct (decide _); [intros [= <- <-]; auto|].
  destruct (_ && _); intros [= <- <-]; [auto|].
  right. exists (Opened p). split; [discriminate|reflexivity].
Qed.

Lemma write_quiet p t : logs not_commit (write p t).
Proof.
  apply logs_step. intros w r w' [= <- <-].
  right. exists (Wrote p). split; [discriminate|reflexivity].
Qed.

Lemma makedirs_quiet p : logs not_commit (makedirs p).
Proof.
  apply logs_step. intros w r w'. unfold makedirs.
  destruct (decide _); [intros [= <- <-]; auto|].
  destruct (decide _); intros [= <- <-]; [auto|].
  right. exists (MadeDir p). split; [discriminate|reflexivity].
Qed.

Lemma print_quiet s : logs not_commit (print s).
Proof. apply logs_keeps. auto with keeps. Qed.

Ltac quiet_steps :=
  repeat first
    [ apply execute_quiet | apply sqlite3_connect_quiet | apply open_w_quiet
    | apply write_quiet | apply makedirs_quiet | apply print_quiet
    | apply logs_ret | apply logs_fetchone_0 | apply logs_if
    | apply logs_for_each; intros [[? ?] ?]
    | apply logs_bind; [|intros ?] ].

Lemma _connect_quiet e p : logs not_commit (_connect e p).
Proof. unfold _connect. quiet_steps. Qed.

Lemma _create_schema_quiet e : logs not_commit (_create_schema e).
Proof. unfold _create_schema. quiet_steps. Qed.

Lemma _seed_data_quiet e : logs not_commit (_seed_data e).
Proof. unfold _seed_data. quiet_steps. Qed.

Lemma _write_connection_files_quiet e p :
  logs not_commit (_write_connection_files e p).
Proof. unfold _write_connection_files. quiet_steps. Qed.

Lemma quiet_triple {A : Type} (m : M A) :
  logs not_commit m ->
  triple nothing_committed m (fun _ => nothing_committed) nothing_committed.
Proof.
  intros H w Hw. destruct (m w) as [r w'] eqn:E.
  destruct (H _ _ _ E) as (evs & L & F).
  assert (Hn : nothing_committed w').
  { unfold nothing_committed. rewrite L. intros Hin. apply in_app_iff in Hin.
    destruct Hin as [Hin|Hin]; [|exact (Hw Hin)].
    rewrite List.Forall_forall in F. exact (F _ Hin eq_refl). }
  destruct r; exact Hn.
Qed.

Lemma commit_outcome (R : database -> Prop) e :
  triple (fun w => at_view R w /\ nothing_committed w) (commit e)
         (fun _ => settled R) nothing_committed.
Proof.
  intros w [(c & Hc & Hv & Hco) Hn].
  destruct (commit e w) as [r w'] eqn:E. apply commit_inv in E.
  destruct E as (_ & _ & _ & _ & E). rewrite Hc in E. destruct r as [a|x].
  - destruct E as (Hc' & Hf & _). eexists. split; [exact Hc'|]. simpl.
    repeat split; auto. rewrite Hf. destruct (in_transaction c); auto.
  - destruct E as (_ & Hl & _). unfold nothing_committed. rewrite Hl. exact Hn.
Qed.

(** A count statement on a settled connection: the answer is the one the
    file gives, and nothing moves, whether the call returns or not. *)
Lemma execute_settled_answer (R : database -> Prop) e s :
  s = SELECT_COUNT_tasks \/ s = SELECT_COUNT_categories \/
  s = SELECT_COUNT_user_tables ->
  triple (settled R) (execute e s)
         (fun r => settled (fun v => R v /\ run_statement false 0 s v = Ok (v, r)))
         (settled R).
Proof.
  intros Hs w (c & Hc & Hv & Hf & Htx).
  destruct (execute e s w) as [r w'] eqn:E. apply execute_inv in E.
  destruct E as (_ & _ & _ & _ & E). rewrite Hc in E.
  assert (Hd : is_dml s = false) by (destruct Hs as [->|[->| ->]]; reflexivity).
  destruct r as [a|x].
  - destruct E as (v & n & fk & Hr & Hc' & Hf' & _).
    assert (Hv' : v = view c) by (eapply run_readonly; [|exact Hr]; tauto).
    subst v. rewrite Htx, Hd in Hc', Hf'. simpl in Hc', Hf'.
    eexists. split; [exact Hc'|]. simpl. split; [split; [exact Hv|]|auto].
    destruct Hs as [->|[->| ->]]; exact Hr.
  - destruct E as (Hf' & _ & c' & Hc' & Hv' & _ & Htx').
    exists c'. rewrite Hv', Hf'. repeat split; auto.
    destruct Htx' as [->| ->]; rewrite Htx, ?Hd; reflexivity.
Qed.

Lemma count_step {B : Type} (R : database -> Prop) e s (k : Z -> M B)
    (Q : B -> world -> Prop) (E : world -> Prop) :
  s = SELECT_COUNT_tasks \/ s = SELECT_COUNT_categories \/
  s = SELECT_COUNT_user_tables ->
  (forall w, settled R w -> E w) ->
  (forall n,
      triple (settled (fun v => R v /\ run_statement false 0 s v = Ok (v, Some n)))
             (k n) Q E) ->
  triple (settled R) (let! r := execute e s in let! n := fetchone_0 r in k n) Q E.
Proof.
  intros Hs HE Hk. eapply triple_bind.
  - eapply triple_conseq;
      [ apply (execute_settled_answer R e s Hs) | intros w H; exact H
      | intros a w H; exact H | exact HE ].
  - intros [n|]; intros w Hw.
    + exact (Hk n w Hw).
    + apply HE. revert Hw. apply settled_mono. tauto.
Qed.

Lemma main_body_outcome e d0 :
  triple (fun w => at_view (eq d0) w /\ nothing_committed w) (main_body e)
         (fun n => settled (fun v => initialized d0 v /\ counts_of v = n))
         (fun w => nothing_committed w \/ settled (initialized d0) w).
Proof.
  unfold main_body.
  eapply triple_bind
    with (Q := fun _ w => at_view (then_runs (eq d0) schema_statements) w /\
                          nothing_committed w).
  { eapply triple_conseq;
      [ apply triple_conj;
          [ apply (_create_schema_runs (eq d0))
          | apply quiet_triple, _create_schema_quiet ]
      | intros w H; exact H | intros a w H; exact H
      | intros w [_ H]; left; exact H ]. }
  intros u1.
  eapply triple_bind
    with (Q := fun _ w => at_view (initialized d0) w /\ nothing_committed w).
  { eapply triple_conseq;
      [ apply triple_conj;
          [ apply (_seed_data_runs (then_runs (eq d0) schema_statements))
          | apply quiet_triple, _seed_data_quiet ]
      | intros w H; exact H | | intros w [_ H]; left; exact H ].
    intros a w [H Hn]. split; [|exact Hn]. revert H. apply at_view_mono.
    intros v' (d1 & (d & <- & Hd1) & Hs). exists d1. auto. }
  intros u2.
  eapply triple_bind with (Q := fun _ => settled (initialized d0)).
  { eapply triple_conseq;
      [ apply commit_outcome | intros w H; exact H | intros a w H; exact H
      | intros w H; left; exact H ]. }
  intros u3.
  apply count_step; [tauto | intros w H; right; exact H | intros tc].
  apply count_step;
    [tauto | intros w H; right; revert H; apply settled_mono; tauto | intros cc].
  apply count_step;
    [tauto | intros w H; right; revert H; apply settled_mono; tauto | intros kc].
  apply triple_ret. intros w. apply settled_mono.
  intros v (((Hi & H1) & H2) & H3). split; [exact Hi|].
  cbn [run_statement] in H1, H2, H3. unfold counts_of.
  destruct (categories v); simpl in H2; [|discriminate H2].
  destruct (tasks v); simpl in H3; [|discriminate H3].
  injection H1 as <-. injection H2 as <-. injection H3 as <-. reflexivity.
Qed.

Lemma try_body_outcome e d0 :
  triple (fun w => at_view (eq d0) w /\ nothing_committed w)
         (try_finally (main_body e) close)
         (fun n w => initialized d0 (db_file w) /\ counts_of (db_file w) = n /\
                     conn w = None)
         (fun w => nothing_committed w \/ initialized d0 (db_file w)).
Proof.
  eapply triple_finally; [apply main_body_outcome | |].
  - intros n w (c & Hc & [Hi Hn] & Hf & Htx). simpl. rewrite Hf. auto.
  - intros w [Hn|(c & Hc & Hi & Hf & Htx)]; simpl.
    + left. unfold nothing_committed. simpl. intros [H|H]; [discriminate H|auto].
    + right. rewrite Hf. exact Hi.
Qed.

Lemma _connect_outcome e p d0 :
  triple (fun w => db_file w = d0 /\ nothing_committed w) (_connect e p)
         (fun _ w => at_view (eq d0) w /\ nothing_committed w) nothing_committed.
Proof.
  eapply triple_conseq;
    [ apply triple_conj;
        [ apply (_connect_view e p d0) | apply quiet_triple, _connect_quiet ]
    | intros w H; exact H | intros a w H; exact H | intros w [_ H]; exact H ].
Qed.

(** The ways a run can end.  It fails in the database phase, and then
    neither a descriptor nor a line of the report has been written; or it
    fails while the descriptors are written, after the commit and the
    close; or it goes through. *)
Lemma main_cases e ex d f ds r w' :
  main e (boot ex d f ds) = (r, w') ->
  (exists x, r = Raise x /\ engine_error x /\ files w' = f /\ dirs w' = ds /\
             stdout w' = report_head ex /\
             (nothing_committed w' \/ initialized d (db_file w'))) \/
  (exists x, r = Raise x /\ os_error x /\ initialized d (db_file w') /\
             conn w' = None /\ stdout w' = report_head ex) \/
  (r = Ok () /\ initialized d (db_file w') /\ conn w' = None /\
   stdout w' = (report_head ex
                ++ report_tail (getcwd e) (counts_of (db_file w')))%list).
Proof.
  intros Hm. apply main_inv in Hm. cbv zeta in Hm.
  change (db_exists (boot ex d f ds)) with ex in Hm.
  set (w0 := printed (report_head ex) (boot ex d f ds)) in Hm.
  destruct (printed_fields (report_head ex) (boot ex d f ds))
    as (S0 & _ & D0 & _ & F0 & Ds0 & L0).
  fold w0 in S0, D0, F0, Ds0, L0. cbn [boot stdout db_file files dirs log] in *.
  assert (P0 : db_file w0 = d /\ nothing_committed w0).
  { split; [exact D0|]. unfold nothing_committed. rewrite L0. intros []. }
  destruct Hm as [(x & -> & H0)|(w1 & H0 & Hm)].
  { left. exists x. split; [reflexivity|].
    split; [exact (_connect_throws _ _ _ _ _ H0)|].
    rewrite (_connect_keeps files e (execute_keeps_files e)
               (sqlite3_connect_keeps_files e) _ _ _ _ H0).
    rewrite (_connect_keeps dirs e (execute_keeps_dirs e)
               (sqlite3_connect_keeps_dirs e) _ _ _ _ H0).
    rewrite (_connect_keeps stdout e (execute_keeps_stdout e)
               (sqlite3_connect_keeps_stdout e) _ _ _ _ H0).
    repeat (split; [assumption|]). left.
    exact (triple_run _ _ _ _ _ _ _ (_connect_outcome e DB_NAME d) P0 H0). }
  pose proof (triple_run _ _ _ _ _ _ _ (_connect_outcome e DB_NAME d) P0 H0) as P1.
  cbv beta in P1.
  assert (F1 : files w1 = f)
    by (rewrite (_connect_keeps files e (execute_keeps_files e)
                   (sqlite3_connect_keeps_files e) _ _ _ _ H0); exact F0).
  assert (Ds1 : dirs w1 = ds)
    by (rewrite (_connect_keeps dirs e (execute_keeps_dirs e)
                   (sqlite3_connect_keeps_dirs e) _ _ _ _ H0); exact Ds0).
  assert (S1 : stdout w1 = report_head ex)
    by (rewrite (_connect_keeps stdout e (execute_keeps_stdout e)
                   (sqlite3_connect_keeps_stdout e) _ _ _ _ H0); exact S0).
  destruct Hm as [(x & -> & H1)|(n & w2 & H1 & Hm)].
  { left. exists x. split; [reflexivity|].
    split; [exact (try_body_throws _ _ _ _ H1)|].
    rewrite (try_body_keeps files e (execute_keeps_files e)
               (commit_keeps_files e) close_keeps_files _ _ _ H1).
    rewrite (try_body_keeps dirs e (execute_keeps_dirs e)
               (commit_keeps_dirs e) close_keeps_dirs _ _ _ H1).
    rewrite (try_body_keeps stdout e (execute_keeps_stdout e)
               (commit_keeps_stdout e) close_keeps_stdout _ _ _ H1).
    repeat (split; [assumption|]).
    exact (triple_run _ _ _ _ _ _ _ (try_body_outcome e d) P1 H1). }
  pose proof (triple_run _ _ _ _ _ _ _ (try_body_outcome e d) P1 H1) as P2.
  cbv beta in P2. destruct P2 as (Hi & Hn & Hc).
  assert (S2 : stdout w2 = report_head ex)
    by (rewrite (try_body_keeps stdout e (execute_keeps_stdout e)
                   (commit_keeps_stdout e) close_keeps_stdout _ _ _ H1); exact S1).
  right.
  destruct Hm as [(x & -> & H2)|(w3 & H2 & -> & ->)].
  - left. exists x. split; [reflexivity|].
    split; [exact (_write_connection_files_throws _ _ _ _ _ H2)|].
    rewrite (keeps_run db_file _ _ _ _ (_write_connection_files_keeps_db _ _) H2).
    rewrite (keeps_run conn _ _ _ _ (_write_connection_files_keeps_conn _ _) H2).
    split; [exact Hi|]. split; [exact Hc|].
    rewrite <- S2. eapply keeps_run; [|exact H2].
    unfold _write_connection_files.
    auto 20 using open_w_keeps_stdout, write_keeps_stdout, makedirs_keeps_stdout
      with keeps.
  - right. split; [reflexivity|].
    destruct (printed_fields (report_tail (getcwd e) n) w3)
      as (S3 & _ & D3 & C3 & _).
    rewrite S3, D3, C3.
    rewrite (keeps_run db_file _ _ _ _ (_write_connection_files_keeps_db _ _) H2).
    rewrite (keeps_run conn _ _ _ _ (_write_connection_files_keeps_conn _ _) H2).
    split; [exact Hi|]. split; [exact Hc|]. rewrite Hn. f_equal.
    rewrite <- S2. eapply keeps_run; [|exact H2].
    unfold _write_connection_files.
    auto 20 using open_w_keeps_stdout, write_keeps_stdout, makedirs_keeps_stdout
      with keeps.
Qed.

Lemma blocked_run :
  main sample_env blocked
  = (Raise (OSError "File exists: db_visualizer"), snd (main sample_env blocked)).
Proof. vm_compute. reflexivity. Qed.

(** ** A run that has committed *)

(** X2.  Once the commit of a run has taken place, the file holds all that the
    try block of [main] was to do, however the run ends afterwards: the
    rows it started with, followed by the seed categories that were
    missing, and a table of tasks that is not empty. *)
Theorem committed_run_is_complete e ex d f ds r w' :
  main e (boot ex d f ds) = (r, w') -> In Committed (log w') ->
  initialized d (db_file w') /\
  exists cs' ts' extra,
    rows_are cs' ts' (db_file w') /\ seeds_taken cs' /\ ts' <> [] /\
    cs' = (default [] (categories d) ++ extra)%list.
Proof.
  intros Hm Hc.
  assert (Hi : initialized d (db_file w')).
  { apply main_cases in Hm.
    destruct Hm as [(x & _ & _ & _ & _ & _ & [Hn|Hi])|[(x & _ & _ & Hi & _)|(_ & Hi & _)]];
      [contradiction (Hn Hc) | exact Hi | exact Hi | exact Hi]. }
  split; [exact Hi|]. apply initialized_inv in Hi.
  destruct Hi as (cs & cs' & ts' & Hcs & Hcs' & Hrows & Hts' & Hcase).
  destruct (seed_rows_grow _ _ _ Hrows) as (extra & Hex & _).
  exists cs', ts', extra. split; [split; assumption|]. split; [|split].
  - intros n c o Hin. exact (proj2 (seed_rows_taken _ _ _ Hrows) n c o Hin).
  - destruct Hcase as [[_ Hst]|[Hne _]]; [|exact Hne].
    eapply starter_tasks_nonempty; exact Hst.
  - rewrite Hcs. exact Hex.
Qed.

Lemma committed_run_is_complete_witness :
  main sample_env blocked
    = (Raise (OSError "File exists: db_visualizer"), snd (main sample_env blocked)) /\
  In Committed (log (snd (main sample_env blocked))) /\
  initialized empty_database (db_file (snd (main sample_env blocked))).
Proof.
  assert (Hc : In Committed (log (snd (main sample_env blocked))))
    by (vm_compute; tauto).
  split; [exact blocked_run|]. split; [exact Hc|].
  exact (proj1 (committed_run_is_complete sample_env false empty_database
                  {[ "db_visualizer" := "not a directory" ]} ∅ _ _ blocked_run Hc)).
Defined.

(** ** How a run fails *)

(** X3.  A run that fails has failed in one of two ways.  Either the engine
    (or the [sqlite3] module) raised, and then no descriptor file and no
    directory has been touched; or the file system raised while the
    descriptors were written, and by then the database has been committed
    in full and the handle closed. *)
Theorem failure_kinds e ex d f ds x w' :
  main e (boot ex d f ds) = (Raise x, w') ->
  (engine_error x /\ files w' = f /\ dirs w' = ds) \/
  (os_error x /\ initialized d (db_file w') /\ conn w' = None).
Proof.
  intros Hm. apply main_cases in Hm.
  destruct Hm as [(y & [= <-] & Hx & Hf & Hd & _)
                 |[(y & [= <-] & Hx & Hi & Hc & _)|(Hr & _)]].
  - left. auto.
  - right. auto.
  - discriminate Hr.
Qed.

Lemma failure_kinds_witness :
  main sample_env blocked
    = (Raise (OSError "File exists: db_visualizer"), snd (main sample_env blocked)) /\
  ((engine_error (OSError "File exists: db_visualizer") /\
    files (snd (main sample_env blocked)) = {[ "db_visualizer" := "not a directory" ]} /\
    dirs (snd (main sample_env blocked)) = ∅) \/
   (os_error (OSError "File exists: db_visualizer") /\
    initialized empty_database (db_file (snd (main sample_env blocked))) /\
    conn (snd (main sample_env blocked)) = None)).
Proof.
  split; [exact blocked_run|].
  exact (failure_kinds sample_env false empty_database
           {[ "db_visualizer" := "not a directory" ]} ∅ _ _ blocked_run).
Defined.

(** ** What a run prints *)

(** X4.  The report of a run that succeeds: the two opening lines, which say
    whether the database file was there, and the closing lines, whose
    statistics are the counts of the database file as the run leaves it. *)
Theorem report_matches_database e ex d f ds w' :
  main e (boot ex d f ds) = (Ok (), w') ->
  stdout w' = (report_head ex
               ++ report_tail (getcwd e) (counts_of (db_file w')))%list.
Proof.
  intros Hm. apply main_cases in Hm.
  destruct Hm as [(y & Hr & _)|[(y & Hr & _)|(_ & _ & _ & Hs)]];
    [discriminate Hr | discriminate Hr | exact Hs].
Qed.

Lemma report_matches_database_witness :
  main sample_env (boot true with_done_task ∅ ∅)
    = (Ok (), snd (main sample_env (boot true with_done_task ∅ ∅))) /\
  stdout (snd (main sample_env (boot true with_done_task ∅ ∅)))
  = (report_head true
     ++ report_tail "/app/database"
          (counts_of (db_file (snd (main sample_env (boot true with_done_task ∅ ∅))))))%list.
Proof.
  split; [exact with_done_task_run_ok|].
  exact (report_matches_database sample_env true with_done_task ∅ ∅ _
           with_done_task_run_ok).
Defined.

(** X5.  A run that fails has printed its two opening lines and nothing else:
    no statistics, and no word of success. *)
Theorem failed_run_reports_nothing e ex d f ds x w' :
  main e (boot ex d f ds) = (Raise x, w') -> stdout w' = report_head ex.
Proof.
  intros Hm. apply main_cases in Hm.
  destruct Hm as [(y & _ & _ & _ & _ & Hs & _)|[(y & _ & _ & _ & _ & Hs)|(Hr & _)]];
    [exact Hs | exact Hs | discriminate Hr].
Qed.

Lemma failed_run_reports_nothing_witness :
  main failing_env fresh
    = (Raise (OperationalError "disk I/O error"), snd (main failing_env fresh)) /\
  stdout (snd (main failing_env fresh))
  = [ "Starting SQLite setup..."; "Creating new SQLite database..." ].
Proof.
  split; [exact failing_run|].
  exact (failed_run_reports_nothing failing_env false empty_database ∅ ∅ _ _
           failing_run).
Defined.

(** ** Descriptors that cannot be written *)

Lemma bind_ok {A B : Type} (m : M A) (k : A -> M B) w a w1 :
  m w = (Ok a, w1) -> bind m k w = k a w1.
Proof. intros H. unfold bind. rewrite H. reflexivity. Qed.

Lemma bind_raise {A B : Type} (m : M A) (k : A -> M B) w x w1 :
  m w = (Raise x, w1) -> bind m k w = (Raise x, w1).
Proof. intros H. unfold bind. rewrite H. reflexivity. Qed.

Lemma write_bind {B : Type} p t (k : () -> M B) w :
  bind (write p t) k w = k () (snd (write p t w)).
Proof. reflexivity. Qed.

Lemma write_fields p t w :
  files (snd (write p t w))
  = <[p := (default "" (files w !! p) ++ t)%string]> (files w).
Proof. reflexivity. Qed.

Lemma write_dirs p t w : dirs (snd (write p t w)) = dirs w.
Proof. reflexivity. Qed.

Lemma write_db_file p t w : db_file (snd (write p t w)) = db_file w.
Proof. reflexivity. Qed.

Lemma open_w_top p w :
  p ∉ dirs w -> dirname p = "" ->
  open_w p w = (Ok (), logged (Opened p) (with_files (<[p := ""]> (files w)) w)).
Proof.
  intros Hp Hd. unfold open_w. destruct (decide _); [contradiction|].
  rewrite Hd. reflexivity.
Qed.

Lemma makedirs_blocked name w :
  name ∉ dirs w -> is_Some (files w !! name) ->
  makedirs name w = (Raise (OSError ("File exists: " ++ name)), w).
Proof.
  intros Hd Hf. unfold makedirs. destruct (decide _); [contradiction|].
  destruct (decide _); [reflexivity|contradiction].
Qed.

(** X6.  The two descriptors are not written as one.  When db_visualizer is
    there as a regular file, [_write_connection_files] raises, and by then
    it has rewritten db_connection.txt; nothing else has changed. *)
Theorem descriptors_not_atomic e p w :
  "db_connection.txt" ∉ dirs w -> "db_visualizer" ∉ dirs w ->
  is_Some (files w !! "db_visualizer") ->
  exists w',
    _write_connection_files e p w
    = (Raise (OSError "File exists: db_visualizer"), w') /\
    files w' = <["db_connection.txt" := unlines (text_lines (getcwd e))]> (files w) /\
    dirs w' = dirs w /\ db_file w' = db_file w.
Proof.
  unfold _write_connection_files.
  assert (Hne : "db_connection.txt" <> "db_visualizer") by discriminate.
  assert (Hdn : dirname "db_connection.txt" = "") by reflexivity.
  assert (Hmsg : ("File exists: " ++ "db_visualizer")%string
                 = "File exists: db_visualizer") by reflexivity.
  assert (Htxt : forall cwd,
             ((((("" ++ ("# SQLite connection methods:" ++ nl))
                 ++ ("# Python: sqlite3.connect('" ++ DB_NAME ++ "')" ++ nl))
                ++ ("# Connection string: " ++ connection_string cwd ++ nl))
               ++ ("# File path: " ++ cwd ++ "/" ++ DB_NAME ++ nl)))%string
             = unlines (text_lines cwd)).
  { intros cwd. unfold connection_string, DB_NAME, unlines, text_lines.
    cbn [fold_right]. rewrite !append_assoc. reflexivity. }
  revert Hne Hdn Hmsg Htxt.
  generalize "File exists: db_visualizer" as msg.
  generalize "db_connection.txt" as txt, "db_visualizer/sqlite.env" as envf,
             "db_visualizer" as dir.
  intros txt envf dir msg Hne Hdn Hmsg Htxt Htd Hdd Hf.
  rewrite (bind_ok _ _ _ _ _ (open_w_top txt w Htd Hdn)).
  rewrite !write_bind.
  match goal with |- context [bind (makedirs dir) _ ?W] => set (w5 := W) end.
  assert (F5 : files w5 = <[txt := unlines (text_lines (getcwd e))]> (files w)).
  { subst w5. rewrite !write_fields. unfold logged, with_files. cbn [files].
    rewrite !lookup_insert_eq. cbn [from_option id].
    rewrite !insert_insert_eq. rewrite Htxt. reflexivity. }
  assert (D5 : dirs w5 = dirs w) by (subst w5; rewrite !write_dirs; reflexivity).
  assert (B5 : db_file w5 = db_file w)
    by (subst w5; rewrite !write_db_file; reflexivity).
  assert (Hd5 : dir ∉ dirs w5) by (rewrite D5; exact Hdd).
  assert (Hf5 : is_Some (files w5 !! dir))
    by (rewrite F5, lookup_insert_ne by exact Hne; exact Hf).
  exists w5. split; [|auto].
  rewrite (bind_raise _ _ _ _ _ (makedirs_blocked dir w5 Hd5 Hf5)), Hmsg.
  reflexivity.
Qed.

Lemma descriptors_not_atomic_witness :
  ("db_connection.txt" ∉ dirs blocked) /\ ("db_visualizer" ∉ dirs blocked) /\
  is_Some (files blocked !! "db_visualizer") /\
  exists w',
    _write_connection_files sample_env DB_NAME blocked
    = (Raise (OSError "File exists: db_visualizer"), w') /\
    files w' = <["db_connection.txt" := unlines (text_lines "/app/database")]>
                 (files blocked) /\
    dirs w' = dirs blocked /\ db_file w' = db_file blocked.
Proof.
  assert (H1 : "db_connection.txt" ∉ dirs blocked) by apply not_elem_of_empty.
  assert (H2 : "db_visualizer" ∉ dirs blocked) by apply not_elem_of_empty.
  assert (H3 : is_Some (files blocked !! "db_visualizer"))
    by (exists "not a directory"; vm_compute; reflexivity).
  split; [exact H1|]. split; [exact H2|]. split; [exact H3|].
  exact (descriptors_not_atomic sample_env DB_NAME blocked H1 H2 H3).
Defined.

(** ** Keys *)

Lemma NoDup_snoc {A : Type} (l : list A) x :
  List.NoDup l -> ~ In x l -> List.NoDup (l ++ [x]).
Proof.
  induction l as [|a l IH]; simpl; intros Hn Hx.
  - constructor; [intros []|constructor].
  - inversion Hn as [|? ? Ha Hl]; subst. constructor.
    + rewrite in_app_iff. simpl. intuition.
    + apply IH; [exact Hl|]. intuition.
Qed.

Lemma NoDup_fmap_filter {A B : Type} (f : A -> B) (p : A -> bool) (l : list A) :
  List.NoDup (f <$> l) -> List.NoDup (f <$> List.filter p l).
Proof.
  induction l as [|a l IH]; simpl; intros Hn; [constructor|].
  inversion Hn as [|? ? Ha Hl]; subst.
  destruct (p a); simpl; [constructor|]; auto.
  intros Hin. apply Ha. apply in_map_iff in Hin. destruct Hin as (y & Hy & Hin).
  apply filter_In in Hin. apply in_map_iff. exists y. tauto.
Qed.

Lemma fmap_same_key {A B : Type} (f : A -> B) (g : A -> A) (l : list A) :
  (forall a, f (g a) = f a) -> f <$> (g <$> l) = f <$> l.
Proof.
  intros H. induction l as [|a l IH]; simpl; [reflexivity|].
  rewrite H. f_equal. exact IH.
Qed.

Lemma NoDup_fmap_inj {A B : Type} (f : A -> B) (l : list A) a b :
  List.NoDup (f <$> l) -> In a l -> In b l -> f a = f b -> a = b.
Proof.
  induction l as [|c l IH]; simpl; intros Hn Ha Hb Hf; [contradiction|].
  inversion Hn as [|? ? Hc Hl]; subst.
  destruct Ha as [->|Ha], Hb as [->|Hb]; auto.
  - exfalso. apply Hc. rewrite Hf. apply (in_map f). exact Hb.
  - exfalso. apply Hc. rewrite <- Hf. apply (in_map f). exact Ha.
Qed.

Lemma NoDup_renumber old new (cs : list category) :
  List.NoDup (cat_id <$> cs) -> old = new \/ ~ In new (cat_id <$> cs) ->
  List.NoDup (cat_id <$> (renumber old new <$> cs)).
Proof.
  intros Hn [->|Hnew].
  - rewrite fmap_same_key; [exact Hn|].
    intros c. unfold renumber. destruct (cat_id c =? new) eqn:E; [|reflexivity].
    apply Z.eqb_eq in E. simpl. auto.
  - assert (Hid : forall c, cat_id (renumber old new c)
                            = if cat_id c =? old then new else cat_id c).
    { intros c. unfold renumber. destruct (cat_id c =? old); reflexivity. }
    induction cs as [|a cs IH]; simpl; [constructor|].
    simpl in Hn, Hnew. inversion Hn as [|? ? Ha Hl]; subst.
    constructor; [|apply IH; [exact Hl|tauto]].
    intros Hin. apply in_map_iff in Hin. destruct Hin as (c' & Hc' & Hin).
    apply in_map_iff in Hin. destruct Hin as (b & <- & Hb).
    rewrite !Hid in Hc'.
    assert (Hbin : In (cat_id b) (cat_id <$> cs)) by (apply (in_map cat_id); exact Hb).
    destruct (cat_id b =? old) eqn:Eb, (cat_id a =? old) eqn:Ea;
      try apply Z.eqb_eq in Eb; try apply Z.eqb_eq in Ea.
    + apply Ha. rewrite Ea, <- Eb. exact Hbin.
    + apply Hnew. left. symmetry. exact Hc'.
    + apply Hnew. right. rewrite <- Hc'. exact Hbin.
    + apply Ha. rewrite <- Hc'. exact Hbin.
Qed.

Lemma category_conflict_false i name cs c :
  category_conflict i name cs = false -> In c cs ->
  cat_id c <> i /\ nocase_eq (cat_name c) name = false.
Proof.
  unfold category_conflict. intros Hf Hin.
  destruct ((cat_id c =? i) || nocase_eq (cat_name c) name) eqn:E.
  - assert (Ht : existsb (fun c => (cat_id c =? i) || nocase_eq (cat_name c) name) cs
                 = true) by (apply existsb_exists; exists c; auto).
    congruence.
  - apply orb_false_iff in E. destruct E as [E1 E2]. split; [|exact E2].
    apply Z.eqb_neq. exact E1.
Qed.

Lemma keyed_rows d d' : rows_of d' = rows_of d -> keyed d -> keyed d'.
Proof.
  unfold rows_of, keyed. intros [= -> -> _]. tauto.
Qed.

Lemma keyed_insert_category oi now v db db' :
  insert_category oi now v db = Ok db' -> keyed db -> keyed db'.
Proof.
  intros H (K1 & K2 & K3). apply insert_category_inv in H.
  destruct H as (cs & Hcs & Ht & _ & [Hc|(i & name & _ & Hconf & Hc)]);
    unfold keyed; rewrite Ht, Hc; rewrite Hcs in K1, K2; simpl in *; [tauto|].
  rewrite !fmap_app. simpl. split; [|split; [|exact K3]].
  - apply NoDup_snoc; [exact K1|]. intros Hin. apply in_map_iff in Hin.
    destruct Hin as (c & Hc1 & Hc2).
    destruct (category_conflict_false _ _ _ _ Hconf Hc2) as [Hne _]. auto.
  - apply NoDup_snoc; [exact K2|]. intros Hin. apply in_map_iff in Hin.
    destruct Hin as (c & Hc1 & Hc2).
    destruct (category_conflict_false _ _ _ _ Hconf Hc2) as [_ Hnc].
    apply nocase_eq_lower in Hc1. congruence.
Qed.

Lemma insert_task_key fk now v db db' :
  insert_task fk now v db = Ok db' ->
  exists ts row,
    tasks db = Some ts /\ tasks db' = Some (ts ++ [row])%list /\
    categories db' = categories db /\ ~ In (task_id row) (task_id <$> ts) /\
    fk_ok fk (category_id row) db = true.
Proof.
  unfold insert_task. destruct (tasks db) as [ts|]; [|discriminate].
  destruct (choose_rowid _ _ _ _) as [i|]; [|discriminate].
  destruct (tv_title v) as [ttl|]; [|discriminate].
  destruct (negb (tasks_check _)); [discriminate|].
  destruct (existsb _ ts) eqn:Eid; [discriminate|].
  destruct (fk_ok _ _ _) eqn:Efk; [|discriminate]. simpl. intros [= <-].
  exists ts, (task_of_values i ttl now v). simpl.
  rewrite set_seq_categories. repeat split; auto.
  intros Hin. apply in_map_iff in Hin. destruct Hin as (t & Ht & Hin).
  assert (Hex : existsb (fun t => task_id t =? i) ts = true)
    by (apply existsb_exists; exists t; split; [exact Hin|apply Z.eqb_eq; exact Ht]).
  congruence.
Qed.

Lemma keyed_insert_task fk now v db db' :
  insert_task fk now v db = Ok db' -> keyed db -> keyed db'.
Proof.
  intros H (K1 & K2 & K3). apply insert_task_key in H.
  destruct H as (ts & row & Hts & Hts' & Hc & Hnew & _).
  unfold keyed. rewrite Hc, Hts'. rewrite Hts in K3. simpl in *.
  split; [exact K1|]. split; [exact K2|].
  rewrite fmap_app. apply NoDup_snoc; assumption.
Qed.

Lemma task_id_clear i t : task_id (clear_reference i t) = task_id t.
Proof.
  unfold clear_reference. destruct (category_id t) as [k|]; [|reflexivity].
  destruct (k =? i); reflexivity.
Qed.

Lemma task_id_move old new t : task_id (move_reference old new t) = task_id t.
Proof.
  unfold move_reference. destruct (category_id t) as [k|]; [|reflexivity].
  destruct (k =? old); reflexivity.
Qed.

Lemma cat_name_renumber old new c : cat_name (renumber old new c) = cat_name c.
Proof. unfold renumber. destruct (cat_id c =? old); reflexivity. Qed.

Lemma keyed_schema s : In s schema_statements -> stmt_keeps keyed s.
Proof.
  intros Hs fk now db db' r Hdb Hr.
  apply run_not_dml in Hr; [|apply schema_not_dml; exact Hs].
  destruct Hr as (Hrows & _). exact (keyed_rows _ _ Hrows Hdb).
Qed.

Lemma keyed_category s : In s category_statements -> stmt_keeps keyed s.
Proof.
  intros Hs fk now db db' r Hdb Hr.
  apply category_statement_inv in Hs. destruct Hs as (n & c & o & _ & ->).
  simpl in Hr. apply with_db_inv in Hr. destruct Hr as [Hr _].
  eapply keyed_insert_category; eassumption.
Qed.

Lemma keyed_task s : In s task_statements -> stmt_keeps keyed s.
Proof.
  intros Hs fk now db db' r Hdb Hr.
  apply task_statement_inv in Hs. destruct Hs as (t & d & c & p & ->).
  simpl in Hr. apply with_db_inv in Hr. destruct Hr as [Hr _].
  eapply keyed_insert_task; eassumption.
Qed.

Lemma keyed_main e ex d f ds r w' :
  keyed d -> main e (boot ex d f ds) = (r, w') -> keyed (db_file w').
Proof.
  intros Hd Hm.
  pose proof (triple_run _ _ _ _ _ _ _
                (main_both keyed e keyed_schema keyed_category
                   (fun _ => keyed_task))
                (boot_both keyed ex d f ds Hd) Hm) as H.
  destruct r; apply H.
Qed.

Lemma keyed_app fk now o d d' :
  apply_op fk now o d = Ok d' -> keyed d -> keyed d'.
Proof.
  destruct o as [oi v|v|i v|i|i|old new]; simpl; intros H Hd.
  - eapply keyed_insert_category; eassumption.
  - eapply keyed_insert_task; eassumption.
  - unfold update_task in H. destruct (tasks d) as [ts|] eqn:Hts; [|discriminate].
    destruct (existsb _ ts); simpl in H; [|injection H as <-; exact Hd].
    destruct (tv_title v) as [ttl|]; [|discriminate].
    destruct (tasks_check _); [|discriminate]. simpl in H.
    destruct (fk_ok _ _ _); [|discriminate]. simpl in H. injection H as <-.
    destruct Hd as (K1 & K2 & K3). unfold keyed. simpl.
    split; [exact K1|]. split; [exact K2|]. rewrite Hts in K3. simpl in K3.
    rewrite fmap_same_key; [exact K3|].
    intros t. destruct (task_id t =? i) eqn:E; [|reflexivity].
    apply Z.eqb_eq in E. simpl. auto.
  - unfold delete_task in H. destruct (tasks d) as [ts|] eqn:Hts; [|discriminate].
    injection H as <-. destruct Hd as (K1 & K2 & K3). unfold keyed. simpl.
    split; [exact K1|]. split; [exact K2|]. rewrite Hts in K3. simpl in K3.
    apply NoDup_fmap_filter. exact K3.
  - unfold delete_category in H.
    destruct (categories d) as [cs|] eqn:Hcs; [|discriminate].
    destruct Hd as (K1 & K2 & K3). rewrite Hcs in K1, K2. simpl in K1, K2.
    assert (K1' : List.NoDup (cat_id <$> List.filter (fun c => negb (cat_id c =? i)) cs))
      by (apply NoDup_fmap_filter; exact K1).
    assert (K2' : List.NoDup ((fun c => lower (cat_name c))
                               <$> List.filter (fun c => negb (cat_id c =? i)) cs))
      by (apply NoDup_fmap_filter; exact K2).
    destruct (tasks d) as [ts|] eqn:Hts.
    + simpl in K3.
      destruct (fk && _); injection H as <-; unfold keyed; simpl; rewrite ?Hts;
        simpl; (split; [exact K1'|]; split; [exact K2'|]); [|exact K3].
      rewrite fmap_same_key; [exact K3|]. intros t. apply task_id_clear.
    + injection H as <-. unfold keyed. simpl. rewrite Hts. simpl.
      split; [exact K1'|]. split; [exact K2'|]. constructor.
  - unfold update_category_id in H.
    destruct (categories d) as [cs|] eqn:Hcs; [|discriminate].
    destruct (negb _); [injection H as <-; exact Hd|].
    destruct (negb (old =? new) && _) eqn:Econf; [discriminate|].
    destruct Hd as (K1 & K2 & K3). rewrite Hcs in K1, K2. simpl in K1, K2.
    assert (Hnew : old = new \/ ~ In new (cat_id <$> cs)).
    { apply andb_false_iff in Econf. destruct Econf as [E|E].
      - left. apply negb_false_iff, Z.eqb_eq in E. exact E.
      - right. intros Hin. apply existsb_cat_id in Hin. congruence. }
    assert (K1' : List.NoDup (cat_id <$> (renumber old new <$> cs)))
      by (apply NoDup_renumber; assumption).
    assert (K2' : List.NoDup ((fun c => lower (cat_name c))
                               <$> (renumber old new <$> cs))).
    { rewrite fmap_same_key; [exact K2|]. intros c.
      rewrite cat_name_renumber. reflexivity. }
    destruct (tasks d) as [ts|] eqn:Hts.
    + simpl in K3.
      destruct fk; injection H as <-; unfold keyed; simpl; rewrite ?Hts;
        simpl; (split; [exact K1'|]; split; [exact K2'|]); [|exact K3].
      rewrite fmap_same_key; [exact K3|]. intros t. apply task_id_move.
    + injection H as <-. unfold keyed. simpl. rewrite Hts. simpl.
      split; [exact K1'|]. split; [exact K2'|]. constructor.
Qed.

Lemma reachable_keyed d : reachable d -> keyed d.
Proof.
  induction 1 as [|e ex d f ds r w' _ IH Hm|fk now o d d' _ IH Ho].
  - repeat split; constructor.
  - eapply keyed_main; eassumption.
  - eapply keyed_app; eassumption.
Qed.

(** X7.  In every database file that runs of the script and statements of the
    application can bring about, no two categories share an id, no two
    categories have names that are equal up to case, and no two tasks
    share an id. *)
Theorem keys_are_unique d :
  reachable d ->
  (forall c1 c2,
      In c1 (default [] (categories d)) -> In c2 (default [] (categories d)) ->
      cat_id c1 = cat_id c2 \/ nocase_eq (cat_name c1) (cat_name c2) = true ->
      c1 = c2) /\
  (forall t1 t2,
      In t1 (default [] (tasks d)) -> In t2 (default [] (tasks d)) ->
      task_id t1 = task_id t2 -> t1 = t2).
Proof.
  intros Hr. apply reachable_keyed in Hr. destruct Hr as (K1 & K2 & K3). split.
  - intros c1 c2 H1 H2 [Hid|Hname].
    + exact (NoDup_fmap_inj cat_id _ _ _ K1 H1 H2 Hid).
    + apply nocase_eq_lower in Hname.
      exact (NoDup_fmap_inj (fun c => lower (cat_name c)) _ _ _ K2 H1 H2 Hname).
  - intros t1 t2 H1 H2 Hid. exact (NoDup_fmap_inj task_id _ _ _ K3 H1 H2 Hid).
Qed.

Lemma keys_are_unique_witness :
  reachable with_done_task /\
  (forall t1 t2,
      In t1 (default [] (tasks with_done_task)) ->
      In t2 (default [] (tasks with_done_task)) ->
      task_id t1 = task_id t2 -> t1 = t2).
Proof.
  split; [exact with_done_task_reachable|].
  exact (proj2 (keys_are_unique with_done_task with_done_task_reachable)).
Defined.

(** ** References *)

Lemma referenced_rows d d' : rows_of d' = rows_of d -> referenced d -> referenced d'.
Proof. unfold rows_of, referenced. intros [= -> -> _]. tauto. Qed.

Lemma referenced_insert_category oi now v db db' :
  insert_category oi now v db = Ok db' -> referenced db -> referenced db'.
Proof.
  intros H Hdb. apply insert_category_inv in H.
  destruct H as (cs & Hcs & Ht & _ & [Hc|(i & name & _ & _ & Hc)]);
    unfold referenced in *; rewrite Ht, Hc; rewrite Hcs in Hdb; simpl in *;
    [exact Hdb|].
  intros t k Hin Hk. rewrite fmap_app. apply in_app_iff. left. eauto.
Qed.

Lemma fk_ok_on k db :
  fk_ok true (Some k) db = true -> In k (cat_id <$> default [] (categories db)).
Proof. simpl. apply existsb_cat_id. Qed.

Lemma referenced_schema s : In s schema_statements -> stmt_keeps referenced s.
Proof.
  intros Hs fk now db db' r Hdb Hr.
  apply run_not_dml in Hr; [|apply schema_not_dml; exact Hs].
  destruct Hr as (Hrows & _). exact (referenced_rows _ _ Hrows Hdb).
Qed.

Lemma referenced_category s : In s category_statements -> stmt_keeps referenced s.
Proof.
  intros Hs fk now db db' r Hdb Hr.
  apply category_statement_inv in Hs. destruct Hs as (n & c & o & _ & ->).
  simpl in Hr. apply with_db_inv in Hr. destruct Hr as [Hr _].
  eapply referenced_insert_category; eassumption.
Qed.

(** The starter tasks take their reference from the table itself, so it
    holds whether or not the connection looks at foreign keys. *)
Lemma referenced_task s : In s task_statements -> stmt_keeps referenced s.
Proof.
  intros Hs fk now db db' r Hdb Hr.
  apply task_statement_inv in Hs. destruct Hs as (ttl & descr & cname & prio & ->).
  apply run_step, step_task in Hr.
  destruct Hr as (ts & i & created & updated & Hts & Hc & _ & Hts').
  unfold referenced in *. rewrite Hts', Hc. rewrite Hts in Hdb. simpl in *.
  intros t k Hin Hk. apply in_app_iff in Hin. destruct Hin as [Hin|[<-|[]]].
  - eauto.
  - simpl in Hk. unfold select_category_id in Hk.
    destruct (find _ _) as [c|] eqn:F; [|discriminate Hk].
    simpl in Hk. injection Hk as <-. apply find_some in F.
    apply (in_map cat_id). tauto.
Qed.

Lemma referenced_main e ex d f ds r w' :
  referenced d -> main e (boot ex d f ds) = (r, w') -> referenced (db_file w').
Proof.
  intros Hd Hm.
  pose proof (triple_run _ _ _ _ _ _ _
                (main_both referenced e referenced_schema referenced_category
                   (fun _ => referenced_task))
                (boot_both referenced ex d f ds Hd) Hm) as H.
  destruct r; apply H.
Qed.

Lemma referenced_app now o d d' :
  apply_op true now o d = Ok d' -> referenced d -> referenced d'.
Proof.
  destruct o as [oi v|v|i v|i|i|old new]; simpl; intros H Hd.
  - eapply referenced_insert_category; eassumption.
  - apply insert_task_key in H.
    destruct H as (ts & row & Hts & Hts' & Hc & _ & Hfk).
    unfold referenced in *. rewrite Hts', Hc. rewrite Hts in Hd. simpl in *.
    intros t k Hin Hk. apply in_app_iff in Hin. destruct Hin as [Hin|[<-|[]]].
    + eauto.
    + rewrite Hk in Hfk. apply fk_ok_on. exact Hfk.
  - unfold update_task in H. destruct (tasks d) as [ts|] eqn:Hts; [|discriminate].
    destruct (existsb _ ts); simpl in H; [|injection H as <-; exact Hd].
    destruct (tv_title v) as [ttl|]; [|discriminate].
    destruct (tasks_check _); [|discriminate]. simpl in H.
    destruct (fk_ok true (tv_category_id v) d) eqn:Hfk; [|discriminate].
    simpl in H. injection H as <-.
    unfold referenced in *. rewrite Hts in Hd. simpl in *.
    intros t k Hin Hk. apply in_map_iff in Hin. destruct Hin as (t0 & <- & Hin).
    destruct (task_id t0 =? i).
    + simpl in Hk. rewrite Hk in Hfk. apply fk_ok_on. exact Hfk.
    + eauto.
  - unfold delete_task in H. destruct (tasks d) as [ts|] eqn:Hts; [|discriminate].
    injection H as <-. unfold referenced in *. rewrite Hts in Hd. simpl in *.
    intros t k Hin Hk. apply filter_In in Hin. destruct Hin as [Hin _]. eauto.
  - unfold delete_category in H.
    destruct (categories d) as [cs|] eqn:Hcs; [|discriminate].
    assert (Hkeep : forall k, k <> i -> In k (cat_id <$> cs) ->
              In k (cat_id <$> List.filter (fun c => negb (cat_id c =? i)) cs)).
    { intros k Hne Hin. apply in_map_iff in Hin. destruct Hin as (c & <- & Hin).
      apply (in_map cat_id). apply filter_In. split; [exact Hin|].
      apply negb_true_iff, Z.eqb_neq. exact Hne. }
    destruct (tasks d) as [ts|] eqn:Hts.
    + simpl in H. destruct (existsb _ cs) eqn:Eex; injection H as <-;
        unfold referenced in *; rewrite Hcs, Hts in Hd; simpl in *; rewrite ?Hts;
        simpl; intros t k Hin Hk.
      * apply in_map_iff in Hin. destruct Hin as (t0 & <- & Hin).
        destruct (clear_reference_spec i t0) as (Hc1 & Hc2 & _).
        destruct (decide (category_id t0 = Some i)) as [Heq|Hne].
        { rewrite (Hc1 Heq) in Hk. discriminate Hk. }
        rewrite (Hc2 Hne) in Hk. apply Hkeep; [congruence|eauto].
      * apply Hkeep; [|eauto]. intros ->.
        assert (Hex : existsb (fun c => cat_id c =? i) cs = true)
          by (apply existsb_cat_id; eauto).
        congruence.
    + injection H as <-. unfold referenced. simpl. rewrite Hts. intros t k [].
  - unfold update_category_id in H.
    destruct (categories d) as [cs|] eqn:Hcs; [|discriminate].
    destruct (existsb _ cs) eqn:Eold; simpl in H; [|injection H as <-; exact Hd].
    destruct (negb (old =? new) && _); [discriminate|].
    assert (Hnew : In new (cat_id <$> (renumber old new <$> cs))).
    { apply existsb_exists in Eold. destruct Eold as (c & Hin & Hc).
      apply in_map_iff. exists (renumber old new c). split.
      - unfold renumber. rewrite Hc. reflexivity.
      - apply in_map. exact Hin. }
    assert (Hkeep : forall k, k <> old -> In k (cat_id <$> cs) ->
              In k (cat_id <$> (renumber old new <$> cs))).
    { intros k Hne Hin. apply in_map_iff in Hin. destruct Hin as (c & <- & Hin).
      apply in_map_iff. exists (renumber old new c). split.
      - unfold renumber. destruct (cat_id c =? old) eqn:E; [|reflexivity].
        apply Z.eqb_eq in E. contradiction.
      - apply in_map. exact Hin. }
    destruct (tasks d) as [ts|] eqn:Hts.
    + injection H as <-. unfold referenced in *. rewrite Hcs, Hts in Hd.
      simpl in *. intros t k Hin Hk.
      apply in_map_iff in Hin. destruct Hin as (t0 & <- & Hin).
      destruct (move_reference_spec old new t0) as (Hm1 & Hm2 & _).
      destruct (decide (category_id t0 = Some old)) as [Heq|Hne].
      { rewrite (Hm1 Heq) in Hk. injection Hk as <-. exact Hnew. }
      rewrite (Hm2 Hne) in Hk. apply Hkeep; [congruence|eauto].
    + injection H as <-. unfold referenced. simpl. rewrite Hts. intros t k [].
Qed.

Lemma seeded_once_referenced : referenced seeded_once.
Proof.
  refine (referenced_main sample_env false empty_database ∅ ∅ _ _ _ fresh_run_ok).
  intros t k [].
Qed.

Lemma orphaned_ok : apply_op false 0 (AppDeleteCategory 1) seeded_once = Ok orphaned.
Proof. vm_compute. reflexivity. Qed.

Lemma orphaned_not_referenced : ~ referenced orphaned.
Proof.
  assert (Hts : category_id <$> default [] (tasks orphaned) = [Some 1; Some 2; Some 3])
    by (vm_compute; reflexivity).
  assert (Hcs : cat_id <$> default [] (categories orphaned) = [2; 3; 4])
    by (vm_compute; reflexivity).
  intros H. unfold referenced in H. rewrite Hcs in H.
  destruct (default [] (tasks orphaned)) as [|t l]; [discriminate Hts|].
  injection Hts as Ht _.
  specialize (H t 1 (or_introl eq_refl) Ht). simpl in H.
  intuition discriminate.
Qed.

(** X8.  Referential integrity is an invariant of the script, and of the
    application as long as it works over connections with foreign keys
    on, as [_connect] hands them out: every task that names a category
    names one that is there.  A run keeps it however it ends.  Over a
    connection with foreign keys off it can be lost. *)
Theorem references_are_kept :
  (forall e ex d f ds r w',
      referenced d -> main e (boot ex d f ds) = (r, w') ->
      referenced (db_file w')) /\
  (forall now o d d',
      referenced d -> apply_op true now o d = Ok d' -> referenced d') /\
  (exists now o d d',
      referenced d /\ apply_op false now o d = Ok d' /\ ~ referenced d').
Proof.
  split; [|split].
  - intros e ex d f ds r w' Hd Hm. eapply referenced_main; eassumption.
  - intros now o d d' Hd Ho. eapply referenced_app; eassumption.
  - exists 0, (AppDeleteCategory 1), seeded_once, orphaned.
    split; [exact seeded_once_referenced|].
    split; [exact orphaned_ok | exact orphaned_not_referenced].
Qed.

Lemma references_are_kept_witness :
  referenced seeded_once /\
  apply_op true 0 (AppDeleteCategory 1) seeded_once
  = Ok (database_or (apply_op true 0 (AppDeleteCategory 1) seeded_once)
          seeded_once) /\
  referenced (database_or (apply_op true 0 (AppDeleteCategory 1) seeded_once)
                seeded_once).
Proof.
  assert (Ho : apply_op true 0 (AppDeleteCategory 1) seeded_once
               = Ok (database_or (apply_op true 0 (AppDeleteCategory 1) seeded_once)
                       seeded_once))
    by (vm_compute; reflexivity).
  split; [exact seeded_once_referenced|]. split; [exact Ho|].
  exact (proj1 (proj2 references_are_kept) 0 (AppDeleteCategory 1)
           seeded_once _ seeded_once_referenced Ho).
Defined.

(** ** A failure inside [_connect] *)

Lemma sqlite3_connect_ok e p w :
  fault_at e <> Some (calls w) ->
  sqlite3_connect e p w
  = (Ok (),
     logged Connected
       {| db_exists := true; db_file := db_file w;
          conn := Some {| view := db_file w; in_transaction := false;
                          foreign_keys := false |};
          files := files w; dirs := dirs w; stdout := stdout w;
          calls := S (calls w); log := log w |}).
Proof.
  intros Hne. unfold sqlite3_connect, bind, engine_call.
  destruct (decide _); [contradiction|]. reflexivity.
Qed.

Lemma execute_fault e s w c :
  conn w = Some c -> fault_at e = Some (calls w) ->
  execute e s w
  = (Raise (OperationalError "disk I/O error"),
     {| db_exists := db_exists w; db_file := db_file w; conn := conn w;
        files := files w; dirs := dirs w; stdout := stdout w;
        calls := S (calls w); log := log w |}).
Proof.
  intros Hc Hf. unfold execute, engine_call. rewrite Hc.
  destruct (decide _); [reflexivity|contradiction].
Qed.

Lemma _connect_pragma_fault e p w :
  fault_at e = Some (S (calls w)) ->
  exists w',
    _connect e p w = (Raise (OperationalError "disk I/O error"), w') /\
    conn w' = Some {| view := db_file w; in_transaction := false;
                      foreign_keys := false |} /\
    log w' = Connected :: log w.
Proof.
  intros Hf. unfold _connect.
  assert (Hne : fault_at e <> Some (calls w)).
  { rewrite Hf. intros [= Heq]. exact (Nat.neq_succ_diag_l _ Heq). }
  rewrite (bind_ok _ _ _ _ _ (sqlite3_connect_ok e p w Hne)).
  match goal with |- context [bind (execute _ _) _ ?W] => set (w1 := W) end.
  assert (Hc1 : conn w1 = Some {| view := db_file w; in_transaction := false;
                                  foreign_keys := false |}) by reflexivity.
  assert (Hf1 : fault_at e = Some (calls w1)) by exact Hf.
  rewrite (bind_raise _ _ _ _ _
             (execute_fault e PRAGMA_foreign_keys_ON w1 _ Hc1 Hf1)).
  eexists. split; [reflexivity|]. split; reflexivity.
Qed.

(** X9.  [_connect] has no try block of its own.  When the engine fails at the
    PRAGMA, the run ends with that exception before [main] has entered
    its try block: the handle that [sqlite3.connect] returned is still
    open, and nothing closes it. *)
Theorem pragma_failure_leaves_handle_open e ex d f ds r w' :
  fault_at e = Some 1%nat ->
  main e (boot ex d f ds) = (r, w') ->
  r = Raise (OperationalError "disk I/O error") /\
  conn w' = Some {| view := d; in_transaction := false; foreign_keys := false |} /\
  ~ In Closed (log w').
Proof.
  intros Hf Hm. apply main_inv in Hm. cbv zeta in Hm.
  change (db_exists (boot ex d f ds)) with ex in Hm.
  set (w0 := printed (report_head ex) (boot ex d f ds)) in Hm.
  assert (Hf0 : fault_at e = Some (S (calls w0))) by exact Hf.
  destruct (_connect_pragma_fault e DB_NAME w0 Hf0) as (w1 & H1 & Hc & Hl).
  destruct Hm as [(x & -> & H0)|(w2 & H0 & _)]; [|congruence].
  rewrite H1 in H0. injection H0 as <- <-.
  split; [reflexivity|]. split; [exact Hc|].
  rewrite Hl. intros [H|[]]. discriminate H.
Qed.

Lemma pragma_failure_leaves_handle_open_witness :
  fault_at pragma_fault_env = Some 1%nat /\
  main pragma_fault_env fresh
    = (Raise (OperationalError "disk I/O error"), snd (main pragma_fault_env fresh)) /\
  conn (snd (main pragma_fault_env fresh))
    = Some {| view := empty_database; in_transaction := false;
              foreign_keys := false |}.
Proof.
  assert (Hm : main pragma_fault_env fresh
               = (Raise (OperationalError "disk I/O error"),
                  snd (main pragma_fault_env fresh)))
    by (vm_compute; reflexivity).
  split; [reflexivity|]. split; [exact Hm|].
  exact (proj1 (proj2 (pragma_failure_leaves_handle_open pragma_fault_env false
                         empty_database ∅ ∅ _ _ eq_refl Hm))).
Defined.

(** ** The path in the two descriptors *)

(** X10.  When the working directory is an absolute path in normal form, other
    than the root, the two descriptors name the same path: the one that
    db_visualizer/sqlite.env exports is the one in the connection string
    and in the file path line of db_connection.txt. *)
Theorem descriptors_name_one_path e ex d f ds w' :
  isabs (getcwd e) = true -> normpath (getcwd e) = getcwd e ->
  endswith_slash (getcwd e) = false ->
  main e (boot ex d f ds) = (Ok (), w') ->
  exists path,
    path = (getcwd e ++ "/myapp.db")%string /\
    files w' !! "db_visualizer/sqlite.env"
    = Some (unlines [ "export SQLITE_DB=" ++ dquote ++ path ++ dquote ]%string) /\
    files w' !! "db_connection.txt"
    = Some (unlines [ "# SQLite connection methods:";
                      "# Python: sqlite3.connect('myapp.db')";
                      "# Connection string: sqlite:///" ++ path;
                      "# File path: " ++ path ]%string).
Proof.
  intros Habs Hnorm Hend Hm.
  apply main_ok_writes in Hm. destruct Hm as (w1 & w2 & Hw & Hf & _).
  apply _write_connection_files_ok in Hw. destruct Hw as (Ht & He & _).
  exists (getcwd e ++ "/myapp.db")%string. split; [reflexivity|].
  rewrite Hf. split; [|exact Ht].
  rewrite He. unfold env_line.
  change "myapp.db" with DB_NAME at 1.
  rewrite (abspath_child (getcwd e) DB_NAME Habs Hnorm Hend);
    [reflexivity | reflexivity | discriminate | discriminate | discriminate].
Qed.

Lemma descriptors_name_one_path_witness :
  isabs (getcwd sample_env) = true /\
  normpath (getcwd sample_env) = getcwd sample_env /\
  endswith_slash (getcwd sample_env) = false /\
  main sample_env fresh = (Ok (), snd (main sample_env fresh)) /\
  exists path,
    path = "/app/database/myapp.db" /\
    files (snd (main sample_env fresh)) !! "db_visualizer/sqlite.env"
    = Some (unlines [ "export SQLITE_DB=" ++ dquote ++ path ++ dquote ]%string) /\
    files (snd (main sample_env fresh)) !! "db_connection.txt"
    = Some (unlines [ "# SQLite connection methods:";
                      "# Python: sqlite3.connect('myapp.db')";
                      "# Connection string: sqlite:///" ++ path;
                      "# File path: " ++ path ]%string).
Proof.
  assert (H1 : isabs (getcwd sample_env) = true) by reflexivity.
  assert (H2 : normpath (getcwd sample_env) = getcwd sample_env)
    by (vm_compute; reflexivity).
  assert (H3 : endswith_slash (getcwd sample_env) = false) by reflexivity.
  split; [exact H1|]. split; [exact H2|]. split; [exact H3|].
  split; [exact fresh_run_ok|].
  exact (descriptors_name_one_path sample_env false empty_database ∅ ∅ _
           H1 H2 H3 fresh_run_ok).
Defined.

(** In the root directory the two descriptors differ: the text descriptor
    is put together with a slash of its own, the exported path is
    normalised. *)
Example root_directory_paths :
  abspath "/" DB_NAME = "/myapp.db" /\
  nth_error (text_lines "/") 3 = Some "# File path: //myapp.db".
Proof. split; vm_compute; reflexivity. Qed.

(** ** What a run leaves in place *)

Lemma master_mono d d' :
  (present (categories d) = true -> present (categories d') = true) ->
  (present (sqlite_sequence d) = true -> present (sqlite_sequence d') = true) ->
  (present (tasks d) = true -> present (tasks d') = true) ->
  (forall o, In o (objects d) -> In o (objects d')) ->
  forall o, In o (sqlite_master d) -> In o (sqlite_master d').
Proof.
  intros Hc Hs Ht Ho o. rewrite !sqlite_master_in.
  intros [[H1 H]|[[H1 H]|[[H1 H]|H]]]; auto 6.
Qed.

Lemma set_seq_present tbl v db :
  present (sqlite_sequence db) = true ->
  present (sqlite_sequence (set_seq tbl v db)) = true.
Proof. unfold set_seq. destruct (_ <? _); simpl; auto. Qed.

Lemma extends_refl d : extends d d.
Proof.
  split; [auto|]. split; intros l Hl; exists []; rewrite app_nil_r; exact Hl.
Qed.

Lemma extends_trans d0 d1 d2 : extends d0 d1 -> extends d1 d2 -> extends d0 d2.
Proof.
  intros (M1 & C1 & T1) (M2 & C2 & T2). split; [auto|]. split.
  - intros cs Hcs. destruct (C1 _ Hcs) as (x1 & H1). destruct (C2 _ H1) as (x2 & H2).
    exists (x1 ++ x2)%list. rewrite app_assoc. exact H2.
  - intros ts Hts. destruct (T1 _ Hts) as (x1 & H1). destruct (T2 _ H1) as (x2 & H2).
    exists (x1 ++ x2)%list. rewrite app_assoc. exact H2.
Qed.

Lemma insert_category_extends oi now v db db' :
  insert_category oi now v db = Ok db' -> extends db db'.
Proof.
  unfold insert_category. destruct (categories db) as [cs|] eqn:Hcs; [|discriminate].
  destruct (choose_rowid _ _ _ _) as [i|]; [|discriminate].
  assert (Hskip : extends db (set_seq "categories" i db)).
  { split; [|split].
    - apply master_mono; rewrite ?set_seq_categories, ?set_seq_tasks, ?set_seq_objects;
        auto using set_seq_present.
    - intros l Hl. exists []. rewrite set_seq_categories, app_nil_r. exact Hl.
    - intros l Hl. exists []. rewrite set_seq_tasks, app_nil_r. exact Hl. }
  assert (Hrow : forall row,
             extends db (with_categories (cs ++ [row]) (set_seq "categories" i db))).
  { intros row. eapply extends_trans; [exact Hskip|]. split; [|split].
    - apply master_mono; simpl; auto.
    - intros l Hl. rewrite set_seq_categories, Hcs in Hl. injection Hl as <-.
      exists [row]. reflexivity.
    - intros l Hl. exists []. simpl. rewrite app_nil_r. exact Hl. }
  destruct (cv_name v) as [name|].
  - destruct (category_conflict _ _ _); [destruct oi; [|discriminate]|];
      intros [= <-]; auto.
  - destruct oi; [|discriminate]. intros [= <-]. exact Hskip.
Qed.

Lemma insert_task_extends fk now v db db' :
  insert_task fk now v db = Ok db' -> extends db db'.
Proof.
  unfold insert_task. destruct (tasks db) as [ts|] eqn:Hts; [|discriminate].
  destruct (choose_rowid _ _ _ _) as [i|]; [|discriminate].
  destruct (tv_title v) as [ttl|]; [|discriminate].
  destruct (negb (tasks_check _)); [discriminate|].
  destruct (existsb _ ts); [discriminate|].
  destruct (negb (fk_ok _ _ _)); [discriminate|]. intros [= <-].
  split; [|split].
  - apply master_mono; simpl; rewrite ?set_seq_categories, ?set_seq_objects;
      auto using set_seq_present.
  - intros l Hl. exists []. simpl. rewrite set_seq_categories, app_nil_r. exact Hl.
  - intros l Hl. rewrite Hts in Hl. injection Hl as <-. eexists. reflexivity.
Qed.

Lemma not_dml_extends s d d' : is_dml s = false -> step s d d' -> extends d d'.
Proof.
  intros Hd Hs. split; [exact (step_master s d d' Hd Hs)|].
  destruct Hs as (fk & now & r & H). apply run_not_dml in H; [|exact Hd].
  destruct H as (_ & Hc & Ht). split.
  - intros cs Hcs. exists []. rewrite app_nil_r, Hc; [exact Hcs|].
    rewrite Hcs. reflexivity.
  - intros ts Hts. exists []. rewrite app_nil_r, Ht; [exact Hts|].
    rewrite Hts. reflexivity.
Qed.

Lemma extends_schema d0 s : In s schema_statements -> stmt_keeps (extends d0) s.
Proof.
  intros Hs fk now db db' r Hdb Hr. eapply extends_trans; [exact Hdb|].
  eapply not_dml_extends; [apply schema_not_dml; exact Hs|].
  eapply run_step; exact Hr.
Qed.

Lemma extends_category d0 s : In s category_statements -> stmt_keeps (extends d0) s.
Proof.
  intros Hs fk now db db' r Hdb Hr. eapply extends_trans; [exact Hdb|].
  apply category_statement_inv in Hs. destruct Hs as (n & c & o & _ & ->).
  simpl in Hr. apply with_db_inv in Hr. destruct Hr as [Hr _].
  eapply insert_category_extends; exact Hr.
Qed.

Lemma extends_task d0 s : In s task_statements -> stmt_keeps (extends d0) s.
Proof.
  intros Hs fk now db db' r Hdb Hr. eapply extends_trans; [exact Hdb|].
  apply task_statement_inv in Hs. destruct Hs as (t & d & c & p & ->).
  simpl in Hr. apply with_db_inv in Hr. destruct Hr as [Hr _].
  eapply insert_task_extends; exact Hr.
Qed.

(** X11.  The script only ever adds.  Whatever the outcome of a run, every
    table and index that the file held before is still there (the sample
    tables of an older file included: nothing is dropped or replaced),
    and every row that [categories] and [tasks] held is still there,
    unchanged and in its place, with new rows only after it. *)
Theorem nothing_is_dropped e ex d f ds r w' :
  main e (boot ex d f ds) = (r, w') ->
  (forall o, In o (sqlite_master d) -> In o (sqlite_master (db_file w'))) /\
  (forall cs, categories d = Some cs ->
     exists extra, categories (db_file w') = Some (cs ++ extra)%list) /\
  (forall ts, tasks d = Some ts ->
     exists extra, tasks (db_file w') = Some (ts ++ extra)%list).
Proof.
  intros Hm.
  pose proof (triple_run _ _ _ _ _ _ _
                (main_both (extends d) e (extends_schema d) (extends_category d)
                   (fun _ => extends_task d))
                (boot_both (extends d) ex d f ds (extends_refl d)) Hm) as H.
  destruct r; apply H.
Qed.

Lemma legacy_run_ok :
  main sample_env (boot true legacy ∅ ∅)
  = (Ok (), snd (main sample_env (boot true legacy ∅ ∅))).
Proof. vm_compute. reflexivity. Qed.

Lemma nothing_is_dropped_witness :
  main sample_env (boot true legacy ∅ ∅)
    = (Ok (), snd (main sample_env (boot true legacy ∅ ∅))) /\
  In ("table", "users")
     (sqlite_master (db_file (snd (main sample_env (boot true legacy ∅ ∅))))).
Proof.
  split; [exact legacy_run_ok|].
  apply (proj1 (nothing_is_dropped sample_env true legacy ∅ ∅ _ _ legacy_run_ok)).
  left. reflexivity.
Defined.

(** On a file that holds the two older sample tables the report counts
    four tables. *)
Example legacy_run_report :
  nth_error (stdout (snd (main sample_env (boot true legacy ∅ ∅)))) 13
  = Some "  Tables: 4".
Proof. vm_compute. reflexivity. Qed.

(** ** The counter of [categories] *)

Lemma max_rowid_snoc ids i :
  max_rowid (ids ++ [i])
  = Some (match max_rowid ids with Some last => Z.max last i | None => i end).
Proof.
  destruct ids as [|a rest]; [reflexivity|].
  simpl. rewrite fold_left_app. reflexivity.
Qed.

Lemma seq_of_set_seq tbl v db :
  seq_of tbl (set_seq tbl v db) = Z.max (seq_of tbl db) v.
Proof.
  unfold set_seq. destruct (seq_of tbl db <? v) eqn:E.
  - apply Z.ltb_lt in E. unfold seq_of at 1. cbn [sqlite_sequence from_option id].
    rewrite lookup_insert_eq. cbn [from_option id]. lia.
  - apply Z.ltb_ge in E. lia.
Qed.

Lemma seq_of_set_seq_ne tbl tbl' v db :
  tbl <> tbl' -> seq_of tbl (set_seq tbl' v db) = seq_of tbl db.
Proof.
  intros Hne. unfold set_seq. destruct (seq_of tbl' db <? v); [|reflexivity].
  unfold seq_of. cbn [sqlite_sequence from_option id].
  rewrite lookup_insert_ne by congruence. reflexivity.
Qed.

Lemma seq_of_with_categories tbl cs db :
  seq_of tbl (with_categories cs db) = seq_of tbl db.
Proof. reflexivity. Qed.

Lemma seq_of_with_tasks tbl ts db : seq_of tbl (with_tasks ts db) = seq_of tbl db.
Proof. reflexivity. Qed.

Lemma new_rowid_value tbl ids db i :
  new_rowid tbl ids db = Ok i ->
  i = match max_rowid ids with
      | Some last => Z.max last (seq_of tbl db)
      | None => Z.max 0 (seq_of tbl db)
      end + 1.
Proof.
  unfold new_rowid. destruct (max_rowid ids) as [last|].
  - destruct (_ || _); [discriminate|]. intros [= <-]. lia.
  - destruct (_ =? _); [discriminate|]. intros [= <-]. lia.
Qed.

Lemma step_category_counter name color sort_order d d' :
  step (INSERT_OR_IGNORE_category name color sort_order) d d' ->
  seq_of "categories" d' = high_water d + 1 /\ high_water d' = high_water d + 1.
Proof.
  intros (fk & now & r & H). cbn [run_statement] in H.
  apply with_db_inv in H. destruct H as [H _]. unfold insert_category in H.
  cbn [cv_id cv_name choose_rowid] in H.
  destruct (categories d) as [cs|] eqn:Hcs; [|discriminate].
  destruct (new_rowid _ _ _) as [i|] eqn:En; [|discriminate].
  apply new_rowid_value in En.
  assert (Hi : i = high_water d + 1).
  { unfold high_water. rewrite Hcs. exact En. }
  clear En.
  assert (Hseq : seq_of "categories" (set_seq "categories" i d) = i).
  { rewrite seq_of_set_seq. unfold high_water in Hi.
    destruct (max_rowid _) in Hi; lia. }
  assert (Hhw : forall last, max_rowid (cat_id <$> cs) = Some last -> last < i).
  { intros last Hl. unfold high_water in Hi. rewrite Hcs in Hi.
    cbn [from_option id] in Hi. rewrite Hl in Hi. lia. }
  assert (Hpos : max_rowid (cat_id <$> cs) = None -> 0 < i).
  { intros Hl. unfold high_water in Hi. rewrite Hcs in Hi.
    cbn [from_option id] in Hi. rewrite Hl in Hi. lia. }
  match type of H with context [(cs ++ [?r])%list] => set (row := r) in H end.
  assert (Hrow : cat_id row = i) by reflexivity. clearbody row.
  destruct (category_conflict i name cs); injection H as <-.
  - split; [rewrite Hseq; exact Hi|]. unfold high_water at 1.
    rewrite set_seq_categories, Hseq, Hcs. cbn [from_option id].
    destruct (max_rowid (cat_id <$> cs)) as [last|] eqn:El;
      [specialize (Hhw last eq_refl)|specialize (Hpos eq_refl)]; lia.
  - rewrite seq_of_with_categories. split; [rewrite Hseq; exact Hi|].
    unfold high_water at 1. rewrite seq_of_with_categories, Hseq.
    cbn [categories with_categories from_option id].
    rewrite fmap_app. change (cat_id <$> [row]) with [cat_id row].
    rewrite max_rowid_snoc, Hrow.
    destruct (max_rowid (cat_id <$> cs)) as [last|] eqn:El;
      [specialize (Hhw last eq_refl)|specialize (Hpos eq_refl)]; lia.
Qed.

Lemma rows_counter tbl d d' :
  rows_of d' = rows_of d ->
  seq_of tbl d' = seq_of tbl d /\ high_water d' = high_water d.
Proof.
  unfold rows_of, high_water, seq_of. intros [= -> _ ->]. auto.
Qed.

Lemma runs_not_dml_rows l d d' :
  (forall s, In s l -> is_dml s = false) -> runs l d d' -> rows_of d' = rows_of d.
Proof.
  revert d. induction l as [|s l IH]; intros d Hl; simpl.
  - intros ->. reflexivity.
  - intros (d1 & (fk & now & r & Hs) & Hr).
    apply run_not_dml in Hs; [|apply Hl; left; reflexivity].
    destruct Hs as (Hrows & _). rewrite <- Hrows.
    apply IH; [|exact Hr]. intros s' Hs'. apply Hl. right. exact Hs'.
Qed.

Lemma step_task_counter ttl descr category_name prio d d' :
  step (INSERT_task ttl descr category_name prio) d d' ->
  seq_of "categories" d' = seq_of "categories" d /\ high_water d' = high_water d.
Proof.
  intros (fk & now & r & H). cbn [run_statement] in H.
  apply with_db_inv in H. destruct H as [H _]. unfold insert_task in H.
  destruct (tasks d) as [ts|]; [|discriminate].
  destruct (choose_rowid _ _ _ _) as [i|]; [|discriminate].
  cbn [tv_title] in H.
  destruct (negb (tasks_check _)); [discriminate|].
  destruct (existsb _ ts); [discriminate|].
  destruct (negb (fk_ok _ _ _)); [discriminate|]. injection H as <-.
  assert (Hs : seq_of "categories" (set_seq "tasks" i d) = seq_of "categories" d)
    by (apply seq_of_set_seq_ne; discriminate).
  unfold high_water. rewrite !seq_of_with_tasks, Hs.
  cbn [categories with_tasks]. rewrite set_seq_categories. auto.
Qed.

Lemma seeded_counter d d' :
  seeded d d' ->
  seq_of "categories" d' = high_water d + 4 /\ high_water d' = high_water d + 4.
Proof.
  intros (d2 & Hcat & Htask).
  assert (H2 : seq_of "categories" d2 = high_water d + 4 /\
               high_water d2 = high_water d + 4).
  { cbn in Hcat.
    destruct Hcat as (c1 & S1 & c2 & S2 & c3 & S3 & c4 & S4 & ->).
    apply step_category_counter in S1, S2, S3, S4. lia. }
  destruct Htask as [[_ Hrun]|(t & ts & _ & ->)]; [|exact H2].
  cbn in Hrun. destruct Hrun as (t1 & S1 & t2 & S2 & t3 & S3 & ->).
  apply step_task_counter in S1, S2, S3. lia.
Qed.

(** X12.  Every run that succeeds moves the AUTOINCREMENT counter of
    [categories] four ids beyond the largest id that the table held or
    had ever given out, whether its four INSERT OR IGNORE statements insert
    a row or are ignored; no category has an id beyond the counter. *)
Theorem every_run_takes_four_ids e ex d f ds w' :
  main e (boot ex d f ds) = (Ok (), w') ->
  seq_of "categories" (db_file w') = high_water d + 4 /\
  forall c, In c (default [] (categories (db_file w'))) ->
    cat_id c <= seq_of "categories" (db_file w').
Proof.
  intros Hm. apply main_ok_initialized in Hm.
  destruct Hm as (d1 & Hschema & Hseed).
  apply runs_not_dml_rows in Hschema; [|exact schema_not_dml].
  destruct (rows_counter "categories" _ _ Hschema) as [_ Hhw].
  apply seeded_counter in Hseed. destruct Hseed as [Hseq Hhw'].
  rewrite Hhw in Hseq, Hhw'. split; [exact Hseq|].
  intros c Hc. rewrite Hseq, <- Hhw'. unfold high_water.
  destruct (max_rowid _) as [last|] eqn:El.
  - pose proof (max_rowid_ge _ _ El (cat_id c) (in_map cat_id _ _ Hc)). lia.
  - destruct (default [] (categories (db_file w'))); [contradiction|discriminate El].
Qed.

Lemma every_run_takes_four_ids_witness :
  main sample_env (next (snd (main sample_env fresh)))
    = (Ok (), snd (main sample_env (next (snd (main sample_env fresh))))) /\
  seq_of "categories"
    (db_file (snd (main sample_env (next (snd (main sample_env fresh))))))
  = high_water (db_file (snd (main sample_env fresh))) + 4.
Proof.
  split; [exact second_run_ok|].
  exact (proj1 (every_run_takes_four_ids sample_env true _ _ _ _ second_run_ok)).
Defined.

(** After the first run the counter stands at 4, after the second at 8,
    with the same four categories. *)
Example counter_after_two_runs :
  seq_of "categories" (db_file (snd (main sample_env fresh))) = 4 /\
  seq_of "categories"
    (db_file (snd (main sample_env (next (snd (main sample_env fresh)))))) = 8 /\
  cat_id <$> default [] (categories
    (db_file (snd (main sample_env (next (snd (main sample_env fresh)))))))
  = [1; 2; 3; 4].
Proof. vm_compute. auto. Qed.

(** ** Time stamps *)

Lemma stamps_refl d : stamps d d.
Proof.
  split.
  - exists []. rewrite app_nil_r. split; [reflexivity|apply Forall_nil_2].
  - exists []. rewrite app_nil_r. split; [reflexivity|apply Forall_nil_2].
Qed.

Lemma stamps_rows d0 d d' : rows_of d' = rows_of d -> stamps d0 d -> stamps d0 d'.
Proof. unfold rows_of, stamps. intros [= -> -> _]. tauto. Qed.

Lemma stamps_schema d0 s : In s schema_statements -> stmt_keeps (stamps d0) s.
Proof.
  intros Hs fk now db db' r Hdb Hr.
  apply run_not_dml in Hr; [|apply schema_not_dml; exact Hs].
  destruct Hr as (Hrows & _). exact (stamps_rows _ _ _ Hrows Hdb).
Qed.

Lemma stamps_category d0 s : In s category_statements -> stmt_keeps (stamps d0) s.
Proof.
  intros Hs fk now db db' r [(xc & Hc & Fc) Ht] Hr.
  apply category_statement_inv in Hs. destruct Hs as (n & c & o & _ & ->).
  cbn [run_statement] in Hr. apply with_db_inv in Hr. destruct Hr as [Hr _].
  apply insert_category_inv in Hr.
  destruct Hr as (cs & Hcs & Htk & _ & [Hc'|(i & name & _ & _ & Hc')]);
    unfold stamps; rewrite Htk, Hc'; rewrite Hcs in Hc; cbn [from_option id] in *;
    (split; [|exact Ht]).
  - exists xc. auto.
  - eexists. split.
    + rewrite Hc, <- app_assoc. reflexivity.
    + apply Forall_app. split; [exact Fc|]. constructor; [|constructor].
      split; [reflexivity|]. exists now. reflexivity.
Qed.

Lemma stamps_task d0 s : In s task_statements -> stmt_keeps (stamps d0) s.
Proof.
  intros Hs fk now db db' r [Hc (xt & Ht & Ft)] Hr.
  apply task_statement_inv in Hs. destruct Hs as (ttl & descr & cn & prio & ->).
  cbn [run_statement] in Hr. apply with_db_inv in Hr. destruct Hr as [Hr _].
  apply insert_task_inv in Hr.
  destruct Hr as (ts & i & ttl' & Hts & _ & Hc' & _ & Ht' & _).
  unfold stamps. rewrite Hc', Ht'. rewrite Hts in Ht. cbn [from_option id] in *.
  split; [exact Hc|].
  eexists. split.
  - rewrite Ht, <- app_assoc. reflexivity.
  - apply Forall_app. split; [exact Ft|]. constructor; [|constructor].
    split; [reflexivity|]. exists now. reflexivity.
Qed.

(** X13.  The script leaves both time stamps of every row it inserts to
    their DEFAULT.  Whatever the outcome of a run, the rows that the file
    has gained carry a creation time equal to their update time, and that
    time is a whole number of seconds written in milliseconds. *)
Theorem seed_rows_are_stamped e ex d f ds r w' :
  main e (boot ex d f ds) = (r, w') ->
  (exists extra,
      default [] (categories (db_file w'))
      = (default [] (categories d) ++ extra)%list /\
      forall c, In c extra ->
        cat_created_at c = cat_updated_at c /\
        exists now, cat_created_at c = now * 1000) /\
  (exists extra,
      default [] (tasks (db_file w')) = (default [] (tasks d) ++ extra)%list /\
      forall t, In t extra ->
        task_created_at t = task_updated_at t /\
        exists now, task_created_at t = now * 1000).
Proof.
  intros Hm.
  pose proof (triple_run _ _ _ _ _ _ _
                (main_both (stamps d) e (stamps_schema d) (stamps_category d)
                   (fun _ => stamps_task d))
                (boot_both (stamps d) ex d f ds (stamps_refl d)) Hm) as H.
  assert (Hs : stamps d (db_file w')) by (destruct r; apply H).
  destruct Hs as [(xc & Hc & Fc) (xt & Ht & Ft)].
  rewrite List.Forall_forall in Fc, Ft. split.
  - exists xc. split; [exact Hc|]. intros c Hin. exact (Fc c Hin).
  - exists xt. split; [exact Ht|]. intros t Hin. exact (Ft t Hin).
Qed.

Lemma seed_rows_are_stamped_witness :
  main sample_env fresh = (Ok (), snd (main sample_env fresh)) /\
  exists extra,
    default [] (tasks (db_file (snd (main sample_env fresh))))
    = (default [] (tasks empty_database) ++ extra)%list /\
    forall t, In t extra ->
      task_created_at t = task_updated_at t /\
      exists now, task_created_at t = now * 1000.
Proof.
  split; [exact fresh_run_ok|].
  exact (proj2 (seed_rows_are_stamped sample_env false empty_database ∅ ∅ _ _
                  fresh_run_ok)).
Defined.
